(** * Verification of the commit backup pipeline (script/backup_script.py)

    The development embeds the backup script shallowly: pure helpers as
    functions, effectful code in a small state-and-exception monad over an
    explicit [World] (backup tree, failure list, trace of effects), and the
    two concurrency stages as functions of the order in which the executor
    hands results back: the order in which the file tasks complete, and,
    finer, the order in which they are resumed at their awaits.  External
    collaborators (GitPython, the file system, the clock) are fields of an
    [Env] record. *)

From Stdlib Require Import ZArith Lia Permutation Ascii String.
From stdpp Require Import gmap strings list fin_maps.

Open Scope string_scope.
Open Scope list_scope.
Open Scope Z_scope.

(** ** Exceptions *)

(** The exception classes the script raises or handles.  [str e] is the text
    Python's [str(e)] yields; for library exceptions it is carried as is. *)
Inductive exn : Type :=
| ValidationError (msg : string)
| BackupError (msg : string)
| GitCommandError (msg : string)
| InvalidGitRepositoryError (msg : string)
| ValueError (msg : string)
| OSError (msg : string)
| OtherException (msg : string).

Definition str (e : exn) : string :=
  match e with
  | ValidationError m | BackupError m | GitCommandError m
  | InvalidGitRepositoryError m | ValueError m | OSError m
  | OtherException m => m
  end.

(** Result of a call: a value, or a raised exception. *)
Inductive outcome (A : Type) : Type :=
| Returns (a : A)
| Raises (e : exn).
Arguments Returns {A} a.
Arguments Raises {A} e.

(** ** Data model *)

(** A commit as the script reads it: [hexsha] and [committed_date]
    (seconds since the epoch). *)
Record Commit : Type := mkCommit {
  hexsha : string;
  committed_date : Z
}.

(** How a destination write can fail: before the file is opened, or after
    [open(..., mode='w')] has created/truncated it and [written] characters
    of the content reached the file. *)
Inductive write_failure : Type :=
| OpenFails (e : exn)
| WriteFails (written : nat) (e : exn).

(** The external collaborators.  A naive [datetime] is the number of
    seconds on the local wall clock. *)
Record Env : Type := mkEnv {
  (* datetime.strptime(s, '%d-%m-%Y'); None is the ValueError *)
  strptime : string -> option Z;
  (* datetime.fromtimestamp *)
  fromtimestamp : Z -> Z;
  (* the exception datetime.fromtimestamp raises on a time that datetime
     cannot hold (a year past 9999, a value the platform rejects) *)
  fromtimestamp_fault : Z -> option exn;
  (* datetime.now() *)
  now : Z;
  (* os.path.exists *)
  path_exists : string -> bool;
  (* git.Repo(repo_dir) *)
  open_repo : string -> option exn;
  (* repo.active_branch.name; it raises on a detached HEAD *)
  active_branch : outcome string;
  (* repo.iter_commits(branch): the commits the generator yields *)
  iter_commits : string -> list Commit;
  (* the GitCommandError that ends the iteration once these commits were
     yielded, when git fails (a branch without commits yields nothing and
     fails) *)
  iter_commits_fault : string -> option exn;
  (* repo.git.show('--pretty=', '--name-only', sha).splitlines(), fetched
     through the process pool *)
  show_names : string -> outcome (list string);
  (* repo.git.show(f'{sha}:{file}') *)
  show_file : string -> string -> outcome string;
  (* repo.commit(sha) *)
  repo_commit : string -> option exn;
  (* a fault of os.makedirs(path, exist_ok=True) *)
  makedirs_fault : string -> option exn;
  (* a fault of writing [content] to [path] *)
  write_fault : string -> string -> option write_failure
}.

(** ** Commit selector: [get_commits] *)

(** Python truthiness of an [Optional[str]]. *)
Definition truthy (s : option string) : bool :=
  match s with
  | Some s => negb (String.eqb s "")
  | None => false
  end.

(** [datetime.strptime(d, '%d-%m-%Y') if d else None] *)
Definition parse_bound (env : Env) (d : option string) : outcome (option Z) :=
  match d with
  | Some s =>
      if truthy (Some s) then
        match strptime env s with
        | Some t => Returns (Some t)
        | None => Raises (ValueError s)
        end
      else Returns None
  | None => Returns None
  end.

(** [start_date_obj and commit_date < start_date_obj] *)
Definition before_start (start_obj : option Z) (commit_date : Z) : bool :=
  match start_obj with
  | Some s => commit_date <? s
  | None => false
  end.

(** [end_date_obj and commit_date > end_date_obj] *)
Definition after_end (end_obj : option Z) (commit_date : Z) : bool :=
  match end_obj with
  | Some e => commit_date >? e
  | None => false
  end.

(** The [for commit in repo.iter_commits(branch)] loop over the commits
    the generator yields; [commits] is the list built so far.  The commit
    time is converted before any comparison, whether or not a bound is
    set, and the conversion may raise. *)
Fixpoint select_loop (env : Env) (start_obj end_obj : option Z)
    (history commits : list Commit) : outcome (list Commit) :=
  match history with
  | [] => Returns commits
  | commit :: rest =>
      match fromtimestamp_fault env (committed_date commit) with
      | Some e => Raises e
      | None =>
          let commit_date := fromtimestamp env (committed_date commit) in
          if before_start start_obj commit_date then
            select_loop env start_obj end_obj rest commits
          else if after_end end_obj commit_date then
            select_loop env start_obj end_obj rest commits
          else select_loop env start_obj end_obj rest (commits ++ [commit])
      end
  end.

(** The generator is exhausted: the iteration ends, or the failure of git
    is raised at this point. *)
Definition end_of_iteration {A} (env : Env) (branch : string) (result : A)
    : outcome A :=
  match iter_commits_fault env branch with
  | Some e => Raises e
  | None => Returns result
  end.

Definition get_commits (env : Env) (branch : string)
    (start_date end_date : option string) : outcome (list Commit) :=
  match start_date, end_date with
  | None, None => end_of_iteration env branch (iter_commits env branch)
  | _, _ =>
      match parse_bound env start_date with
      | Raises e => Raises e
      | Returns start_obj =>
          match parse_bound env end_date with
          | Raises e => Raises e
          | Returns end_obj =>
              match select_loop env start_obj end_obj
                      (iter_commits env branch) [] with
              | Raises e => Raises e
              | Returns commits => end_of_iteration env branch commits
              end
          end
      end
  end.

(** The first commit time of the history that [datetime.fromtimestamp]
    rejects, as the exception raised. *)
Fixpoint conversion_fault (env : Env) (history : list Commit) : option exn :=
  match history with
  | [] => None
  | commit :: rest =>
      match fromtimestamp_fault env (committed_date commit) with
      | Some e => Some e
      | None => conversion_fault env rest
      end
  end.

(** [start_date is None and end_date is None]: the early return. *)
Definition unbounded (start_date end_date : option string) : bool :=
  match start_date, end_date with
  | None, None => true
  | _, _ => false
  end.

(** The window the loop implements: both bounds are instants (midnight of
    the day given) and both are inclusive. *)
Definition in_window (env : Env) (start_obj end_obj : option Z)
    (c : Commit) : bool :=
  negb (before_start start_obj (fromtimestamp env (committed_date c)))
  && negb (after_end end_obj (fromtimestamp env (committed_date c))).

(** The window as the specification words it: inclusive at day
    granularity, so a commit belongs to it when the calendar day of its
    timestamp lies between the start day and the end day. *)
Definition day_of (t : Z) : Z := t / 86400.

Definition spec_in_window (env : Env) (start_obj end_obj : option Z)
    (c : Commit) : bool :=
  let d := day_of (fromtimestamp env (committed_date c)) in
  match start_obj with Some s => day_of s <=? d | None => true end
  && match end_obj with Some e => d <=? day_of e | None => true end.

Definition spec_get_commits (env : Env) (branch : string)
    (start_obj end_obj : option Z) : list Commit :=
  List.filter (spec_in_window env start_obj end_obj) (iter_commits env branch).

(** ** Paths: [os.path.join] and [os.path.dirname] (posixpath) *)

Definition slash : ascii := "/"%char.

Definition starts_with_slash (s : string) : bool :=
  match s with
  | String c _ => Ascii.eqb c slash
  | EmptyString => false
  end.

Fixpoint ends_with_slash (s : string) : bool :=
  match s with
  | EmptyString => false
  | String c EmptyString => Ascii.eqb c slash
  | String _ s' => ends_with_slash s'
  end.

Fixpoint has_slash (s : string) : bool :=
  match s with
  | EmptyString => false
  | String c s' => Ascii.eqb c slash || has_slash s'
  end.

(** [posixpath.join(a, b)]: an absolute [b] discards [a]; otherwise the
    two are glued with one separator unless [a] is empty or ends in one. *)
Definition path_join (a b : string) : string :=
  if starts_with_slash b then b
  else if String.eqb a "" || ends_with_slash a then a +:+ b
  else a +:+ "/" +:+ b.

(** [p[:p.rfind('/') + 1]] *)
Fixpoint upto_last_slash (p : string) : string :=
  match p with
  | EmptyString => EmptyString
  | String c p' =>
      if has_slash p' || Ascii.eqb c slash then String c (upto_last_slash p')
      else EmptyString
  end.

Fixpoint all_slashes (s : string) : bool :=
  match s with
  | EmptyString => true
  | String c s' => Ascii.eqb c slash && all_slashes s'
  end.

(** [s.rstrip('/')] *)
Fixpoint rstrip_slash (s : string) : string :=
  match s with
  | EmptyString => EmptyString
  | String c s' =>
      let r := rstrip_slash s' in
      if Ascii.eqb c slash && String.eqb r "" then EmptyString
      else String c r
  end.

(** [posixpath.dirname(p)] *)
Definition dirname (p : string) : string :=
  let head := upto_last_slash p in
  if all_slashes head then head else rstrip_slash head.

(** The directory [d] with every directory above it, nearest first: what
    [os.makedirs(d)] walks through.  The walk stops at the root or at a
    relative name without a parent. *)
Fixpoint dir_chain_fuel (fuel : nat) (d : string) : list string :=
  match fuel with
  | O => [d]
  | S fuel' =>
      let parent := dirname d in
      if String.eqb parent "" || String.eqb parent d then [d]
      else d :: dir_chain_fuel fuel' parent
  end.

Definition dir_chain (d : string) : list string :=
  dir_chain_fuel (String.length d) d.

(** ** The world the script acts on *)

(** Effects in program order, kept so that ordering claims can be stated. *)
Inductive Action : Type :=
| AFetch (sha file : string)
| AMakedirs (path : string)
| AOpen (path : string)
| AWrite (path content : string)
| AAppendFailure (sha file : string)
| ARaise (e : exn)
| ALogWarning (msg : string)
| ALogException (msg : string).

Record World : Type := mkWorld {
  (* directories of the backup tree *)
  w_dirs : gset string;
  (* files of the backup tree, with their content *)
  w_files : gmap string string;
  (* the shared failed_files list *)
  failed_files : list (string * string);
  (* what happened so far, oldest first *)
  w_trace : list Action
}.

Definition empty_world : World := mkWorld ∅ ∅ [] [].

(** State-and-exception monad: a computation takes the world and yields
    the world at the point where it returned or raised. *)
Definition M (A : Type) : Type := World -> World * outcome A.

#[export] Instance M_ret : MRet M := fun A a w => (w, Returns a).

#[export] Instance M_bind : MBind M := fun A B k m w =>
  match m w with
  | (w', Returns a) => k a w'
  | (w', Raises e) => (w', Raises e)
  end.

Definition raise {A} (e : exn) : M A :=
  fun w => (mkWorld (w_dirs w) (w_files w) (failed_files w)
              (w_trace w ++ [ARaise e]), Raises e).

(** [try: m except Exception as e: h e] *)
Definition try_except {A} (m : M A) (h : exn -> M A) : M A :=
  fun w =>
    match m w with
    | (w', Returns a) => (w', Returns a)
    | (w', Raises e) => h e w'
    end.

Definition emit (a : Action) : M unit :=
  fun w => (mkWorld (w_dirs w) (w_files w) (failed_files w)
              (w_trace w ++ [a]), Returns tt).

(** A library call that returns or raises. *)
Definition lift_outcome {A} (o : outcome A) : M A :=
  match o with
  | Returns a => mret a
  | Raises e => raise e
  end.

(** [failed_files.append((sha, file))] *)
Definition append_failure (sha file : string) : M unit :=
  fun w => (mkWorld (w_dirs w) (w_files w) (failed_files w ++ [(sha, file)])
              (w_trace w ++ [AAppendFailure sha file]), Returns tt).

(** [os.makedirs(path, exist_ok=True)]: on success [path] and every
    directory above it exist.  The empty path is no directory. *)
Definition makedirs (env : Env) (path : string) : M unit :=
  emit (AMakedirs path) ;;
  if String.eqb path "" then raise (OSError "No such file or directory: ''")
  else
    match makedirs_fault env path with
    | Some e => raise e
    | None =>
        fun w => (mkWorld (list_to_set (dir_chain path) ∪ w_dirs w)
                    (w_files w) (failed_files w) (w_trace w), Returns tt)
    end.

Definition set_file (path content : string) : M unit :=
  fun w => (mkWorld (w_dirs w) (<[path := content]> (w_files w))
              (failed_files w) (w_trace w), Returns tt).

Definition take_string (n : nat) (s : string) : string :=
  String.substring 0 n s.

(** ** Content fetcher and snapshot writer *)

(** [read_file_content]: [repo.git.show(f'{commit.hexsha}:{file}')] run in
    the executor and awaited. *)
Definition read_file_content (env : Env) (sha file : string) : M string :=
  emit (AFetch sha file) ;;
  lift_outcome (show_file env sha file).

(** [write_file_content]: open the destination with mode ['w'] (which
    creates or truncates it), then write the content. *)
Definition write_file_content (env : Env) (file_path content : string)
    : M unit :=
  match write_fault env file_path content with
  | Some (OpenFails e) => raise e
  | Some (WriteFails written e) =>
      emit (AOpen file_path) ;;
      set_file file_path (take_string written content) ;;
      raise e
  | None =>
      emit (AOpen file_path) ;;
      set_file file_path content ;;
      emit (AWrite file_path content)
  end.

(** ['needle' in hay] *)
Fixpoint contains (needle hay : string) : bool :=
  String.prefix needle hay
  || match hay with
     | EmptyString => false
     | String _ hay' => contains needle hay'
     end.

Definition deletion_marker : string := "does not exist in".

Definition backup_error (file : string) (e : exn) : exn :=
  BackupError ("Error processing file " +:+ file +:+ ": " +:+ str e).

(** ** File unit: [process_file] *)

Definition process_file (env : Env) (sha file commit_backup_dir : string)
    : M unit :=
  try_except
    (file_content ← read_file_content env sha file;
     let file_path := path_join commit_backup_dir file in
     makedirs env (dirname file_path);;
     write_file_content env file_path file_content)
    (fun e =>
       match e with
       | GitCommandError _ =>
           if contains deletion_marker (str e) then
             emit (ALogWarning
                     ("The file " +:+ file +:+ " was deleted in commit "
                      +:+ sha))
           else
             append_failure sha file;;
             raise (backup_error file e)
       | _ =>
           append_failure sha file;;
           raise (backup_error file e)
       end).

(** ** Commit unit: [process_commit] *)

(** The ChangedFileMap: a Python dict, kept in insertion order. *)
Abbreviation ChangedFileMap := (list (string * list string)).

Fixpoint dict_set (d : ChangedFileMap) (k : string) (v : list string)
    : ChangedFileMap :=
  match d with
  | [] => [(k, v)]
  | (k', v') :: d' =>
      if String.eqb k' k then (k, v) :: d' else (k', v') :: dict_set d' k v
  end.

Fixpoint dict_get (d : ChangedFileMap) (k : string) : option (list string) :=
  match d with
  | [] => None
  | (k', v') :: d' => if String.eqb k' k then Some v' else dict_get d' k
  end.

(** The part of [process_commit] that runs before its [await]:
    [repo.commit(commit_sha)], the destination directory, and the creation
    of one [process_file] coroutine per file.  It returns the directory. *)
Definition commit_setup (env : Env) (backup_dir commit_sha : string)
    : M string :=
  match repo_commit env commit_sha with
  | Some e => raise e
  | None =>
      let commit_backup_dir := path_join backup_dir commit_sha in
      makedirs env commit_backup_dir;;
      mret commit_backup_dir
  end.

(** [logger.exception(f"Error backing up commit {commit_sha}: {str(e)}")] *)
Definition log_commit_error (commit_sha : string) (e : exn) : M unit :=
  emit (ALogException
          ("Error backing up commit " +:+ commit_sha +:+ ": " +:+ str e)).

(** ** Stage B: the cooperative scheduler

    [asyncio.gather] wraps every coroutine in a task.  A commit task is the
    [k]-th entry of the ChangedFileMap; a file task [(k, i)] is the [i]-th
    file of that entry.  A file task gives up control at each of its
    awaits.  [unit_done] takes a file task from its start to its end in
    one piece, and the order of these completions is the schedule;
    [unit_step], further down, resumes a task await by await, and the
    completions, the failure list and the exception that ends the run
    are the same either way.  [gather] without [return_exceptions] hands
    the first exception to the awaiting commit task at once and leaves
    the other file tasks running, un-awaited. *)
Abbreviation task_id := (nat * nat)%type.

Definition task_unit (cmap : ChangedFileMap) (t : task_id)
    : option (string * string) :=
  match cmap !! t.1 with
  | Some (sha, files) =>
      match files !! t.2 with
      | Some file => Some (sha, file)
      | None => None
      end
  | None => None
  end.

Record StageB : Type := mkStageB {
  sb_world : World;
  (* commit tasks whose setup succeeded: their file tasks exist *)
  sb_dispatched : list nat;
  (* commit tasks that have returned or raised *)
  sb_finished : list nat;
  (* file tasks that have completed *)
  sb_done : list task_id;
  (* the first exception that left a commit task *)
  sb_escaped : option exn
}.

Definition note_escape (old : option exn) (e : exn) : option exn :=
  match old with
  | Some e0 => Some e0
  | None => Some e
  end.

(** First step of the [k]-th commit task, up to its [await]. *)
Definition start_commit (env : Env) (backup_dir : string) (s : StageB)
    (k : nat) (entry : string * list string) : StageB :=
  let '(commit_sha, files) := entry in
  match commit_setup env backup_dir commit_sha (sb_world s) with
  | (w', Returns _) =>
      mkStageB w' (sb_dispatched s ++ [k])
        (match files with
         | [] => sb_finished s ++ [k]
         | _ => sb_finished s
         end)
        (sb_done s) (sb_escaped s)
  | (w', Raises (BackupError m)) =>
      mkStageB (log_commit_error commit_sha (BackupError m) w').1
        (sb_dispatched s) (sb_finished s ++ [k]) (sb_done s) (sb_escaped s)
  | (w', Raises e) =>
      mkStageB w' (sb_dispatched s) (sb_finished s ++ [k]) (sb_done s)
        (note_escape (sb_escaped s) e)
  end.

Fixpoint start_commits (env : Env) (backup_dir : string) (s : StageB)
    (k : nat) (entries : ChangedFileMap) : StageB :=
  match entries with
  | [] => s
  | entry :: rest =>
      start_commits env backup_dir (start_commit env backup_dir s k entry)
        (S k) rest
  end.

Definition member {A} `{EqDecision A} (x : A) (l : list A) : bool :=
  bool_decide (x ∈ l).

(** Have all file tasks of commit [k] completed? *)
Definition commit_complete (cmap : ChangedFileMap) (done : list task_id)
    (k : nat) : bool :=
  match cmap !! k with
  | Some (_, files) =>
      forallb (fun i => member (k, i) done) (seq 0 (length files))
  | None => true
  end.

(** Completion of file task [t] in one piece: its [process_file] runs
    from the start to the end with no other task resumed in between.  A
    raised exception reaches the commit task only if that task is still
    awaiting, and a normal return wakes it once every sibling is done. *)
Definition unit_done (env : Env) (backup_dir : string)
    (cmap : ChangedFileMap) (s : StageB) (t : task_id) : StageB :=
  match task_unit cmap t with
  | None => s
  | Some (sha, file) =>
      if negb (member t.1 (sb_dispatched s)) || member t (sb_done s) then s
      else
        let done' := sb_done s ++ [t] in
        match process_file env sha file (path_join backup_dir sha)
                (sb_world s) with
        | (w', Returns _) =>
            mkStageB w' (sb_dispatched s)
              (if negb (member t.1 (sb_finished s))
                  && commit_complete cmap done' t.1
               then sb_finished s ++ [t.1] else sb_finished s)
              done' (sb_escaped s)
        | (w', Raises e) =>
            if member t.1 (sb_finished s) then
              mkStageB w' (sb_dispatched s) (sb_finished s) done'
                (sb_escaped s)
            else
              match e with
              | BackupError _ =>
                  mkStageB (log_commit_error sha e w').1 (sb_dispatched s)
                    (sb_finished s ++ [t.1]) done' (sb_escaped s)
              | _ =>
                  mkStageB w' (sb_dispatched s) (sb_finished s ++ [t.1])
                    done' (note_escape (sb_escaped s) e)
              end
        end
  end.

Definition stageB_init (w : World) : StageB := mkStageB w [] [] [] None.

(** Stage B under a schedule: all commit tasks take their first step in
    map order, then file tasks complete in schedule order. *)
Definition run_stageB (env : Env) (backup_dir : string)
    (cmap : ChangedFileMap) (sched : list task_id) (w : World) : StageB :=
  foldl (unit_done env backup_dir cmap)
    (start_commits env backup_dir (stageB_init w) 0 cmap) sched.

(** The outer [gather] is over: every commit task has finished, or an
    exception has left one of them. *)
Definition stageB_over (cmap : ChangedFileMap) (s : StageB) : bool :=
  match sb_escaped s with
  | Some _ => true
  | None => forallb (fun k => member k (sb_finished s)) (seq 0 (length cmap))
  end.

(** A schedule the event loop can produce: each completion is that of an
    existing, dispatched task, none completes twice, and the run does not
    end before the outer [gather] is over. *)
Definition admissible (env : Env) (backup_dir : string)
    (cmap : ChangedFileMap) (sched : list task_id) (w : World) : Prop :=
  NoDup sched
  ∧ (∀ t, t ∈ sched →
       is_Some (task_unit cmap t)
       ∧ t.1 ∈ sb_dispatched
                 (start_commits env backup_dir (stageB_init w) 0 cmap))
  ∧ stageB_over cmap (run_stageB env backup_dir cmap sched w) = true.

(** ** Stage A: the diff extractor and [backup_files] *)

Definition retrieval_marker : string := "Files could not be retrieved".

(** [get_changed_files((repo, commit_sha))] *)
Definition get_changed_files (env : Env) (commit_sha : string)
    : outcome (string * list string) :=
  match show_names env commit_sha with
  | Returns lines => Returns (commit_sha, lines)
  | Raises e => Raises e
  end.

(** Body of the [for future in as_completed(...)] loop for the future of
    [commit_sha]. *)
Definition collect_result (env : Env) (acc : ChangedFileMap * World)
    (commit_sha : string) : ChangedFileMap * World :=
  match get_changed_files env commit_sha with
  | Returns result => (dict_set acc.1 result.1 result.2, acc.2)
  | Raises e =>
      (acc.1,
       ((append_failure commit_sha retrieval_marker;;
         emit (ALogException
                 ("An error occurred while retrieving files for commit "
                  +:+ commit_sha +:+ ": " +:+ str e))) acc.2).1)
  end.

(** The loop over the futures, in the order [completed] in which they
    finish. *)
Definition extract_changed_files (env : Env) (completed : list string)
    (w : World) : ChangedFileMap * World :=
  foldl (collect_result env) ([], w) completed.

(** The order in which the pool finishes the submitted commits, given as
    positions in the submitted list. *)
Definition completion_order (commit_shas : list Commit) (perm : list nat)
    : list string :=
  omap (fun i => hexsha <$> commit_shas !! i) perm.

Definition backup_files (env : Env) (backup_dir current_branch : string)
    (start_date end_date : option string)
    (perm : list nat) (sched : list task_id) : M unit :=
  fun w =>
    match get_commits env current_branch start_date end_date with
    | Raises e => raise e w
    | Returns commit_shas =>
        let '(commit_files, w1) :=
          extract_changed_files env (completion_order commit_shas perm) w in
        let s := run_stageB env backup_dir commit_files sched w1 in
        match sb_escaped s with
        | Some e => (sb_world s, Raises e)
        | None => (sb_world s, Returns tt)
        end
    end.

(** ** Entry point: [validate] and [main] *)

Definition validate (env : Env) (repo_dir backup_dir : string)
    (start_date end_date : option string) : outcome unit :=
  if negb (path_exists env backup_dir) then
    Raises (ValidationError
              ("The backup folder '" +:+ backup_dir +:+ "' does not exist"))
  else if negb (path_exists env repo_dir) then
    Raises (ValidationError
              ("The repository directory '" +:+ repo_dir
               +:+ "' does not exist."))
  else
    match open_repo env repo_dir with
    | Some (InvalidGitRepositoryError _) =>
        Raises (ValidationError
                  ("The directory '" +:+ repo_dir
                   +:+ "' is not a valid Git repository."))
    | Some e => Raises e
    | None =>
        match parse_bound env start_date with
        | Raises e => Raises e
        | Returns start_obj =>
            if before_start start_obj (now env) then
              Raises (ValidationError
                        ("The start date '" +:+ default "" start_date
                         +:+ "' is later than today's date"))
            else
              match parse_bound env end_date with
              | Raises e => Raises e
              | Returns end_obj =>
                  match start_obj, end_obj with
                  | Some s, Some e =>
                      if s >? e then
                        Raises (ValidationError
                                  ("The start date '"
                                   +:+ default "" start_date
                                   +:+ "' is after the end date '"
                                   +:+ default "" end_date +:+ "'."))
                      else Returns tt
                  | _, _ => Returns tt
                  end
              end
        end
    end.

(** How the process ends: [sys.exit(1)], or a normal return. *)
Inductive exit_status : Type :=
| ExitSuccess
| ExitFailure.

(** A run starts with an empty failure list on the backup tree found. *)
Definition fresh_run (tree : World) : World :=
  mkWorld (w_dirs tree) (w_files tree) [] [].

Definition main (env : Env) (repo_dir backup_dir : string)
    (start_date end_date : option string)
    (perm : list nat) (sched : list task_id) (tree : World)
    : World * exit_status :=
  let w := fresh_run tree in
  match validate env repo_dir backup_dir start_date end_date with
  | Raises _ => (w, ExitFailure)
  | Returns _ =>
      match open_repo env repo_dir, active_branch env with
      | None, Returns current_branch =>
          match backup_files env backup_dir current_branch
                  start_date end_date perm sched w with
          | (w', Raises _) => (w', ExitFailure)
          | (w', Returns _) =>
              match failed_files w' with
              | [] => (w', ExitSuccess)
              | _ :: _ => (w', ExitFailure)
              end
          end
      | _, _ => (w, ExitFailure)
      end
  end.

(** ** What the environment holds for a file unit *)

(** Does the handler of [process_file] take the exception for the report
    that the file is absent at the commit? *)
Definition is_deletion (e : exn) : bool :=
  match e with
  | GitCommandError m => contains deletion_marker m
  | _ => false
  end.

Definition dest_path (backup_dir sha file : string) : string :=
  path_join (path_join backup_dir sha) file.

(** The exception the [try] block of [process_file] meets, if any. *)
Definition unit_exception (env : Env) (commit_backup_dir sha file : string)
    : option exn :=
  match show_file env sha file with
  | Raises e => Some e
  | Returns content =>
      let file_path := path_join commit_backup_dir file in
      if String.eqb (dirname file_path) "" then
        Some (OSError "No such file or directory: ''")
      else
        match makedirs_fault env (dirname file_path) with
        | Some e => Some e
        | None =>
            match write_fault env file_path content with
            | Some (OpenFails e) => Some e
            | Some (WriteFails _ e) => Some e
            | None => None
            end
        end
  end.

(** A hard failure: the unit meets an exception that is not a deletion
    report. *)
Definition hard_failure (env : Env) (commit_backup_dir sha file : string)
    : bool :=
  match unit_exception env commit_backup_dir sha file with
  | Some e => negb (is_deletion e)
  | None => false
  end.

(** What the unit leaves at its destination, if it gets to open it: the
    path and the data. *)
Definition unit_write (env : Env) (commit_backup_dir sha file : string)
    : option (string * string) :=
  match show_file env sha file with
  | Raises _ => None
  | Returns content =>
      let file_path := path_join commit_backup_dir file in
      if String.eqb (dirname file_path) "" then None
      else
        match makedirs_fault env (dirname file_path) with
        | Some _ => None
        | None =>
            match write_fault env file_path content with
            | Some (OpenFails _) => None
            | Some (WriteFails written _) =>
                Some (file_path, take_string written content)
            | None => Some (file_path, content)
            end
        end
  end.

(** The directory the unit creates, with its parents, if it gets there. *)
Definition unit_mkdir (env : Env) (commit_backup_dir sha file : string)
    : option string :=
  match show_file env sha file with
  | Raises _ => None
  | Returns _ =>
      let d := dirname (path_join commit_backup_dir file) in
      if String.eqb d "" then None
      else
        match makedirs_fault env d with
        | Some _ => None
        | None => Some d
        end
  end.

(** Does the first step of a commit task get through [repo.commit] and
    the creation of the commit's directory? *)
Definition setup_succeeds (env : Env) (backup_dir commit_sha : string)
    : bool :=
  match repo_commit env commit_sha with
  | Some _ => false
  | None =>
      negb (String.eqb (path_join backup_dir commit_sha) "")
      && match makedirs_fault env (path_join backup_dir commit_sha) with
         | Some _ => false
         | None => true
         end
  end.

(** Is the completion of file task [t] an event of state [s]: the task
    exists, was dispatched and has not completed yet? *)
Definition fires (cmap : ChangedFileMap) (s : StageB) (t : task_id) : bool :=
  match task_unit cmap t with
  | Some _ => member t.1 (sb_dispatched s) && negb (member t (sb_done s))
  | None => false
  end.

(** ** The file unit between its awaits

    [process_file] gives up control four times, each time for a job it
    hands to the executor: [repo.git.show], the opening of the
    destination, the write, and the close on leaving [async with].  A
    phase names the job that is outstanding.  A resumption is the
    completion of that job followed by the code of the coroutine up to
    the next job it hands over; in between the other tasks run, and the
    run can end with the task in any phase. *)
Inductive phase : Type :=
| Fetching
| Opening (file_content : string)
| Writing (file_content : string)
| Closing (raised : option exn).

(** The [except] clauses of [process_file]. *)
Definition on_failure (sha file : string) (e : exn) : M unit :=
  match e with
  | GitCommandError _ =>
      if contains deletion_marker (str e) then
        emit (ALogWarning
                ("The file " +:+ file +:+ " was deleted in commit "
                 +:+ sha))
      else
        append_failure sha file;;
        raise (backup_error file e)
  | _ =>
      append_failure sha file;;
      raise (backup_error file e)
  end.

(** One resumption of the file task: the code of [process_file] from the
    await it is suspended at up to the next one.  The task yields the
    await it reaches, or [None] when the coroutine returns; an exception
    met on the way goes through the [except] clauses.  An exception of
    the write leaves [async with] through the close. *)
Definition resume (env : Env) (sha file commit_backup_dir : string)
    (p : phase) : M (option phase) :=
  let file_path := path_join commit_backup_dir file in
  match p with
  | Fetching =>
      try_except
        (file_content ← read_file_content env sha file;
         makedirs env (dirname file_path);;
         mret (Some (Opening file_content)))
        (fun e => on_failure sha file e;; mret None)
  | Opening file_content =>
      match write_fault env file_path file_content with
      | Some (OpenFails e) =>
          try_except (raise e) (fun e => on_failure sha file e;; mret None)
      | _ =>
          emit (AOpen file_path);;
          set_file file_path "";;
          mret (Some (Writing file_content))
      end
  | Writing file_content =>
      match write_fault env file_path file_content with
      | Some (WriteFails written e) =>
          set_file file_path (take_string written file_content);;
          mret (Some (Closing (Some e)))
      | _ =>
          set_file file_path file_content;;
          emit (AWrite file_path file_content);;
          mret (Some (Closing None))
      end
  | Closing raised =>
      match raised with
      | Some e =>
          try_except (raise e) (fun e => on_failure sha file e;; mret None)
      | None => mret None
      end
  end.

(** How far a file task has got: suspended at an await, or completed with
    the outcome of the coroutine. *)
Inductive progress : Type :=
| Suspended (p : phase)
| Completed (r : outcome unit).

(** The file task resumed [n] times from phase [p]. *)
Fixpoint slices (env : Env) (sha file commit_backup_dir : string)
    (n : nat) (p : phase) (w : World) : World * progress :=
  match n with
  | O => (w, Suspended p)
  | S n' =>
      match resume env sha file commit_backup_dir p w with
      | (w', Returns (Some p')) =>
          slices env sha file commit_backup_dir n' p' w'
      | (w', Returns None) => (w', Completed (Returns tt))
      | (w', Raises e) => (w', Completed (Raises e))
      end
  end.

(** ** Stage B, resumption by resumption *)

(** The scheduler state with the await each started file task is
    suspended at; a task without an entry has not been resumed yet and is
    fetching. *)
Record Loop : Type := mkLoop {
  lp_stage : StageB;
  lp_phase : gmap task_id phase
}.

(** What the completion of file task [t] with result [res] does to the
    commit task awaiting it: as in [unit_done]. *)
Definition task_completes (cmap : ChangedFileMap) (s : StageB) (t : task_id)
    (sha : string) (res : World * outcome unit) : StageB :=
  let done' := sb_done s ++ [t] in
  match res with
  | (w', Returns _) =>
      mkStageB w' (sb_dispatched s)
        (if negb (member t.1 (sb_finished s))
            && commit_complete cmap done' t.1
         then sb_finished s ++ [t.1] else sb_finished s)
        done' (sb_escaped s)
  | (w', Raises e) =>
      if member t.1 (sb_finished s) then
        mkStageB w' (sb_dispatched s) (sb_finished s) done' (sb_escaped s)
      else
        match e with
        | BackupError _ =>
            mkStageB (log_commit_error sha e w').1 (sb_dispatched s)
              (sb_finished s ++ [t.1]) done' (sb_escaped s)
        | _ =>
            mkStageB w' (sb_dispatched s) (sb_finished s ++ [t.1])
              done' (note_escape (sb_escaped s) e)
        end
  end.

(** The event loop resumes file task [t] once. *)
Definition unit_step (env : Env) (backup_dir : string)
    (cmap : ChangedFileMap) (l : Loop) (t : task_id) : Loop :=
  match task_unit cmap t with
  | None => l
  | Some (sha, file) =>
      let s := lp_stage l in
      if negb (member t.1 (sb_dispatched s)) || member t (sb_done s) then l
      else
        match resume env sha file (path_join backup_dir sha)
                (default Fetching (lp_phase l !! t)) (sb_world s) with
        | (w', Returns (Some p')) =>
            mkLoop
              (mkStageB w' (sb_dispatched s) (sb_finished s) (sb_done s)
                 (sb_escaped s))
              (<[t := p']> (lp_phase l))
        | (w', Returns None) =>
            mkLoop (task_completes cmap s t sha (w', Returns tt))
              (lp_phase l)
        | (w', Raises e) =>
            mkLoop (task_completes cmap s t sha (w', Raises e)) (lp_phase l)
        end
  end.

Definition loop_init (env : Env) (backup_dir : string)
    (cmap : ChangedFileMap) (w : World) : Loop :=
  mkLoop (start_commits env backup_dir (stageB_init w) 0 cmap) ∅.

(** Stage B under a sequence of resumptions: all commit tasks take their
    first step in map order, then the file tasks are resumed in the order
    [steps]. *)
Definition run_steps (env : Env) (backup_dir : string)
    (cmap : ChangedFileMap) (steps : list task_id) (w : World) : Loop :=
  foldl (unit_step env backup_dir cmap) (loop_init env backup_dir cmap w)
    steps.

(** A sequence of resumptions the event loop can produce: each one resumes
    an existing, dispatched task that has not completed, and the run does
    not end before the outer [gather] is over. *)
Definition steps_admissible (env : Env) (backup_dir : string)
    (cmap : ChangedFileMap) (steps : list task_id) (w : World) : Prop :=
  (forall before t after,
     steps = before ++ t :: after ->
     fires cmap (lp_stage (run_steps env backup_dir cmap before w)) t = true)
  /\ stageB_over cmap (lp_stage (run_steps env backup_dir cmap steps w))
     = true.

(** A file task that completes in one piece: its four resumptions follow
    each other. *)
Definition in_one_piece (sched : list task_id) : list task_id :=
  t ← sched; replicate 4 t.

(** The await a file task is suspended at agrees with what the
    environment holds for its unit: the content is the one fetched, the
    directory was created, and the destination was opened or written as
    the phase says. *)
Definition phase_ok (env : Env) (commit_backup_dir sha file : string)
    (p : phase) : Prop :=
  let file_path := path_join commit_backup_dir file in
  match p with
  | Fetching => True
  | Opening c =>
      show_file env sha file = Returns c
      /\ unit_mkdir env commit_backup_dir sha file = Some (dirname file_path)
  | Writing c =>
      show_file env sha file = Returns c
      /\ unit_mkdir env commit_backup_dir sha file = Some (dirname file_path)
      /\ forall e, write_fault env file_path c <> Some (OpenFails e)
  | Closing None =>
      exists c,
        show_file env sha file = Returns c
        /\ unit_mkdir env commit_backup_dir sha file
           = Some (dirname file_path)
        /\ (forall e, write_fault env file_path c <> Some (OpenFails e))
        /\ (forall n e, write_fault env file_path c <> Some (WriteFails n e))
  | Closing (Some e) =>
      exists c n,
        show_file env sha file = Returns c
        /\ unit_mkdir env commit_backup_dir sha file
           = Some (dirname file_path)
        /\ write_fault env file_path c = Some (WriteFails n e)
  end.

Definition phases_ok (env : Env) (backup_dir : string)
    (cmap : ChangedFileMap) (l : Loop) : Prop :=
  forall t p, lp_phase l !! t = Some p ->
    exists sha file,
      task_unit cmap t = Some (sha, file)
      /\ phase_ok env (path_join backup_dir sha) sha file p.


(** The backup tree: directories and files. *)
Definition tree (w : World) : gset string * gmap string string :=
  (w_dirs w, w_files w).

(** ** Well-formed names *)

(** A commit identifier is a non-empty name without a separator, as every
    hexadecimal hash is. *)
Definition sha_ok (sha : string) : bool :=
  negb (String.eqb sha "") && negb (has_slash sha).

(** A changed file is named relative to the repository root. *)
Definition relative (file : string) : bool := negb (starts_with_slash file).

(** What [path_join backup_dir] puts in front of a relative name. *)
Definition join_prefix (backup_dir : string) : string :=
  if String.eqb backup_dir "" || ends_with_slash backup_dir then backup_dir
  else backup_dir +:+ "/".

(** ** Runs without hard failure *)

(** A unit that goes through: its fetch yields content that is then
    written in full, or reports the deletion of the file. *)
Definition unit_clean (env : Env) (commit_backup_dir sha file : string)
    : bool :=
  match show_file env sha file with
  | Raises e => is_deletion e
  | Returns _ =>
      match unit_exception env commit_backup_dir sha file with
      | None => true
      | Some _ => false
      end
  end.

(** What file task [t] leaves at its destination, and the directory it
    creates. *)
Definition task_write (env : Env) (backup_dir : string)
    (cmap : ChangedFileMap) (t : task_id) : option (string * string) :=
  match task_unit cmap t with
  | Some (sha, file) => unit_write env (path_join backup_dir sha) sha file
  | None => None
  end.

Definition task_mkdir (env : Env) (backup_dir : string)
    (cmap : ChangedFileMap) (t : task_id) : option string :=
  match task_unit cmap t with
  | Some (sha, file) => unit_mkdir env (path_join backup_dir sha) sha file
  | None => None
  end.

(** The two orders a run of [backup_files] depends on are ones the
    executors can produce: the pool hands back every submitted commit
    once, and the schedule of Stage B is admissible. *)
Definition run_admissible (env : Env) (backup_dir branch : string)
    (start_date end_date : option string)
    (perm : list nat) (sched : list task_id) (w : World) : Prop :=
  match get_commits env branch start_date end_date with
  | Returns commits =>
      perm ≡ₚ seq 0 (length commits)
      /\ admissible env backup_dir
           (extract_changed_files env (completion_order commits perm) w).1
           sched
           (extract_changed_files env (completion_order commits perm) w).2
  | Raises _ => True
  end.

(** The BackupUnits and the commits of a run: [file] is listed among the
    changed files of the selected commit [sha]. *)
Definition repo_unit (env : Env) (commits : list Commit) (sha file : string)
    : Prop :=
  exists c files,
    c ∈ commits /\ hexsha c = sha /\ show_names env sha = Returns files
    /\ file ∈ files.

Definition repo_entry (env : Env) (commits : list Commit) (sha : string)
    : Prop :=
  exists c files,
    c ∈ commits /\ hexsha c = sha /\ show_names env sha = Returns files.

(** ** Rules as the specification words them *)

(** "At run end, non-empty means overall failure; empty means overall
    success", read as an equivalence over every run. *)
Definition spec_exit_rule (env : Env) (repo_dir backup_dir : string)
    (start_date end_date : option string)
    (perm : list nat) (sched : list task_id) (tree0 : World) : Prop :=
  let '(w', status) :=
    main env repo_dir backup_dir start_date end_date perm sched tree0 in
  status = ExitFailure <-> failed_files w' <> [].


(** git words the absence of a path from a commit in two ways: "does not
    exist in" when the path is no file of the working tree either, and
    "exists on disk, but not in" when it is. *)
Definition on_disk_marker : string := "exists on disk, but not in".

(** "The underlying repository layer reports that the file does not exist
    at that commit": the exception of the fetch is git's report of the
    absence, in either wording. *)
Definition spec_reports_absent (e : exn) : bool :=
  match e with
  | GitCommandError m =>
      contains deletion_marker m || contains on_disk_marker m
  | _ => false
  end.

(** "The BackupUnit is simply abandoned without a write and without a
    FailureRecord": the unit returns normally and leaves the failure list
    and the tree as they were. *)
Definition spec_deletion_skip (env : Env) (sha file commit_backup_dir : string)
    (w : World) : Prop :=
  let '(w', r) := process_file env sha file commit_backup_dir w in
  r = Returns tt /\ failed_files w' = failed_files w /\ tree w' = tree w.

(** "Running the full pipeline twice over an identical commit set
    produces byte-identical backup trees": the second run, started on the
    tree the first one left, leaves that tree. *)
Definition spec_rerun_identical (env : Env) (backup_dir branch : string)
    (start_date end_date : option string)
    (perm1 : list nat) (sched1 : list task_id)
    (perm2 : list nat) (sched2 : list task_id) (w : World) : Prop :=
  let run1 :=
    backup_files env backup_dir branch start_date end_date perm1 sched1 w in
  let run2 :=
    backup_files env backup_dir branch start_date end_date perm2 sched2
      run1.1 in
  tree run2.1 = tree run1.1.

(** "No partially-written file is ever left in a state distinguishable
    from not yet written": a unit that raises leaves the files of the
    tree as they were. *)
Definition spec_write_atomic (env : Env) (sha file commit_backup_dir : string)
    (w : World) : Prop :=
  let '(w', r) := process_file env sha file commit_backup_dir w in
  match r with
  | Raises _ => w_files w' = w_files w
  | Returns _ => True
  end.

(** ** Environments for the examples *)

Definition digit_val (c : ascii) : option Z :=
  let n := Z.of_nat (nat_of_ascii c) in
  if (48 <=? n) && (n <=? 57) then Some (n - 48) else None.

Fixpoint digits_val (acc : Z) (s : string) : option Z :=
  match s with
  | EmptyString => Some acc
  | String c s' =>
      match digit_val c with
      | Some d => digits_val (10 * acc + d) s'
      | None => None
      end
  end.

(** Days from 1970-01-01 to the given civil date. *)
Definition days_from_civil (y m d : Z) : Z :=
  let y' := if m <=? 2 then y - 1 else y in
  let era := y' / 400 in
  let yoe := y' - era * 400 in
  let mp := (m + 9) mod 12 in
  let doy := (153 * mp + 2) / 5 + d - 1 in
  let doe := yoe * 365 + yoe / 4 - yoe / 100 + doy in
  era * 146097 + doe - 719468.

(** [strptime(s, '%d-%m-%Y')] on zero-padded dates [dd-mm-YYYY]: midnight
    of that day. *)
Definition strptime_padded (s : string) : option Z :=
  match s with
  | String d1 (String d2 (String "-" (String m1 (String m2
      (String "-" year))))) =>
      match digits_val 0 (String d1 (String d2 EmptyString)),
            digits_val 0 (String m1 (String m2 EmptyString)),
            digits_val 0 year with
      | Some d, Some m, Some y =>
          if (String.length year =? 4)%nat && (1 <=? d) && (d <=? 31)
             && (1 <=? m) && (m <=? 12)
          then Some (86400 * days_from_civil y m d)
          else None
      | _, _, _ => None
      end
  | _ => None
  end.

(** A repository in which every call succeeds and nothing changed. *)
Definition quiet_env : Env :=
  {| strptime := strptime_padded;
     fromtimestamp := fun t => t;
     fromtimestamp_fault := fun _ => None;
     now := 1700000000;
     path_exists := fun _ => true;
     open_repo := fun _ => None;
     active_branch := Returns "main";
     iter_commits := fun _ => [];
     iter_commits_fault := fun _ => None;
     show_names := fun _ => Returns [];
     show_file := fun _ _ => Returns "";
     repo_commit := fun _ => None;
     makedirs_fault := fun _ => None;
     write_fault := fun _ _ => None |}.

Definition with_history (env : Env) (h : list Commit) : Env :=
  {| strptime := strptime env; fromtimestamp := fromtimestamp env;
     fromtimestamp_fault := fromtimestamp_fault env;
     now := now env; path_exists := path_exists env;
     open_repo := open_repo env; active_branch := active_branch env;
     iter_commits := fun _ => h;
     iter_commits_fault := iter_commits_fault env;
     show_names := show_names env; show_file := show_file env;
     repo_commit := repo_commit env; makedirs_fault := makedirs_fault env;
     write_fault := write_fault env |}.

Definition with_show_names (env : Env)
    (f : string -> outcome (list string)) : Env :=
  {| strptime := strptime env; fromtimestamp := fromtimestamp env;
     fromtimestamp_fault := fromtimestamp_fault env;
     now := now env; path_exists := path_exists env;
     open_repo := open_repo env; active_branch := active_branch env;
     iter_commits := iter_commits env;
     iter_commits_fault := iter_commits_fault env;
     show_names := f; show_file := show_file env;
     repo_commit := repo_commit env; makedirs_fault := makedirs_fault env;
     write_fault := write_fault env |}.

Definition with_show_file (env : Env)
    (f : string -> string -> outcome string) : Env :=
  {| strptime := strptime env; fromtimestamp := fromtimestamp env;
     fromtimestamp_fault := fromtimestamp_fault env;
     now := now env; path_exists := path_exists env;
     open_repo := open_repo env; active_branch := active_branch env;
     iter_commits := iter_commits env;
     iter_commits_fault := iter_commits_fault env;
     show_names := show_names env; show_file := f;
     repo_commit := repo_commit env; makedirs_fault := makedirs_fault env;
     write_fault := write_fault env |}.

Definition with_makedirs_fault (env : Env) (f : string -> option exn) : Env :=
  {| strptime := strptime env; fromtimestamp := fromtimestamp env;
     fromtimestamp_fault := fromtimestamp_fault env;
     now := now env; path_exists := path_exists env;
     open_repo := open_repo env; active_branch := active_branch env;
     iter_commits := iter_commits env;
     iter_commits_fault := iter_commits_fault env;
     show_names := show_names env; show_file := show_file env;
     repo_commit := repo_commit env; makedirs_fault := f;
     write_fault := write_fault env |}.

Definition with_write_fault (env : Env)
    (f : string -> string -> option write_failure) : Env :=
  {| strptime := strptime env; fromtimestamp := fromtimestamp env;
     fromtimestamp_fault := fromtimestamp_fault env;
     now := now env; path_exists := path_exists env;
     open_repo := open_repo env; active_branch := active_branch env;
     iter_commits := iter_commits env;
     iter_commits_fault := iter_commits_fault env;
     show_names := show_names env; show_file := show_file env;
     repo_commit := repo_commit env; makedirs_fault := makedirs_fault env;
     write_fault := f |}.

(** The history of test_get_commits: the first day of January to May
    2023, at midnight. *)
Definition monthly_history : list Commit :=
  [ mkCommit "c1" 1672531200; mkCommit "c2" 1675209600;
    mkCommit "c3" 1677628800; mkCommit "c4" 1680307200;
    mkCommit "c5" 1682899200 ].

Definition monthly_env : Env := with_history quiet_env monthly_history.

(** A history whose second commit is dated 1 January 10000, a time
    [datetime.fromtimestamp] rejects. *)
Definition far_future_env : Env :=
  {| strptime := strptime_padded;
     fromtimestamp := fun t => t;
     fromtimestamp_fault :=
       fun t => if 253402300800 <=? t
                then Some (ValueError "year 10000 is out of range") else None;
     now := 1700000000;
     path_exists := fun _ => true;
     open_repo := fun _ => None;
     active_branch := Returns "main";
     iter_commits :=
       fun _ => [ mkCommit "c1" 1672531200; mkCommit "c2" 253402300800 ];
     iter_commits_fault := fun _ => None;
     show_names := fun _ => Returns [];
     show_file := fun _ _ => Returns "";
     repo_commit := fun _ => None;
     makedirs_fault := fun _ => None;
     write_fault := fun _ _ => None |}.

(** A repository whose branch has no commit yet: git yields nothing and
    fails. *)
Definition unborn_env : Env :=
  {| strptime := strptime_padded;
     fromtimestamp := fun t => t;
     fromtimestamp_fault := fun _ => None;
     now := 1700000000;
     path_exists := fun _ => true;
     open_repo := fun _ => None;
     active_branch := Returns "main";
     iter_commits := fun _ => [];
     iter_commits_fault :=
       fun _ => Some (GitCommandError "fatal: bad revision 'main'");
     show_names := fun _ => Returns [];
     show_file := fun _ _ => Returns "";
     repo_commit := fun _ => None;
     makedirs_fault := fun _ => None;
     write_fault := fun _ _ => None |}.

(** A history with one commit made at noon on 1 March 2023. *)
Definition noon_commit : Commit := mkCommit "c3" (1677628800 + 43200).

Definition noon_env : Env := with_history quiet_env [noon_commit].

Definition deleted_env : Env :=
  with_show_file quiet_env
    (fun _ _ => Raises (GitCommandError
                          "fatal: path 'test.txt' does not exist in 'abc123'")).

(** The file was deleted at the commit and is a file of the working tree
    again. *)
Definition restored_env : Env :=
  with_show_file quiet_env
    (fun _ _ =>
       Raises (GitCommandError
                 "fatal: path 'test.txt' exists on disk, but not in 'abc123'")).

Definition broken_env : Env :=
  with_show_file quiet_env (fun _ _ => Raises (BackupError "")).

(** A repository of two commits: [c1] touched two files, [c2] one, and
    every file reads as ["data"]. *)
Definition two_commits : list Commit :=
  [ mkCommit "c1" 1672531200; mkCommit "c2" 1675209600 ].

Definition two_names (sha : string) : outcome (list string) :=
  if String.eqb sha "c1" then Returns ["a.txt"; "b.txt"]
  else Returns ["a.txt"].

Definition healthy_env : Env :=
  with_show_file
    (with_show_names (with_history quiet_env two_commits) two_names)
    (fun _ _ => Returns "data").

Definition unreadable : exn := GitCommandError "fatal: unable to read tree".


(** The same repository, where the extraction task of [c2] breaks. *)
Definition half_env : Env :=
  with_show_names healthy_env
    (fun sha =>
       if String.eqb sha "c2" then Raises (OtherException "BrokenProcessPool")
       else two_names sha).

(** One commit with three files, of which only [c.txt] can be read. *)
Definition flaky_env : Env :=
  with_show_file
    (with_show_names (with_history quiet_env [mkCommit "c1" 1672531200])
       (fun _ => Returns ["a.txt"; "b.txt"; "c.txt"]))
    (fun _ file =>
       if String.eqb file "c.txt" then Returns "data" else Raises unreadable).

(** The healthy repository with a backup folder that cannot be written. *)
Definition readonly_env : Env :=
  with_makedirs_fault healthy_env
    (fun _ => Some (OSError "[Errno 13] Permission denied")).

(** The healthy repository where the directory of [c1] cannot be
    created: a regular file of that name is in the way. *)
Definition blocked_env : Env :=
  with_makedirs_fault healthy_env
    (fun path =>
       if String.eqb path "data/c1"
       then Some (OSError "[Errno 17] File exists: 'data/c1'") else None).

(** The healthy repository with a full disk: the destination opens, the
    write then fails. *)
Definition disk_full_env : Env :=
  with_write_fault healthy_env
    (fun _ _ => Some (WriteFails 0
                        (OSError "[Errno 28] No space left on device"))).

(** ** The text the diff extractor splits: [str.splitlines]

    A string stands for a Python [str] whose code points are below 256;
    over these, the line boundaries of [splitlines] are the characters
    LF, CR (CR LF counting as one boundary), VT, FF, FS, GS, RS and NEL. *)
Definition is_line_break (c : ascii) : bool :=
  let n := nat_of_ascii c in
  Nat.eqb n 10 || Nat.eqb n 13 || Nat.eqb n 11 || Nat.eqb n 12
  || Nat.eqb n 28 || Nat.eqb n 29 || Nat.eqb n 30 || Nat.eqb n 133.

Definition LF : ascii := "010"%char.
Definition CR : ascii := "013"%char.

(** [splitlines] with the line read so far: a boundary ends the line, the
    end of the text ends a non-empty last line. *)
Fixpoint splitlines_from (line s : string) : list string :=
  match s with
  | EmptyString => if String.eqb line "" then [] else [line]
  | String c s' =>
      if is_line_break c then
        line
        :: (if Ascii.eqb c CR then
              match s' with
              | String c2 s2 =>
                  if Ascii.eqb c2 LF then splitlines_from "" s2
                  else splitlines_from "" s'
              | EmptyString => splitlines_from "" s'
              end
            else splitlines_from "" s')
      else splitlines_from (line +:+ String c "") s'
  end.

Definition splitlines (s : string) : list string := splitlines_from "" s.

(** The names of a name-only diff as git prints them: one per line. *)
Definition newline : string := String LF "".

Definition join_lines (names : list string) : string :=
  String.concat newline names.

(** A name that holds no line boundary. *)
Fixpoint break_free (s : string) : bool :=
  match s with
  | EmptyString => true
  | String c s' => negb (is_line_break c) && break_free s'
  end.

(** An environment whose diff extractor splits the raw output of
    [repo.git.show('--pretty=', '--name-only', sha)]. *)
Definition split_output (o : outcome string) : outcome (list string) :=
  match o with
  | Returns out => Returns (splitlines out)
  | Raises e => Raises e
  end.

Definition with_raw_names (env : Env) (show : string -> outcome string)
    : Env :=
  with_show_names env (fun sha => split_output (show sha)).

(** The records Stage A and Stage B leave, as functions of what
    completed. *)
Definition extraction_records (env : Env) (completed : list string)
    : list (string * string) :=
  omap (fun sha => match show_names env sha with
                   | Raises _ => Some (sha, retrieval_marker)
                   | Returns _ => None
                   end) completed.

Definition unit_records (env : Env) (backup_dir : string)
    (cmap : ChangedFileMap) (done : list task_id) : list (string * string) :=
  omap (fun t =>
          match task_unit cmap t with
          | Some (sha, file) =>
              if hard_failure env (path_join backup_dir sha) sha file
              then Some (sha, file) else None
          | None => None
          end) done.

(** The entries Stage A collects, in completion order. *)
Definition extracted_entries (env : Env) (completed : list string)
    : ChangedFileMap :=
  omap (fun sha => match show_names env sha with
                   | Returns files => Some (sha, files)
                   | Raises _ => None
                   end) completed.

(** The test output of test_get_changed_files. *)
Definition two_line_output : string := join_lines ["file1.txt"; "file2.txt"].

(** * Properties *)

(** ** Unfolding the monad *)

Ltac run_M :=
  unfold process_file, commit_setup, try_except, read_file_content,
    write_file_content, makedirs, log_commit_error, lift_outcome, set_file,
    append_failure, raise, emit, mbind, mret, M_bind, M_ret in *;
  simpl in *.

(** ** Commit selector *)

Lemma select_loop_filter env start_obj end_obj history commits :
  select_loop env start_obj end_obj history commits
  = match conversion_fault env history with
    | Some e => Raises e
    | None =>
        Returns (commits
                 ++ List.filter (in_window env start_obj end_obj) history)
    end.
Proof.
  revert commits.
  induction history as [|c rest IH]; intros commits; simpl.
  - by rewrite app_nil_r.
  - destruct (fromtimestamp_fault env (committed_date c)); [done|].
    unfold in_window.
    destruct (before_start start_obj _); simpl; [apply IH|].
    destruct (after_end end_obj _); simpl; [apply IH|].
    rewrite IH. destruct (conversion_fault env rest); [done|].
    by rewrite <- app_assoc.
Qed.

Lemma in_window_unbounded env c : in_window env None None c = true.
Proof. reflexivity. Qed.

Lemma filter_all_true {A} (f : A -> bool) (l : list A) :
  (forall x, f x = true) -> List.filter f l = l.
Proof.
  intros H. induction l as [|x l IH]; simpl; [done|].
  by rewrite H, IH.
Qed.

Lemma parse_bound_none env d :
  truthy d = false -> parse_bound env d = Returns None.
Proof.
  destruct d as [s|]; simpl; [|done]. by intros ->.
Qed.

(** [get_commits] once the bounds parse: unless the call is the early
    return, the first commit time that cannot be converted raises; then
    a failure of git raises as the iteration ends; otherwise the commits
    of the history are returned, in history order, whose local commit time
    is no earlier than midnight of the start day and no later than
    midnight of the end day. *)
Lemma get_commits_outcome env branch start_date end_date start_obj end_obj :
  parse_bound env start_date = Returns start_obj ->
  parse_bound env end_date = Returns end_obj ->
  get_commits env branch start_date end_date
  = match (if unbounded start_date end_date then None
           else conversion_fault env (iter_commits env branch)) with
    | Some e => Raises e
    | None =>
        end_of_iteration env branch
          (List.filter (in_window env start_obj end_obj)
             (iter_commits env branch))
    end.
Proof.
  intros Hs He. unfold get_commits.
  destruct start_date as [s|], end_date as [e|];
    rewrite ?Hs, ?He, ?select_loop_filter; simpl;
    try by destruct (conversion_fault env (iter_commits env branch)).
  simpl in Hs, He. injection Hs as <-. injection He as <-.
  by rewrite filter_all_true.
Qed.

Lemma get_commits_filter env branch start_date end_date start_obj end_obj :
  parse_bound env start_date = Returns start_obj ->
  parse_bound env end_date = Returns end_obj ->
  iter_commits_fault env branch = None ->
  unbounded start_date end_date = true
  \/ conversion_fault env (iter_commits env branch) = None ->
  get_commits env branch start_date end_date
  = Returns (List.filter (in_window env start_obj end_obj)
               (iter_commits env branch)).
Proof.
  intros Hs He Hi Hc. rewrite (get_commits_outcome _ _ _ _ _ _ Hs He).
  unfold end_of_iteration. rewrite Hi.
  destruct Hc as [->| ->]; [done|]. by destruct (unbounded _ _).
Qed.

Lemma conversion_fault_none env history :
  conversion_fault env history = None
  <-> forall c, c ∈ history -> fromtimestamp_fault env (committed_date c) = None.
Proof.
  induction history as [|c rest IH]; simpl.
  - split; [|done]. intros _ c Hc. by apply elem_of_nil in Hc.
  - destruct (fromtimestamp_fault env (committed_date c)) eqn:Hf.
    + split; [done|]. intros H. specialize (H c (list_elem_of_here _ _)).
      congruence.
    + rewrite IH. split.
      * intros H c' Hc'. apply elem_of_cons in Hc' as [->|Hc']; auto.
      * intros H c' Hc'. apply H. by apply list_elem_of_further.
Qed.

(** The cases of test_get_commits. *)
Example test_get_commits_all :
  get_commits monthly_env "main" None None = Returns monthly_history.
Proof. reflexivity. Qed.

Example test_get_commits_start :
  get_commits monthly_env "main" (Some "01-03-2023") None
  = Returns (drop 2 monthly_history).
Proof. reflexivity. Qed.

Example test_get_commits_end :
  get_commits monthly_env "main" None (Some "01-03-2023")
  = Returns (take 3 monthly_history).
Proof. reflexivity. Qed.

Example test_get_commits_range :
  get_commits monthly_env "main" (Some "01-02-2023") (Some "01-04-2023")
  = Returns (take 3 (drop 1 monthly_history)).
Proof. reflexivity. Qed.

(** C2: the selector is meant to return the commits whose timestamp lies
    in the inclusive window of days.  A commit made at noon on the end day
    lies in that window, on the same calendar day as the bound, and the
    specified selection keeps it; [get_commits] compares with midnight of
    the end day and drops it. *)
Theorem get_commits_drops_end_day :
  strptime noon_env "01-03-2023" = Some 1677628800
  /\ day_of (fromtimestamp noon_env (committed_date noon_commit))
     = day_of 1677628800
  /\ spec_get_commits noon_env "main" None (Some 1677628800) = [noon_commit]
  /\ get_commits noon_env "main" None (Some "01-03-2023") = Returns [].
Proof. repeat split; reflexivity. Qed.

(** The start bound, by contrast, keeps the whole start day. *)
Example get_commits_keeps_start_day :
  get_commits noon_env "main" (Some "01-03-2023") None = Returns [noon_commit].
Proof. reflexivity. Qed.

(** ** File unit *)

Lemma process_file_result env sha file cbd w :
  (process_file env sha file cbd w).2
  = match unit_exception env cbd sha file with
    | None => Returns tt
    | Some e => if is_deletion e then Returns tt
                else Raises (backup_error file e)
    end.
Proof.
  unfold unit_exception, is_deletion. run_M.
  destruct (show_file env sha file) as [content|e]; simpl.
  - destruct (String.eqb (dirname (path_join cbd file)) ""); simpl; [done|].
    destruct (makedirs_fault env _) as [e|]; simpl.
    + destruct e; simpl; try done.
      by destruct (contains deletion_marker msg).
    + destruct (write_fault env _ content) as [[e|n e]|]; simpl; try done.
      * destruct e; simpl; try done.
        by destruct (contains deletion_marker msg).
      * destruct e; simpl; try done.
        by destruct (contains deletion_marker msg).
  - destruct e; simpl; try done.
    by destruct (contains deletion_marker msg).
Qed.

Lemma process_file_failed env sha file cbd w :
  failed_files (process_file env sha file cbd w).1
  = failed_files w
    ++ (if hard_failure env cbd sha file then [(sha, file)] else []).
Proof.
  unfold hard_failure, unit_exception, is_deletion. run_M.
  destruct (show_file env sha file) as [content|e]; simpl.
  - destruct (String.eqb (dirname (path_join cbd file)) ""); simpl; [done|].
    destruct (makedirs_fault env _) as [e|]; simpl.
    + destruct e; simpl; try done.
      destruct (contains deletion_marker msg); simpl; [|done].
      by rewrite app_nil_r.
    + destruct (write_fault env _ content) as [[e|n e]|]; simpl.
      * destruct e; simpl; try done.
        destruct (contains deletion_marker msg); simpl; [|done].
        by rewrite app_nil_r.
      * destruct e; simpl; try done.
        destruct (contains deletion_marker msg); simpl; [|done].
        by rewrite app_nil_r.
      * by rewrite app_nil_r.
  - destruct e; simpl; try done.
    destruct (contains deletion_marker msg); simpl; [|done].
    by rewrite app_nil_r.
Qed.

Lemma process_file_files env sha file cbd w :
  w_files (process_file env sha file cbd w).1
  = match unit_write env cbd sha file with
    | Some (p, c) => <[p := c]> (w_files w)
    | None => w_files w
    end.
Proof.
  unfold unit_write. run_M.
  destruct (show_file env sha file) as [content|e]; simpl.
  - destruct (String.eqb (dirname (path_join cbd file)) ""); simpl; [done|].
    destruct (makedirs_fault env _) as [e|]; simpl.
    + destruct e; simpl; try done.
      by destruct (contains deletion_marker msg).
    + destruct (write_fault env _ content) as [[e|n e]|]; simpl; try done.
      * destruct e; simpl; try done.
        by destruct (contains deletion_marker msg).
      * destruct e; simpl; try done.
        by destruct (contains deletion_marker msg).
  - destruct e; simpl; try done.
    by destruct (contains deletion_marker msg).
Qed.

Lemma process_file_dirs env sha file cbd w :
  w_dirs (process_file env sha file cbd w).1
  = match unit_mkdir env cbd sha file with
    | Some d => list_to_set (dir_chain d) ∪ w_dirs w
    | None => w_dirs w
    end.
Proof.
  unfold unit_mkdir. run_M.
  destruct (show_file env sha file) as [content|e]; simpl.
  - destruct (String.eqb (dirname (path_join cbd file)) ""); simpl; [done|].
    destruct (makedirs_fault env _) as [e|]; simpl.
    + destruct e; simpl; try done.
      by destruct (contains deletion_marker msg).
    + destruct (write_fault env _ content) as [[e|n e]|]; simpl; try done.
      * destruct e; simpl; try done.
        by destruct (contains deletion_marker msg).
      * destruct e; simpl; try done.
        by destruct (contains deletion_marker msg).
  - destruct e; simpl; try done.
    by destruct (contains deletion_marker msg).
Qed.

(** The trace only grows. *)
Lemma process_file_trace env sha file cbd w :
  exists new, w_trace (process_file env sha file cbd w).1 = w_trace w ++ new.
Proof.
  run_M.
  destruct (show_file env sha file) as [content|e]; simpl.
  - destruct (String.eqb (dirname (path_join cbd file)) ""); simpl.
    { rewrite <- !app_assoc. eauto. }
    destruct (makedirs_fault env _) as [e|]; simpl.
    + destruct e; simpl; try (rewrite <- !app_assoc; eauto).
      destruct (contains deletion_marker msg); simpl;
        rewrite <- !app_assoc; eauto.
    + destruct (write_fault env _ content) as [[e|n e]|]; simpl.
      * destruct e; simpl; try (rewrite <- !app_assoc; eauto).
        destruct (contains deletion_marker msg); simpl;
          rewrite <- !app_assoc; eauto.
      * destruct e; simpl; try (rewrite <- !app_assoc; eauto).
        destruct (contains deletion_marker msg); simpl;
          rewrite <- !app_assoc; eauto.
      * rewrite <- !app_assoc; eauto.
  - destruct e; simpl; try (rewrite <- !app_assoc; eauto).
    destruct (contains deletion_marker msg); simpl;
      rewrite <- !app_assoc; eauto.
Qed.

(** When the fetch of a file at a commit raises, [process_file] writes
    nothing and attempts no write (the tree is unchanged and the trace
    gains no directory creation, open or write).  If the exception is a
    GitCommandError whose text contains "does not exist in", the unit
    logs a warning, appends no FailureRecord and returns normally.  For
    any other exception of the fetch it appends exactly the record
    (commit identifier, file path) and raises. *)
Lemma process_file_fetch_failure env sha file commit_backup_dir w e :
  show_file env sha file = Raises e ->
  let '(w', r) := process_file env sha file commit_backup_dir w in
  tree w' = tree w
  /\ if is_deletion e then
       r = Returns tt
       /\ failed_files w' = failed_files w
       /\ w_trace w'
          = w_trace w
            ++ [AFetch sha file; ARaise e;
                ALogWarning ("The file " +:+ file
                             +:+ " was deleted in commit " +:+ sha)]
     else
       r = Raises (backup_error file e)
       /\ failed_files w' = failed_files w ++ [(sha, file)]
       /\ w_trace w'
          = w_trace w
            ++ [AFetch sha file; ARaise e; AAppendFailure sha file;
                ARaise (backup_error file e)].
Proof.
  intros Hfetch. unfold is_deletion, tree. run_M. rewrite Hfetch. simpl.
  destruct e; simpl; rewrite <- ?app_assoc; simpl; try done.
  destruct (contains deletion_marker msg); simpl;
    rewrite <- ?app_assoc; simpl; done.
Qed.

Example process_file_fetch_failure_deleted :
  show_file deleted_env "abc123" "test.txt"
  = Raises (GitCommandError
              "fatal: path 'test.txt' does not exist in 'abc123'")
  /\ let '(w', r) :=
       process_file deleted_env "abc123" "test.txt" "backup" empty_world in
     tree w' = tree empty_world
     /\ r = Returns tt
     /\ failed_files w' = []
     /\ w_trace w'
        = [AFetch "abc123" "test.txt";
           ARaise (GitCommandError
                     "fatal: path 'test.txt' does not exist in 'abc123'");
           ALogWarning "The file test.txt was deleted in commit abc123"].
Proof.
  split; [reflexivity|].
  exact (process_file_fetch_failure deleted_env "abc123" "test.txt" "backup"
           empty_world _ eq_refl).
Qed.

(** The three steps of test_process_file. *)
Example test_process_file_ok :
  let w := (process_file quiet_env "abc123" "test.txt" "backup"
              empty_world).1 in
  w_files w !! "backup/test.txt" = Some "" /\ failed_files w = [].
Proof. split; reflexivity. Qed.

Example test_process_file_error :
  let '(w, r) := process_file broken_env "abc123" "test.txt" "backup"
                   empty_world in
  r = Raises (BackupError "Error processing file test.txt: ")
  /\ failed_files w = [("abc123", "test.txt")].
Proof. split; reflexivity. Qed.

Example test_process_file_deleted :
  let '(w, r) := process_file deleted_env "abc123" "test.txt" "backup"
                   empty_world in
  r = Returns tt /\ failed_files w = [].
Proof. split; reflexivity. Qed.

(** C1: a file deleted in a commit is meant to be skipped, and the unit
    of test_process_file that reports the deletion with the words
    "does not exist in" is: it returns normally with no FailureRecord.
    When the deleted file is a file of the working tree, git reports the
    same absence with the words "exists on disk, but not in"; the test of
    [process_file] misses this wording, so the unit appends a
    FailureRecord and raises [BackupError], and the run ends in
    failure. *)
Theorem deleted_file_on_disk_is_recorded :
  let e := GitCommandError
             "fatal: path 'test.txt' exists on disk, but not in 'abc123'" in
  let '(w', r) :=
    process_file restored_env "abc123" "test.txt" "backup" empty_world in
  show_file restored_env "abc123" "test.txt" = Raises e
  /\ spec_reports_absent e = true
  /\ is_deletion e = false
  /\ r = Raises (backup_error "test.txt" e)
  /\ failed_files w' = [("abc123", "test.txt")]
  /\ ~ spec_deletion_skip restored_env "abc123" "test.txt" "backup"
         empty_world
  /\ spec_reports_absent
       (GitCommandError "fatal: path 'test.txt' does not exist in 'abc123'")
     = true
  /\ spec_deletion_skip deleted_env "abc123" "test.txt" "backup" empty_world.
Proof.
  cbv zeta.
  assert (Hr : (process_file restored_env "abc123" "test.txt" "backup"
                  empty_world).2
               = Raises (backup_error "test.txt"
                           (GitCommandError
                              "fatal: path 'test.txt' exists on disk, but not in 'abc123'")))
    by reflexivity.
  assert (Hskip : ~ spec_deletion_skip restored_env "abc123" "test.txt"
                      "backup" empty_world).
  { unfold spec_deletion_skip.
    destruct (process_file restored_env "abc123" "test.txt" "backup"
                empty_world) as [w' r].
    simpl in Hr. intros (Hret&_). congruence. }
  assert (Hf : failed_files
                 (process_file restored_env "abc123" "test.txt" "backup"
                    empty_world).1 = [("abc123", "test.txt")])
    by reflexivity.
  destruct (process_file restored_env "abc123" "test.txt" "backup"
              empty_world) as [w' r].
  simpl in Hr, Hf.
  split; [reflexivity|]. split; [reflexivity|]. split; [reflexivity|].
  split; [exact Hr|]. split; [exact Hf|]. split; [exact Hskip|].
  split; [reflexivity|]. unfold spec_deletion_skip. by repeat split.
Qed.

(** ** Commit tasks: the first step *)

Lemma commit_setup_ok env backup_dir sha w :
  setup_succeeds env backup_dir sha = true ->
  commit_setup env backup_dir sha w
  = (mkWorld (list_to_set (dir_chain (path_join backup_dir sha)) ∪ w_dirs w)
       (w_files w) (failed_files w)
       (w_trace w ++ [AMakedirs (path_join backup_dir sha)]),
     Returns (path_join backup_dir sha)).
Proof.
  unfold setup_succeeds. intros Hok. run_M.
  destruct (repo_commit env sha); [done|]. simpl in *.
  destruct (String.eqb (path_join backup_dir sha) ""); [done|]. simpl in *.
  by destruct (makedirs_fault env _).
Qed.

Lemma commit_setup_keeps env backup_dir sha w :
  failed_files (commit_setup env backup_dir sha w).1 = failed_files w
  /\ w_files (commit_setup env backup_dir sha w).1 = w_files w.
Proof.
  run_M. destruct (repo_commit env sha); [done|]. simpl.
  destruct (String.eqb (path_join backup_dir sha) ""); [done|]. simpl.
  by destruct (makedirs_fault env _).
Qed.

Lemma start_commit_keeps env backup_dir s k entry :
  let s' := start_commit env backup_dir s k entry in
  sb_done s' = sb_done s
  /\ failed_files (sb_world s') = failed_files (sb_world s)
  /\ w_files (sb_world s') = w_files (sb_world s).
Proof.
  destruct entry as [sha files]. unfold start_commit.
  pose proof (commit_setup_keeps env backup_dir sha (sb_world s)) as [Hf Hw].
  destruct (commit_setup env backup_dir sha (sb_world s)) as [w' [d|e]];
    simpl in *; [done|].
  destruct e; simpl; done.
Qed.

Lemma start_commits_keeps env backup_dir entries : forall s k,
  let s' := start_commits env backup_dir s k entries in
  sb_done s' = sb_done s
  /\ failed_files (sb_world s') = failed_files (sb_world s)
  /\ w_files (sb_world s') = w_files (sb_world s).
Proof.
  induction entries as [|entry rest IH]; intros s k; simpl; [done|].
  destruct (IH (start_commit env backup_dir s k entry) (S k)) as (H1&H2&H3).
  destruct (start_commit_keeps env backup_dir s k entry) as (G1&G2&G3).
  simpl in *. rewrite H1, H2, H3. done.
Qed.

(** When every setup gets through, every commit task is dispatched, in
    map order, and none lets an exception out. *)
Lemma start_commits_ok env backup_dir entries : forall s k,
  (forall sha files, (sha, files) ∈ entries ->
     setup_succeeds env backup_dir sha = true) ->
  let s' := start_commits env backup_dir s k entries in
  sb_dispatched s' = sb_dispatched s ++ seq k (length entries)
  /\ sb_escaped s' = sb_escaped s
  /\ (forall j, j ∈ sb_finished s' ->
        j ∈ sb_finished s
        \/ exists sha, entries !! (j - k)%nat = Some (sha, []) /\ (k <= j)%nat).
Proof.
  induction entries as [|[sha files] rest IH]; intros s k Hok; simpl.
  - rewrite app_nil_r. auto.
  - assert (Hsha : setup_succeeds env backup_dir sha = true).
    { apply (Hok sha files). left. }
    destruct (IH (start_commit env backup_dir s k (sha, files)) (S k))
      as (H1&H2&H3).
    { intros sha' files' Hin. apply (Hok sha' files'). by right. }
    simpl in *. rewrite H1, H2. unfold start_commit in *.
    rewrite (commit_setup_ok _ _ _ _ Hsha) in *. simpl in *.
    split; [by rewrite <- app_assoc|]. split; [done|].
    intros j Hj. destruct (H3 j Hj) as [Hfin|(sha'&Hl&Hle)].
    + destruct files; [|by left].
      apply elem_of_app in Hfin as [?|Hk]; [by left|].
      apply list_elem_of_singleton in Hk as ->. right. exists sha.
      rewrite Nat.sub_diag. simpl. split; [done|lia].
    + right. exists sha'. split; [|lia].
      replace (j - k)%nat with (S (j - S k)) by lia. done.
Qed.

(** ** File task completions *)

Lemma member_true {A} `{EqDecision A} (x : A) (l : list A) :
  member x l = true <-> x ∈ l.
Proof. unfold member. by rewrite bool_decide_eq_true. Qed.

Lemma member_false {A} `{EqDecision A} (x : A) (l : list A) :
  member x l = false <-> x ∉ l.
Proof. unfold member. by rewrite bool_decide_eq_false. Qed.

Lemma fires_true cmap s t :
  fires cmap s t = true
  <-> is_Some (task_unit cmap t) /\ t.1 ∈ sb_dispatched s /\ t ∉ sb_done s.
Proof.
  unfold fires. destruct (task_unit cmap t) as [u|].
  - rewrite andb_true_iff, negb_true_iff, member_true, member_false.
    split; [intros [H1 H2]; eauto|intros (_&H1&H2); eauto].
  - split; [done|]. intros ([u Hu]&_). done.
Qed.

Lemma unit_done_skip env backup_dir cmap s t :
  fires cmap s t = false -> unit_done env backup_dir cmap s t = s.
Proof.
  unfold fires, unit_done. destruct (task_unit cmap t) as [[sha file]|];
    [|done].
  intros H. apply andb_false_iff in H as [H|H].
  - rewrite H. done.
  - apply negb_false_iff in H. rewrite H. by rewrite orb_true_r.
Qed.

(** A raised [process_file] always raises [BackupError]. *)
Lemma process_file_raises env sha file cbd w e :
  (process_file env sha file cbd w).2 = Raises e ->
  hard_failure env cbd sha file = true /\ exists m, e = BackupError m.
Proof.
  rewrite process_file_result. unfold hard_failure.
  destruct (unit_exception env cbd sha file) as [e0|]; [|done].
  destruct (is_deletion e0); [done|].
  intros [= <-]. split; [done|]. unfold backup_error. eauto.
Qed.

Lemma process_file_returns env sha file cbd w :
  (process_file env sha file cbd w).2 = Returns tt
  <-> hard_failure env cbd sha file = false.
Proof.
  rewrite process_file_result. unfold hard_failure.
  destruct (unit_exception env cbd sha file) as [e0|]; [|done].
  by destruct (is_deletion e0).
Qed.

(** What a completion does to the scheduler state. *)
Lemma unit_done_fires env backup_dir cmap s t sha file :
  fires cmap s t = true ->
  task_unit cmap t = Some (sha, file) ->
  let s' := unit_done env backup_dir cmap s t in
  let pf := process_file env sha file (path_join backup_dir sha)
              (sb_world s) in
  let hard := hard_failure env (path_join backup_dir sha) sha file in
  sb_done s' = sb_done s ++ [t]
  /\ sb_dispatched s' = sb_dispatched s
  /\ sb_escaped s' = sb_escaped s
  /\ failed_files (sb_world s') = failed_files pf.1
  /\ tree (sb_world s') = tree pf.1
  /\ sb_finished s'
     = sb_finished s
       ++ (if negb (member t.1 (sb_finished s))
              && (hard || commit_complete cmap (sb_done s ++ [t]) t.1)
           then [t.1] else []).
Proof.
  intros Hf Hu s' pf hard. subst s' pf hard.
  unfold fires in Hf. rewrite Hu in Hf.
  apply andb_true_iff in Hf as [Hd Hnd]. apply negb_true_iff in Hnd.
  unfold unit_done. rewrite Hu, Hd, Hnd. simpl.
  pose proof (process_file_raises env sha file (path_join backup_dir sha)
                (sb_world s)) as Hr.
  pose proof (process_file_returns env sha file (path_join backup_dir sha)
                (sb_world s)) as Hok.
  destruct (process_file env sha file (path_join backup_dir sha) (sb_world s))
    as [w' [[]|e]]; simpl in *.
  - rewrite (proj1 Hok eq_refl). simpl.
    destruct (member t.1 (sb_finished s)); simpl.
    + by rewrite app_nil_r.
    + destruct (commit_complete cmap (sb_done s ++ [t]) t.1); simpl;
        rewrite ?app_nil_r; done.
  - destruct (Hr e eq_refl) as [Hh [m ->]]. rewrite Hh. simpl.
    destruct (member t.1 (sb_finished s)); simpl; rewrite ?app_nil_r; done.
Qed.

Lemma foldl_snoc {A B} (f : A -> B -> A) (a : A) (l : list B) (x : B) :
  foldl f a (l ++ [x]) = f (foldl f a l) x.
Proof. by rewrite foldl_app. Qed.

(** An invariant of Stage B holds after any schedule. *)
Lemma run_stageB_ind env backup_dir cmap w (P : StageB -> Prop) :
  P (start_commits env backup_dir (stageB_init w) 0 cmap) ->
  (forall s t, P s -> P (unit_done env backup_dir cmap s t)) ->
  forall sched, P (run_stageB env backup_dir cmap sched w).
Proof.
  intros H0 Hstep sched. unfold run_stageB.
  induction sched as [|t sched IH] using rev_ind; simpl; [done|].
  rewrite foldl_snoc. by apply Hstep.
Qed.


(** The failure list only grows, and a completed unit that failed hard has
    its record in it. *)
Lemma run_stageB_failed env backup_dir cmap sched w :
  let s := run_stageB env backup_dir cmap sched w in
  (forall r, r ∈ failed_files w -> r ∈ failed_files (sb_world s))
  /\ (forall t sha file,
        t ∈ sb_done s ->
        task_unit cmap t = Some (sha, file) ->
        hard_failure env (path_join backup_dir sha) sha file = true ->
        (sha, file) ∈ failed_files (sb_world s)).
Proof.
  cbv zeta. apply run_stageB_ind; cbv beta.
  - destruct (start_commits_keeps env backup_dir cmap (stageB_init w) 0)
      as (->&->&_). simpl. split; [done|]. intros t sha file Hin.
    by apply elem_of_nil in Hin.
  - intros s t [IH1 IH2]. destruct (fires cmap s t) eqn:Hf.
    + destruct (proj1 (fires_true _ _ _) Hf) as ([[sha file] Hu]&_&Hnd).
      destruct (unit_done_fires env backup_dir cmap s t sha file Hf Hu)
        as (->&_&_&->&_).
      rewrite process_file_failed. split.
      * intros r Hr. apply elem_of_app. left. auto.
      * intros t' sha' file' Hin Hu' Hh. apply elem_of_app.
        apply elem_of_app in Hin as [Hin|Hin]; [left; eauto|].
        apply list_elem_of_singleton in Hin as ->.
        rewrite Hu in Hu'. injection Hu' as <- <-. rewrite Hh.
        right. apply list_elem_of_here.
    + by rewrite unit_done_skip.
Qed.

(** ** Stage A: the ChangedFileMap *)

Lemma dict_get_set d k v k' :
  dict_get (dict_set d k v) k'
  = if String.eqb k k' then Some v else dict_get d k'.
Proof.
  induction d as [|[k0 v0] d IH]; simpl.
  - done.
  - destruct (String.eqb k0 k) eqn:E0; simpl.
    + apply String.eqb_eq in E0 as ->. by destruct (String.eqb k k').
    + rewrite IH. destruct (String.eqb k0 k') eqn:E1; [|done].
      apply String.eqb_eq in E1 as ->.
      rewrite String.eqb_sym in E0. by rewrite E0.
Qed.

Lemma dict_set_elem d k v k' v' :
  (k', v') ∈ dict_set d k v -> (k' = k /\ v' = v) \/ (k', v') ∈ d.
Proof.
  induction d as [|[k0 v0] d IH]; simpl.
  - intros H. apply list_elem_of_singleton in H as [= -> ->]. by left.
  - destruct (String.eqb k0 k) eqn:E0.
    + intros H. apply elem_of_cons in H as [[= -> ->]|H]; [by left|].
      right. by apply list_elem_of_further.
    + intros H. apply elem_of_cons in H as [[= -> ->]|H].
      * right. apply list_elem_of_here.
      * destruct (IH H) as [?|?]; [by left|].
        right. by apply list_elem_of_further.
Qed.

Lemma dict_set_keys d k v x :
  x ∈ (dict_set d k v).*1 <-> x = k \/ x ∈ d.*1.
Proof.
  induction d as [|[k0 v0] d IH]; simpl.
  - rewrite list_elem_of_singleton. split; [by left|].
    intros [?|H]; [done|]. by apply elem_of_nil in H.
  - destruct (String.eqb k0 k) eqn:E0; simpl.
    + apply String.eqb_eq in E0 as ->. rewrite !elem_of_cons. tauto.
    + rewrite !elem_of_cons, IH. tauto.
Qed.

Lemma dict_set_nodup d k v : NoDup (d.*1) -> NoDup ((dict_set d k v).*1).
Proof.
  induction d as [|[k0 v0] d IH]; simpl; intros Hnd.
  - apply NoDup_singleton.
  - apply NoDup_cons in Hnd as [Hnotin Hnd].
    destruct (String.eqb k0 k) eqn:E0; simpl.
    + apply String.eqb_eq in E0 as ->. by apply NoDup_cons.
    + apply NoDup_cons. split; [|by apply IH].
      rewrite dict_set_keys. intros [->|?]; [|done].
      by rewrite String.eqb_refl in E0.
Qed.

Lemma dict_get_elem d k v :
  NoDup (d.*1) -> (k, v) ∈ d <-> dict_get d k = Some v.
Proof.
  induction d as [|[k0 v0] d IH]; simpl; intros Hnd.
  - split; [intros H; by apply elem_of_nil in H|done].
  - apply NoDup_cons in Hnd as [Hnotin Hnd].
    destruct (String.eqb k0 k) eqn:E0.
    + apply String.eqb_eq in E0 as ->. rewrite elem_of_cons. split.
      * intros [[= ->]|H]; [done|]. exfalso. apply Hnotin.
        apply list_elem_of_fmap. by exists (k, v).
      * intros [= ->]. by left.
    + rewrite elem_of_cons, <- (IH Hnd). split; [|by right].
      intros [[= -> ->]|H]; [|done]. by rewrite String.eqb_refl in E0.
Qed.


(** The records Stage A appends: one per commit whose extraction raised,
    in completion order. *)
Lemma extract_changed_files_spec env completed w :
  let '(cmap, w') := extract_changed_files env completed w in
  NoDup (cmap.*1)
  /\ (forall sha files, (sha, files) ∈ cmap ->
        sha ∈ completed /\ show_names env sha = Returns files)
  /\ (forall sha files, sha ∈ completed ->
        show_names env sha = Returns files -> dict_get cmap sha = Some files)
  /\ tree w' = tree w
  /\ failed_files w'
     = failed_files w
       ++ omap (fun sha => match show_names env sha with
                           | Raises _ => Some (sha, retrieval_marker)
                           | Returns _ => None
                           end) completed.
Proof.
  unfold extract_changed_files.
  induction completed as [|sha completed IH] using rev_ind; simpl.
  - split; [apply NoDup_nil_2|].
    split; [intros ? ? H; by apply elem_of_nil in H|].
    split; [intros ? ? H; by apply elem_of_nil in H|].
    split; [done|]. by rewrite app_nil_r.
  - rewrite foldl_snoc.
    destruct (foldl (collect_result env) ([], w) completed) as [cmap w1].
    destruct IH as (Hnd&Hin&Hget&Htree&Hfail).
    unfold collect_result, get_changed_files. simpl.
    rewrite omap_app. simpl.
    destruct (show_names env sha) as [lines|e] eqn:Hshow; simpl.
    + split; [by apply dict_set_nodup|]. split; [|split; [|split]].
      * intros sha' files' H. apply dict_set_elem in H as [[-> ->]|H].
        -- split; [|done]. apply elem_of_app. right. apply list_elem_of_here.
        -- destruct (Hin _ _ H). split; [|done]. apply elem_of_app. by left.
      * intros sha' files' H Hs. rewrite dict_get_set.
        destruct (String.eqb sha sha') eqn:E.
        -- apply String.eqb_eq in E as ->. congruence.
        -- apply elem_of_app in H as [H|H]; [by apply Hget|].
           apply list_elem_of_singleton in H as ->.
           by rewrite String.eqb_refl in E.
      * done.
      * by rewrite app_nil_r.
    + split; [done|]. split; [|split; [|split]].
      * intros sha' files' H. destruct (Hin _ _ H). split; [|done].
        apply elem_of_app. by left.
      * intros sha' files' H Hs. apply elem_of_app in H as [H|H];
          [by apply Hget|].
        apply list_elem_of_singleton in H as ->. congruence.
      * done.
      * run_M. rewrite Hfail. by rewrite <- app_assoc.
Qed.





Lemma task_unit_entry cmap t sha file :
  task_unit cmap t = Some (sha, file) ->
  exists files, cmap !! t.1 = Some (sha, files) /\ files !! t.2 = Some file.
Proof.
  unfold task_unit. destruct (cmap !! t.1) as [[sha' files]|]; [|done].
  destruct (files !! t.2) as [file'|] eqn:E; [|done].
  intros [= -> ->]. eauto.
Qed.


(** ** Stage B: what a schedule guarantees *)

Lemma process_file_raise_trace env sha file cbd w e :
  (process_file env sha file cbd w).2 = Raises e ->
  exists before,
    w_trace (process_file env sha file cbd w).1
    = before ++ [AAppendFailure sha file; ARaise e]
    /\ failed_files (process_file env sha file cbd w).1
       = failed_files w ++ [(sha, file)].
Proof.
  assert (Hshape : forall (l : list Action) a b, (l ++ [a]) ++ [b] = l ++ [a; b]).
  { intros. by rewrite <- app_assoc. }
  run_M.
  destruct (show_file env sha file) as [content|e0]; simpl.
  - destruct (String.eqb (dirname (path_join cbd file)) ""); simpl.
    { intros [= <-]. eauto. }
    destruct (makedirs_fault env _) as [e0|]; simpl.
    + destruct e0; simpl; try (intros [= <-]; eauto).
      destruct (contains deletion_marker msg); simpl; [done|].
      intros [= <-]; eauto.
    + destruct (write_fault env _ content) as [[e0|n e0]|]; simpl; [| |done].
      * destruct e0; simpl; try (intros [= <-]; eauto).
        destruct (contains deletion_marker msg); simpl; [done|].
        intros [= <-]; eauto.
      * destruct e0; simpl; try (intros [= <-]; eauto).
        destruct (contains deletion_marker msg); simpl; [done|].
        intros [= <-]; eauto.
  - destruct e0; simpl; try (intros [= <-]; eauto).
    destruct (contains deletion_marker msg); simpl; [done|].
    intros [= <-]; eauto.
Qed.

(** C10: a file unit that raises has appended its record (commit
    identifier, file path) to the shared list immediately before raising;
    at that moment the commit task takes the exception and is finished,
    awaiting no sibling any longer, and the record is in the list; and
    after any schedule the record of every completed unit that failed
    hard is still in the list. *)
Theorem failure_recorded_before_raise env backup_dir cmap :
  (forall sha file cbd w e,
     (process_file env sha file cbd w).2 = Raises e ->
     exists before,
       w_trace (process_file env sha file cbd w).1
       = before ++ [AAppendFailure sha file; ARaise e]
       /\ failed_files (process_file env sha file cbd w).1
          = failed_files w ++ [(sha, file)])
  /\ (forall s t sha file,
        fires cmap s t = true ->
        task_unit cmap t = Some (sha, file) ->
        hard_failure env (path_join backup_dir sha) sha file = true ->
        let s' := unit_done env backup_dir cmap s t in
        t.1 ∈ sb_finished s'
        /\ failed_files (sb_world s')
           = failed_files (sb_world s) ++ [(sha, file)])
  /\ (forall sched w t sha file,
        let s := run_stageB env backup_dir cmap sched w in
        t ∈ sb_done s ->
        task_unit cmap t = Some (sha, file) ->
        hard_failure env (path_join backup_dir sha) sha file = true ->
        (sha, file) ∈ failed_files (sb_world s)).
Proof.
  split; [|split].
  - intros. by apply process_file_raise_trace.
  - intros s t sha file Hf Hu Hh.
    destruct (unit_done_fires env backup_dir cmap s t sha file Hf Hu)
      as (_&_&_&Hfail&_&Hfin).
    simpl. rewrite Hfail, Hfin, process_file_failed, Hh. split; [|done].
    simpl. destruct (member t.1 (sb_finished s)) eqn:Hm; simpl.
    + rewrite app_nil_r. by apply member_true.
    + apply elem_of_app. right. apply list_elem_of_here.
  - intros sched w t sha file s. subst s.
    apply (run_stageB_failed env backup_dir cmap sched w).
Qed.

Lemma commit_complete_mono cmap done t k :
  commit_complete cmap done k = true ->
  commit_complete cmap (done ++ [t]) k = true.
Proof.
  unfold commit_complete. destruct (cmap !! k) as [[sha files]|]; [|done].
  rewrite !forallb_forall. intros H i Hi. apply member_true.
  apply elem_of_app. left. apply member_true. by apply H.
Qed.

Lemma commit_complete_done cmap done k sha files i :
  commit_complete cmap done k = true ->
  cmap !! k = Some (sha, files) ->
  (i < length files)%nat ->
  (k, i) ∈ done.
Proof.
  unfold commit_complete. intros H Hk Hi. rewrite Hk in H.
  rewrite forallb_forall in H. apply member_true. apply H.
  apply in_seq. lia.
Qed.

Lemma run_stageB_static env backup_dir cmap sched w :
  let s0 := start_commits env backup_dir (stageB_init w) 0 cmap in
  let s := run_stageB env backup_dir cmap sched w in
  sb_dispatched s = sb_dispatched s0 /\ sb_escaped s = sb_escaped s0.
Proof.
  cbv zeta. apply run_stageB_ind; cbv beta; [done|].
  intros s t [IH1 IH2]. destruct (fires cmap s t) eqn:Hf.
  - destruct (proj1 (fires_true _ _ _) Hf) as ([[sha file] Hu]&_).
    destruct (unit_done_fires env backup_dir cmap s t sha file Hf Hu)
      as (_&->&->&_). done.
  - by rewrite unit_done_skip.
Qed.

(** Why a dispatched commit task is finished: all its file tasks are done,
    or one of them failed hard. *)
Lemma run_stageB_finished env backup_dir cmap sched w :
  (forall sha files, (sha, files) ∈ cmap ->
     setup_succeeds env backup_dir sha = true) ->
  let s := run_stageB env backup_dir cmap sched w in
  forall k, k ∈ sb_finished s ->
    commit_complete cmap (sb_done s) k = true
    \/ exists i sha file,
         (k, i) ∈ sb_done s
         /\ task_unit cmap (k, i) = Some (sha, file)
         /\ hard_failure env (path_join backup_dir sha) sha file = true.
Proof.
  intros Hok. cbv zeta. apply run_stageB_ind; cbv beta.
  - intros k Hk. left.
    destruct (start_commits_ok env backup_dir cmap (stageB_init w) 0%nat Hok)
      as (_&_&Hfin).
    destruct (Hfin k Hk) as [Hnil|(sha&Hl&_)].
    + by apply elem_of_nil in Hnil.
    + rewrite Nat.sub_0_r in Hl. unfold commit_complete. by rewrite Hl.
  - intros s t IH k Hk. destruct (fires cmap s t) eqn:Hf.
    + destruct (proj1 (fires_true _ _ _) Hf) as ([[sha file] Hu]&_).
      destruct (unit_done_fires env backup_dir cmap s t sha file Hf Hu)
        as (Hdone&_&_&_&_&Hfin).
      rewrite Hdone. rewrite Hfin in Hk.
      apply elem_of_app in Hk as [Hk|Hk].
      * destruct (IH k Hk) as [Hc|(i&sha'&file'&Hi&Hu'&Hh)].
        -- left. by apply commit_complete_mono.
        -- right. exists i, sha', file'. split; [|done].
           apply elem_of_app. by left.
      * destruct (negb (member t.1 (sb_finished s))); simpl in Hk;
          [|by apply elem_of_nil in Hk].
        destruct (hard_failure env (path_join backup_dir sha) sha file)
          eqn:Hh; simpl in Hk.
        -- apply list_elem_of_singleton in Hk as ->. right.
           exists t.2, sha, file. destruct t as [k i]. simpl.
           split; [|done]. apply elem_of_app. right. apply list_elem_of_here.
        -- destruct (commit_complete cmap (sb_done s ++ [t]) t.1) eqn:Hc;
             [|by apply elem_of_nil in Hk].
           apply list_elem_of_singleton in Hk as ->. by left.
    + rewrite unit_done_skip in Hk |- * by done. by apply IH.
Qed.

Lemma stageB_over_finished cmap s k :
  stageB_over cmap s = true ->
  sb_escaped s = None ->
  (k < length cmap)%nat ->
  k ∈ sb_finished s.
Proof.
  unfold stageB_over. intros Hover Hesc Hk. rewrite Hesc in Hover.
  rewrite forallb_forall in Hover. apply member_true. apply Hover.
  apply in_seq. lia.
Qed.


Lemma completion_order_elem commits perm sha :
  sha ∈ completion_order commits perm ->
  exists c, c ∈ commits /\ hexsha c = sha.
Proof.
  unfold completion_order. intros H.
  apply list_elem_of_omap in H as (i&_&Hi).
  destruct (commits !! i) as [c|] eqn:Hc; [|done].
  injection Hi as <-. exists c. split; [|done].
  by apply list_elem_of_lookup_2 in Hc.
Qed.





(** The failure list after any schedule: the records found, then one
    record per completed file task that failed hard, in completion
    order. *)
Lemma run_stageB_failed_exact env backup_dir cmap sched w :
  let s := run_stageB env backup_dir cmap sched w in
  failed_files (sb_world s)
  = failed_files w
    ++ omap (fun t =>
               match task_unit cmap t with
               | Some (sha, file) =>
                   if hard_failure env (path_join backup_dir sha) sha file
                   then Some (sha, file) else None
               | None => None
               end) (sb_done s).
Proof.
  cbv zeta. apply run_stageB_ind; cbv beta.
  - destruct (start_commits_keeps env backup_dir cmap (stageB_init w) 0)
      as (->&->&_). simpl. by rewrite app_nil_r.
  - intros s t IH. destruct (fires cmap s t) eqn:Hf.
    + destruct (proj1 (fires_true _ _ _) Hf) as ([[sha file] Hu]&_).
      destruct (unit_done_fires env backup_dir cmap s t sha file Hf Hu)
        as (->&_&_&->&_).
      rewrite process_file_failed, IH, omap_app, <- app_assoc. simpl.
      rewrite Hu. by destruct (hard_failure _ _ _ _).
    + by rewrite unit_done_skip.
Qed.

(** C4: the commit task creates its directory first and dispatches one
    unit per file, but it does not wait for all of them.  With one commit
    of three files, two of which cannot be read, the completion of the
    first unit alone is an admissible schedule: the commit task is
    finished and the run ends in failure with a single FailureRecord,
    although two units fail hard, and the third file, which can be read,
    is never written. *)
Theorem siblings_left_unawaited :
  let cmap := [("c1", ["a.txt"; "b.txt"; "c.txt"])] in
  let sched := [(0, 0)%nat] in
  let s := run_stageB flaky_env "data" cmap sched empty_world in
  admissible flaky_env "data" cmap sched empty_world
  /\ sb_finished s = [0%nat]
  /\ sb_done s = [(0, 0)%nat]
  /\ w_trace (sb_world s)
     = [AMakedirs "data/c1"; AFetch "c1" "a.txt"; ARaise unreadable;
        AAppendFailure "c1" "a.txt";
        ARaise (backup_error "a.txt" unreadable);
        ALogException
          ("Error backing up commit c1: "
           +:+ str (backup_error "a.txt" unreadable))]
  /\ hard_failure flaky_env "data/c1" "c1" "a.txt" = true
  /\ hard_failure flaky_env "data/c1" "c1" "b.txt" = true
  /\ failed_files (sb_world s) = [("c1", "a.txt")]
  /\ unit_write flaky_env "data/c1" "c1" "c.txt"
     = Some ("data/c1/c.txt", "data")
  /\ w_files (sb_world s) !! "data/c1/c.txt" = None
  /\ main flaky_env "." "data" None None [0%nat] sched empty_world
     = (sb_world s, ExitFailure).
Proof.
  intros cmap sched s. split.
  - split; [by apply (bool_decide_unpack _)|]. split; [|reflexivity].
    intros t Ht. apply list_elem_of_singleton in Ht as ->.
    split; [by eexists|]. by apply (bool_decide_unpack _).
  - repeat split; reflexivity.
Qed.

(** Had the commit task waited, both failures would be on record and the
    readable file written. *)
Example siblings_awaited :
  let cmap := [("c1", ["a.txt"; "b.txt"; "c.txt"])] in
  let s := run_stageB flaky_env "data" cmap [(0, 0); (0, 1); (0, 2)]%nat
             empty_world in
  failed_files (sb_world s) = [("c1", "a.txt"); ("c1", "b.txt")]
  /\ w_files (sb_world s) !! "data/c1/c.txt" = Some "data".
Proof. split; reflexivity. Qed.

(** ** Entry point *)

(** C9, as stated, fails: when the backup folder cannot be written, the
    creation of the first commit's directory raises out of the commit
    task; the run ends in failure and the failure list is empty. *)
Lemma run_fails_without_record :
  main readonly_env "." "data" None None [0; 1]%nat [] empty_world
  = (mkWorld ∅ ∅ []
       [AMakedirs "data/c1";
        ARaise (OSError "[Errno 13] Permission denied");
        AMakedirs "data/c2";
        ARaise (OSError "[Errno 13] Permission denied")],
     ExitFailure)
  /\ ~ spec_exit_rule readonly_env "." "data" None None [0; 1]%nat []
         empty_world.
Proof.
  split; [reflexivity|].
  unfold spec_exit_rule.
  replace (main readonly_env "." "data" None None [0; 1]%nat [] empty_world)
    with (mkWorld ∅ ∅ []
            [AMakedirs "data/c1";
             ARaise (OSError "[Errno 13] Permission denied");
             AMakedirs "data/c2";
             ARaise (OSError "[Errno 13] Permission denied")],
          ExitFailure) by reflexivity.
  simpl. intros [H _]. by apply H.
Qed.

(** C9, amended: a non-empty failure list always ends the run in
    failure, and a run ends in success only with an empty list; when
    validation passes, the repository opens and [backup_files] returns,
    the run fails exactly when the list is non-empty; an exception out of
    [backup_files] ends the run in failure whatever the list holds, and a
    validation error or a repository that does not open ends it in
    failure with an empty list. *)
Theorem main_exit_status env repo_dir backup_dir start_date end_date
    perm sched tree0 :
  let '(w', status) :=
    main env repo_dir backup_dir start_date end_date perm sched tree0 in
  (failed_files w' <> [] -> status = ExitFailure)
  /\ (status = ExitSuccess -> failed_files w' = [])
  /\ match validate env repo_dir backup_dir start_date end_date,
           open_repo env repo_dir, active_branch env with
     | Returns _, None, Returns current_branch =>
         let staged :=
           backup_files env backup_dir current_branch start_date end_date
             perm sched (fresh_run tree0) in
         w' = staged.1
         /\ match staged.2 with
            | Returns _ => status = ExitFailure <-> failed_files w' <> []
            | Raises _ => status = ExitFailure
            end
     | _, _, _ => status = ExitFailure /\ failed_files w' = []
     end.
Proof.
  unfold main.
  destruct (validate env repo_dir backup_dir start_date end_date) as [[]|e];
    simpl; [|by repeat split].
  destruct (open_repo env repo_dir) as [e|]; simpl; [by repeat split|].
  destruct (active_branch env) as [current_branch|e]; simpl;
    [|by repeat split].
  destruct (backup_files env backup_dir current_branch start_date
              end_date perm sched (fresh_run tree0)) as [w' [[]|e]]; simpl;
    [|by repeat split].
  destruct (failed_files w') as [|r l] eqn:Hl; rewrite ?Hl.
  - repeat split; try done.
  - repeat split; try done.
Qed.

(** ** The file unit between its awaits *)

Lemma process_file_handler env sha file cbd :
  process_file env sha file cbd
  = try_except
      (file_content ← read_file_content env sha file;
       makedirs env (dirname (path_join cbd file));;
       write_file_content env (path_join cbd file) file_content)
      (on_failure sha file).
Proof. reflexivity. Qed.

(** Resumed four times from its start, the file task has run
    [process_file] to its end. *)
Lemma slices_run_to_end env sha file cbd w :
  slices env sha file cbd 4 Fetching w
  = ((process_file env sha file cbd w).1,
     Completed (process_file env sha file cbd w).2).
Proof.
  unfold slices, resume, on_failure. run_M.
  destruct (show_file env sha file) as [content|e]; simpl.
  - destruct (String.eqb (dirname (path_join cbd file)) ""); simpl; [done|].
    destruct (makedirs_fault env _) as [e|]; simpl.
    + destruct e; simpl; try done.
      by destruct (contains deletion_marker msg).
    + destruct (write_fault env _ content) as [[e|n e]|] eqn:Hw; simpl;
        rewrite ?Hw; simpl.
      * destruct e; simpl; try done.
        by destruct (contains deletion_marker msg).
      * rewrite insert_insert_eq.
        destruct e; simpl; try done.
        by destruct (contains deletion_marker msg).
      * by rewrite insert_insert_eq.
  - destruct e; simpl; try done.
    by destruct (contains deletion_marker msg).
Qed.

Lemma take_string_0 (s : string) : take_string 0 s = "".
Proof. unfold take_string. by destruct s. Qed.

Lemma take_string_all (s : string) : take_string (String.length s) s = s.
Proof.
  unfold take_string. induction s as [|c s IH]; simpl; [done|].
  by rewrite IH.
Qed.

(** A resumption that suspends again. *)
Lemma resume_suspends env cbd sha file p w w' p' :
  phase_ok env cbd sha file p ->
  resume env sha file cbd p w = (w', Returns (Some p')) ->
  phase_ok env cbd sha file p'
  /\ failed_files w' = failed_files w.
Proof.
  unfold phase_ok, unit_mkdir, resume, on_failure. destruct p as [|c|c|[e|]].
  - intros _. run_M.
    destruct (show_file env sha file) as [content|e]; simpl.
    + destruct (String.eqb (dirname (path_join cbd file)) ""); simpl;
        [congruence|].
      destruct (makedirs_fault env _) as [e|]; simpl.
      * destruct e; simpl; try congruence.
        destruct (contains deletion_marker msg); simpl; congruence.
      * intros [= <- <-]. done.
    + destruct e; simpl; try congruence.
      destruct (contains deletion_marker msg); simpl; try congruence.
  - intros (Hs&Hm). run_M.
    destruct (write_fault env _ c) as [[e|n e]|] eqn:Hw; simpl.
    + destruct e; simpl; try congruence.
      destruct (contains deletion_marker msg); simpl; congruence.
    + intros [= <- <-]. simpl. repeat split; try done. congruence.
    + intros [= <- <-]. simpl. repeat split; try done. congruence.
  - intros (Hs&Hm&Ho). run_M.
    destruct (write_fault env _ c) as [[e|n e]|] eqn:Hw; simpl.
    + by destruct (Ho e).
    + intros [= <- <-]. simpl. split; [|done]. exists c, n. done.
    + intros [= <- <-]. simpl. split; [|done]. exists c.
      repeat split; try done; congruence.
  - intros _. run_M. destruct e; simpl; try congruence.
    destruct (contains deletion_marker msg); simpl; congruence.
  - intros _. run_M. congruence.
Qed.





(** What a resumption does to the files and directories of the tree. *)
Lemma resume_files env cbd sha file p w :
  phase_ok env cbd sha file p ->
  w_files (resume env sha file cbd p w).1 = w_files w
  \/ exists c n,
       show_file env sha file = Returns c
       /\ unit_mkdir env cbd sha file = Some (dirname (path_join cbd file))
       /\ w_files (resume env sha file cbd p w).1
          = <[path_join cbd file := take_string n c]> (w_files w).
Proof.
  unfold phase_ok, resume, on_failure. destruct p as [|c|c|[e|]].
  - intros _. left. run_M.
    destruct (show_file env sha file) as [content|e]; simpl.
    + destruct (String.eqb (dirname (path_join cbd file)) ""); simpl; [done|].
      destruct (makedirs_fault env _) as [e|]; simpl; [|done].
      destruct e; simpl; try done.
      by destruct (contains deletion_marker msg).
    + destruct e; simpl; try done.
      by destruct (contains deletion_marker msg).
  - intros (Hs&Hm). run_M.
    destruct (write_fault env _ c) as [[e|n e]|] eqn:Hw; simpl.
    + left. destruct e; simpl; try done.
      by destruct (contains deletion_marker msg).
    + right. exists c, 0%nat. by rewrite take_string_0.
    + right. exists c, 0%nat. by rewrite take_string_0.
  - intros (Hs&Hm&Ho). right. run_M.
    destruct (write_fault env _ c) as [[e|n e]|] eqn:Hw; simpl.
    + by destruct (Ho e).
    + by exists c, n.
    + exists c, (String.length c). by rewrite take_string_all.
  - intros _. left. run_M. destruct e; simpl; try done.
    by destruct (contains deletion_marker msg).
  - intros _. by left.
Qed.

Lemma resume_dirs env cbd sha file p w d :
  d ∈ w_dirs w -> d ∈ w_dirs (resume env sha file cbd p w).1.
Proof.
  intros Hd. unfold resume, on_failure. destruct p as [|c|c|[e|]]; run_M.
  - destruct (show_file env sha file) as [content|e]; simpl.
    + destruct (String.eqb (dirname (path_join cbd file)) ""); simpl; [done|].
      destruct (makedirs_fault env _) as [e|]; simpl.
      * destruct e; simpl; try done.
        by destruct (contains deletion_marker msg).
      * apply elem_of_union. by right.
    + destruct e; simpl; try done.
      by destruct (contains deletion_marker msg).
  - destruct (write_fault env _ c) as [[e|n e]|]; simpl; try done.
    destruct e; simpl; try done.
    by destruct (contains deletion_marker msg).
  - by destruct (write_fault env _ c) as [[e|n e]|].
  - destruct e; simpl; try done.
    by destruct (contains deletion_marker msg).
  - done.
Qed.

Lemma slices_completed env sha file cbd n k : forall p w w' r,
  slices env sha file cbd n p w = (w', Completed r) ->
  slices env sha file cbd (n + k) p w = (w', Completed r).
Proof.
  induction n as [|n IH]; intros p w w' r; simpl; [done|].
  destruct (resume env sha file cbd p w) as [w1 [[p1|]|e]]; try done.
  apply IH.
Qed.

Lemma slices_completed_is_process_file env sha file cbd n w w' r :
  slices env sha file cbd n Fetching w = (w', Completed r) ->
  (w', r) = process_file env sha file cbd w.
Proof.
  intros H. destruct (decide (n <= 4)%nat) as [Hle|Hgt].
  - apply (slices_completed _ _ _ _ _ (4 - n)) in H.
    replace (n + (4 - n))%nat with 4%nat in H by lia.
    rewrite slices_run_to_end in H. injection H as <- <-.
    symmetry. apply surjective_pairing.
  - pose proof (slices_run_to_end env sha file cbd w) as H4.
    apply (slices_completed _ _ _ _ _ (n - 4)) in H4.
    replace (4 + (n - 4))%nat with n in H4 by lia.
    rewrite H4 in H. injection H as <- <-. symmetry.
    apply surjective_pairing.
Qed.

Lemma slices_suspended env sha file cbd n w w' p content :
  show_file env sha file = Returns content ->
  slices env sha file cbd n Fetching w = (w', Suspended p) ->
  failed_files w' = failed_files w
  /\ match p with
     | Fetching => w' = w
     | Opening c =>
         c = content /\ w_files w' = w_files w
         /\ (forall d, d ∈ dir_chain (dirname (path_join cbd file)) ->
                       d ∈ w_dirs w')
     | Writing c =>
         c = content
         /\ w_files w' = <[path_join cbd file := ""]> (w_files w)
     | Closing None =>
         w_files w' = <[path_join cbd file := content]> (w_files w)
     | Closing (Some e) =>
         exists written,
           write_fault env (path_join cbd file) content
           = Some (WriteFails written e)
           /\ w_files w'
              = <[path_join cbd file := take_string written content]>
                  (w_files w)
     end.
Proof.
  intros Hfetch.
  destruct (decide (4 <= n)%nat) as [Hge|Hlt].
  { pose proof (slices_run_to_end env sha file cbd w) as H4.
    apply (slices_completed _ _ _ _ _ (n - 4)) in H4.
    replace (4 + (n - 4))%nat with n in H4 by lia. congruence. }
  assert (Hdirs : forall (D : gset string) d,
            d ∈ dir_chain (dirname (path_join cbd file)) ->
            d ∈ list_to_set (dir_chain (dirname (path_join cbd file))) ∪ D).
  { intros D d Hd. apply elem_of_union. left. by apply elem_of_list_to_set. }
  destruct n as [|[|[|[|n]]]]; [| | | |lia];
    unfold slices, resume, on_failure; run_M; rewrite ?Hfetch; simpl.
  - by intros [= <- <-].
  - destruct (String.eqb (dirname (path_join cbd file)) ""); simpl;
      [congruence|].
    destruct (makedirs_fault env _) as [e|]; simpl.
    + destruct e; simpl; try congruence.
      destruct (contains deletion_marker msg); simpl; congruence.
    + intros [= <- <-]. simpl. repeat split; try done. apply Hdirs.
  - destruct (String.eqb (dirname (path_join cbd file)) ""); simpl;
      [congruence|].
    destruct (makedirs_fault env _) as [e|]; simpl.
    + destruct e; simpl; try congruence.
      destruct (contains deletion_marker msg); simpl; congruence.
    + destruct (write_fault env _ content) as [[e|k e]|] eqn:Hw; simpl;
        rewrite ?Hw; simpl.
      * destruct e; simpl; try congruence.
        destruct (contains deletion_marker msg); simpl; congruence.
      * by intros [= <- <-].
      * by intros [= <- <-].
  - destruct (String.eqb (dirname (path_join cbd file)) ""); simpl;
      [congruence|].
    destruct (makedirs_fault env _) as [e|]; simpl.
    + destruct e; simpl; try congruence.
      destruct (contains deletion_marker msg); simpl; congruence.
    + destruct (write_fault env _ content) as [[e|k e]|] eqn:Hw; simpl;
        rewrite ?Hw; simpl.
      * destruct e; simpl; try congruence.
        destruct (contains deletion_marker msg); simpl; congruence.
      * intros [= <- <-]. simpl. split; [done|]. exists k.
        by rewrite insert_insert_eq.
      * intros [= <- <-]. simpl. by rewrite insert_insert_eq.
Qed.

(** ** Snapshot writer *)

(** C7, as stated, fails: on a full disk the destination is opened, which
    creates it, and the failed write leaves it behind, empty, where no
    file was before; the failure is on record. *)
Lemma partial_file_left :
  let result :=
    process_file disk_full_env "c1" "a.txt" "data/c1" empty_world in
  result.2 = Raises (backup_error "a.txt"
                       (OSError "[Errno 28] No space left on device"))
  /\ failed_files result.1 = [("c1", "a.txt")]
  /\ w_files empty_world !! "data/c1/a.txt" = None
  /\ w_files result.1 !! "data/c1/a.txt" = Some ""
  /\ ~ spec_write_atomic disk_full_env "c1" "a.txt" "data/c1" empty_world.
Proof.
  intros result. repeat split; try reflexivity.
  unfold spec_write_atomic. fold result.
  assert (Hr : result.2
               = Raises (backup_error "a.txt"
                           (OSError "[Errno 28] No space left on device")))
    by reflexivity.
  assert (Hw : w_files result.1 !! "data/c1/a.txt" = Some "") by reflexivity.
  destruct result as [w' r]. simpl in Hr, Hw. rewrite Hr.
  intros H. rewrite H in Hw. discriminate Hw.
Qed.

(** C7, amended: when the content of a file has been fetched, the
    directory of the destination and every directory above it are created
    before the destination is opened.  A file unit that runs to its end
    either meets no error, and leaves exactly the content at the
    destination and no FailureRecord, or raises and appends exactly one
    FailureRecord, the files of the tree being then untouched or holding,
    at the destination, the part of the content written before the error.
    A file unit that has not run to its end, where the run can end once
    its commit task has stopped waiting, has appended no record: while
    the fetch is outstanding nothing is touched; once the content is
    fetched and before the destination is opened, its directories exist
    and the files are untouched; once it is opened, the destination is
    created or truncated and empty; once the write is over, the
    destination holds the content, or the part written when the write
    failed. *)
Theorem write_completes_or_is_recorded env sha file commit_backup_dir w
    content :
  show_file env sha file = Returns content ->
  let file_path := path_join commit_backup_dir file in
  (let '(w', r) := process_file env sha file commit_backup_dir w in
   (forall p data,
      unit_write env commit_backup_dir sha file = Some (p, data) ->
      p = file_path
      /\ (exists rest,
            w_trace w'
            = w_trace w
              ++ [AFetch sha file; AMakedirs (dirname file_path);
                  AOpen file_path] ++ rest)
      /\ (forall d, d ∈ dir_chain (dirname file_path) -> d ∈ w_dirs w'))
   /\ match unit_exception env commit_backup_dir sha file with
      | None =>
          r = Returns tt
          /\ w_files w' = <[file_path := content]> (w_files w)
          /\ failed_files w' = failed_files w
      | Some e =>
          is_deletion e = false ->
          r = Raises (backup_error file e)
          /\ failed_files w' = failed_files w ++ [(sha, file)]
          /\ (w_files w' = w_files w
              \/ exists written,
                   w_files w'
                   = <[file_path := take_string written content]> (w_files w))
      end)
  /\ (forall n,
        let '(w', reached) :=
          slices env sha file commit_backup_dir n Fetching w in
        match reached with
        | Completed r =>
            (w', r) = process_file env sha file commit_backup_dir w
        | Suspended p =>
            failed_files w' = failed_files w
            /\ match p with
               | Fetching => w' = w
               | Opening c =>
                   c = content /\ w_files w' = w_files w
                   /\ (forall d, d ∈ dir_chain (dirname file_path) ->
                                 d ∈ w_dirs w')
               | Writing c =>
                   c = content
                   /\ w_files w' = <[file_path := ""]> (w_files w)
               | Closing None =>
                   w_files w' = <[file_path := content]> (w_files w)
               | Closing (Some e) =>
                   exists written,
                     write_fault env file_path content
                     = Some (WriteFails written e)
                     /\ w_files w'
                        = <[file_path := take_string written content]>
                            (w_files w)
               end
        end).
Proof.
  intros Hfetch. cbv zeta. split.
  2:{ intros n.
      destruct (slices env sha file commit_backup_dir n Fetching w)
        as [w' [p|r]] eqn:Hs.
      - by apply (slices_suspended env sha file commit_backup_dir n).
      - by apply (slices_completed_is_process_file _ _ _ _ n). }
  unfold unit_write, unit_exception, is_deletion. rewrite Hfetch. run_M.
  rewrite Hfetch. simpl.
  assert (Hdirs : forall (D : gset string) d,
            d ∈ dir_chain (dirname (path_join commit_backup_dir file)) ->
            d ∈ list_to_set
                  (dir_chain (dirname (path_join commit_backup_dir file)))
                ∪ D).
  { intros D d Hd. apply elem_of_union. left. by apply elem_of_list_to_set. }
  destruct (String.eqb (dirname (path_join commit_backup_dir file)) "");
    simpl;
    [|destruct (makedirs_fault env _) as [e|]; simpl;
      [destruct e; simpl; try destruct (contains deletion_marker msg); simpl
      |destruct (write_fault env _ content) as [[e|n e]|]; simpl;
       [destruct e; simpl; try destruct (contains deletion_marker msg); simpl
       |destruct e; simpl; try destruct (contains deletion_marker msg); simpl
       |]]].
  all: split;
    [intros p data Hw;
     first [discriminate Hw
           |injection Hw as <- <-; split; [done|]; split;
            [rewrite <- !app_assoc; simpl; eexists; reflexivity
            |by apply Hdirs]]
    |first [done
           |intros _; split; [done|]; split; [done|];
            first [by left|right; by eauto]]].
Qed.

Lemma write_completes_or_is_recorded_witness :
  show_file disk_full_env "c1" "a.txt" = Returns "data"
  /\ (let '(w', r) :=
        process_file disk_full_env "c1" "a.txt" "data/c1" empty_world in
      r = Raises (backup_error "a.txt"
                    (OSError "[Errno 28] No space left on device"))
      /\ failed_files w' = [("c1", "a.txt")]
      /\ "data/c1" ∈ w_dirs w')
  /\ (let '(w', reached) :=
        slices disk_full_env "c1" "a.txt" "data/c1" 2 Fetching empty_world in
      reached = Suspended (Writing "data")
      /\ failed_files w' = []
      /\ w_files w' = <["data/c1/a.txt" := ""]> ∅).
Proof.
  split; [reflexivity|].
  pose proof (write_completes_or_is_recorded disk_full_env "c1" "a.txt"
                "data/c1" empty_world "data" eq_refl) as H.
  cbv zeta in H. destruct H as [H Hcut]. split.
  - destruct (process_file disk_full_env "c1" "a.txt" "data/c1" empty_world)
      as [w' r].
    destruct H as [Hdirs Hrec].
    destruct (Hrec eq_refl) as (Hr&Hf&_).
    split; [exact Hr|]. split; [exact Hf|].
    destruct (Hdirs "data/c1/a.txt" "" eq_refl) as (_&_&Hd).
    apply Hd. by apply (bool_decide_unpack _).
  - specialize (Hcut 2%nat).
    assert (Hreached : (slices disk_full_env "c1" "a.txt" "data/c1" 2
                          Fetching empty_world).2
                       = Suspended (Writing "data")) by reflexivity.
    destruct (slices disk_full_env "c1" "a.txt" "data/c1" 2 Fetching
                empty_world) as [w' reached].
    simpl in Hreached. subst reached.
    destruct Hcut as (Hf&_&Hw). split; [reflexivity|].
    split; [exact Hf|exact Hw].
Defined.

(** ** Destination paths *)

Lemma append_cons (x : ascii) (a b : string) :
  String x a +:+ b = String x (a +:+ b).
Proof. reflexivity. Qed.

Lemma append_nil_l (b : string) : "" +:+ b = b.
Proof. reflexivity. Qed.

Ltac push_append := rewrite ?append_cons, ?append_nil_l in *.

Lemma append_assoc_str (a b c : string) : (a +:+ b) +:+ c = a +:+ (b +:+ c).
Proof.
  induction a as [|x a IH]; push_append; [done|]. by rewrite IH.
Qed.

Lemma append_cancel_l (p a b : string) : p +:+ a = p +:+ b -> a = b.
Proof.
  induction p as [|x p IH]; push_append; [done|]. intros [= H]. by apply IH.
Qed.

Lemma append_empty (a b : string) : a +:+ b = "" -> b = "".
Proof. destruct a; push_append; [done|discriminate]. Qed.

Lemma ends_with_slash_append (p s : string) :
  s <> "" -> ends_with_slash (p +:+ s) = ends_with_slash s.
Proof.
  intros Hs. induction p as [|x p IH]; push_append; [done|]. simpl.
  destruct (p +:+ s) eqn:E; [|done].
  apply append_empty in E. done.
Qed.

Lemma no_slash_no_end (s : string) :
  has_slash s = false -> ends_with_slash s = false.
Proof.
  induction s as [|x s IH]; simpl; [done|].
  intros H. apply orb_false_iff in H as [Hx Hs].
  destruct s; [done|]. by apply IH.
Qed.

Lemma sha_ok_spec sha :
  sha_ok sha = true <-> sha <> "" /\ has_slash sha = false.
Proof.
  unfold sha_ok. rewrite andb_true_iff, !negb_true_iff, String.eqb_neq. done.
Qed.

Lemma sha_ok_no_start sha : sha_ok sha = true -> starts_with_slash sha = false.
Proof.
  intros H. apply sha_ok_spec in H as [_ H].
  destruct sha as [|x sha]; simpl in *; [done|].
  by apply orb_false_iff in H as [? _].
Qed.

(** The directory of a commit. *)
Lemma commit_dir_shape backup_dir sha :
  sha_ok sha = true ->
  path_join backup_dir sha = join_prefix backup_dir +:+ sha.
Proof.
  intros H. unfold path_join, join_prefix. rewrite (sha_ok_no_start _ H).
  destruct (String.eqb backup_dir "" || ends_with_slash backup_dir); [done|].
  by rewrite append_assoc_str.
Qed.

(** The destination of a unit: the layout
    [backup_root/<commit_id>/<relative_file_path>]. *)
Lemma dest_path_shape backup_dir sha file :
  sha_ok sha = true ->
  relative file = true ->
  dest_path backup_dir sha file
  = join_prefix backup_dir +:+ sha +:+ "/" +:+ file.
Proof.
  intros Hsha Hrel. unfold dest_path.
  rewrite (commit_dir_shape _ _ Hsha). unfold path_join at 1.
  unfold relative in Hrel. apply negb_true_iff in Hrel. rewrite Hrel.
  apply sha_ok_spec in Hsha as [Hne Hns].
  rewrite ends_with_slash_append, (no_slash_no_end _ Hns) by done.
  destruct (String.eqb (join_prefix backup_dir +:+ sha) "") eqn:E.
  - apply String.eqb_eq in E. apply append_empty in E. done.
  - simpl. by rewrite append_assoc_str.
Qed.

Lemma slash_split_inj (s1 s2 f1 f2 : string) :
  has_slash s1 = false ->
  has_slash s2 = false ->
  s1 +:+ "/" +:+ f1 = s2 +:+ "/" +:+ f2 ->
  s1 = s2 /\ f1 = f2.
Proof.
  revert s2. induction s1 as [|x s1 IH]; intros [|y s2]; push_append; simpl.
  - intros _ _ [= ->]. done.
  - intros _ H [= <- _]. by apply orb_false_iff in H as [? _].
  - intros H _ [= -> _]. by apply orb_false_iff in H as [? _].
  - intros H1 H2 [= -> H]. apply orb_false_iff in H1 as [_ H1].
    apply orb_false_iff in H2 as [_ H2].
    destruct (IH s2 H1 H2 H) as [-> ->]. done.
Qed.

(** Well-formed units with the same destination are the same unit. *)
Lemma dest_path_inj backup_dir sha1 file1 sha2 file2 :
  sha_ok sha1 = true -> sha_ok sha2 = true ->
  relative file1 = true -> relative file2 = true ->
  dest_path backup_dir sha1 file1 = dest_path backup_dir sha2 file2 ->
  sha1 = sha2 /\ file1 = file2.
Proof.
  intros Hs1 Hs2 Hr1 Hr2.
  rewrite !dest_path_shape by done. intros H.
  apply append_cancel_l in H.
  apply sha_ok_spec in Hs1 as [_ Hs1]. apply sha_ok_spec in Hs2 as [_ Hs2].
  by apply slash_split_inj.
Qed.

Example dest_path_layout :
  dest_path "./data" "c1" "src/a.txt" = "./data/c1/src/a.txt".
Proof. reflexivity. Qed.

(** Without well-formed identifiers the layout is ambiguous. *)
Example dest_path_needs_sha_ok :
  dest_path "data" "a" "b/c" = dest_path "data" "a/b" "c".
Proof. reflexivity. Qed.





(** ** Re-running the pipeline *)

Lemma unit_clean_not_hard env cbd sha file :
  unit_clean env cbd sha file = true -> hard_failure env cbd sha file = false.
Proof.
  unfold unit_clean, hard_failure, unit_exception.
  destruct (show_file env sha file) as [content|e]; simpl.
  - destruct (String.eqb _ ""); [done|].
    destruct (makedirs_fault env _); [done|].
    by destruct (write_fault env _ content) as [[|]|].
  - by intros ->.
Qed.

Lemma unit_clean_write env cbd sha file :
  unit_clean env cbd sha file = true ->
  unit_write env cbd sha file
  = match show_file env sha file with
    | Returns content => Some (path_join cbd file, content)
    | Raises _ => None
    end.
Proof.
  unfold unit_clean, unit_write, unit_exception.
  destruct (show_file env sha file) as [content|e]; simpl; [|done].
  destruct (String.eqb _ ""); [done|].
  destruct (makedirs_fault env _); [done|].
  by destruct (write_fault env _ content) as [[|]|].
Qed.

(** Running a unit again on the tree it left changes nothing. *)
Lemma process_file_idempotent env sha file cbd w :
  tree (process_file env sha file cbd (process_file env sha file cbd w).1).1
  = tree (process_file env sha file cbd w).1.
Proof.
  unfold tree. rewrite !process_file_files, !process_file_dirs.
  f_equal.
  - destruct (unit_mkdir env cbd sha file); [|done].
    by rewrite (assoc_L (∪)), (idemp_L (∪)).
  - destruct (unit_write env cbd sha file) as [[p c]|]; [|done].
    apply insert_insert_eq.
Qed.

Lemma completion_order_perm commits perm sha :
  perm ≡ₚ seq 0 (length commits) ->
  sha ∈ completion_order commits perm <-> exists c, c ∈ commits /\ hexsha c = sha.
Proof.
  intros Hperm. split; [apply completion_order_elem|].
  intros (c&Hc&<-). unfold completion_order.
  apply list_elem_of_lookup_1 in Hc as [i Hi].
  apply list_elem_of_omap. exists i. split; [|by rewrite Hi].
  rewrite Hperm. apply list_elem_of_In, in_seq.
  apply lookup_lt_Some in Hi. lia.
Qed.

Lemma extract_elem env completed w sha files :
  (sha, files) ∈ (extract_changed_files env completed w).1
  <-> sha ∈ completed /\ show_names env sha = Returns files.
Proof.
  pose proof (extract_changed_files_spec env completed w) as Hspec.
  destruct (extract_changed_files env completed w) as [cmap w'].
  destruct Hspec as (Hkeys&Hmem&Hget&_). simpl. split; [apply Hmem|].
  intros [Hc Hs]. apply dict_get_elem; [done|]. by apply Hget.
Qed.

Lemma extract_tree env completed w :
  tree (extract_changed_files env completed w).2 = tree w.
Proof.
  pose proof (extract_changed_files_spec env completed w) as Hspec.
  destruct (extract_changed_files env completed w) as [cmap w'].
  by destruct Hspec as (_&_&_&Htree&_).
Qed.

(** Every unit of the map is carried by some task. *)
Lemma task_of_unit (cmap : ChangedFileMap) sha files file :
  (sha, files) ∈ cmap -> file ∈ files ->
  exists k i, cmap !! k = Some (sha, files)
              /\ (i < length files)%nat
              /\ task_unit cmap (k, i) = Some (sha, file).
Proof.
  intros Hin Hf.
  apply list_elem_of_lookup_1 in Hin as [k Hk].
  apply list_elem_of_lookup_1 in Hf as [i Hi].
  exists k, i. split; [done|]. split; [by apply lookup_lt_Some in Hi|].
  unfold task_unit. simpl. by rewrite Hk, Hi.
Qed.

(** Under an admissible schedule, every file task of a commit none of
    whose units fails hard has completed. *)
Lemma run_stageB_all_done env backup_dir cmap sched w k sha files i :
  (forall sha files, (sha, files) ∈ cmap ->
     setup_succeeds env backup_dir sha = true) ->
  admissible env backup_dir cmap sched w ->
  cmap !! k = Some (sha, files) ->
  (forall file, file ∈ files ->
     hard_failure env (path_join backup_dir sha) sha file = false) ->
  (i < length files)%nat ->
  (k, i) ∈ sb_done (run_stageB env backup_dir cmap sched w).
Proof.
  intros Hok (_&_&Hover) Hk Hnone Hi.
  destruct (start_commits_ok env backup_dir cmap (stageB_init w) 0%nat Hok)
    as (_&Hesc0&_).
  destruct (run_stageB_static env backup_dir cmap sched w) as [_ Hesc].
  rewrite Hesc0 in Hesc. simpl in Hesc.
  assert (Hfin : k ∈ sb_finished (run_stageB env backup_dir cmap sched w)).
  { apply (stageB_over_finished cmap); [done|done|].
    by apply lookup_lt_Some in Hk. }
  destruct (run_stageB_finished env backup_dir cmap sched w Hok k Hfin)
    as [Hc|(j&sha'&file'&_&Hu&Hh)].
  - by apply (commit_complete_done cmap _ k sha files).
  - apply task_unit_entry in Hu as (files'&Hk'&Hj). simpl in Hk', Hj.
    rewrite Hk in Hk'. injection Hk' as <- <-.
    rewrite Hnone in Hh; [done|]. by apply list_elem_of_lookup_2 in Hj.
Qed.

Lemma start_commits_dirs env backup_dir entries : forall s k d,
  (forall sha files, (sha, files) ∈ entries ->
     setup_succeeds env backup_dir sha = true) ->
  d ∈ w_dirs (sb_world (start_commits env backup_dir s k entries))
  <-> d ∈ w_dirs (sb_world s)
      \/ exists sha files,
           (sha, files) ∈ entries /\ d ∈ dir_chain (path_join backup_dir sha).
Proof.
  induction entries as [|[sha files] rest IH]; intros s k d Hok; simpl.
  - split; [by left|]. intros [?|(?&?&H&_)]; [done|].
    by apply elem_of_nil in H.
  - assert (Hsha : setup_succeeds env backup_dir sha = true).
    { apply (Hok sha files). left. }
    rewrite IH by (intros sha' files' Hin; apply (Hok sha' files');
                   by right).
    unfold start_commit. rewrite (commit_setup_ok _ _ _ _ Hsha). simpl.
    rewrite elem_of_union, elem_of_list_to_set. split.
    + intros [[Hd|Hd]|(sha'&files'&Hin&Hd)].
      * right. exists sha, files. split; [left|done].
      * by left.
      * right. exists sha', files'. split; [by right|done].
    + intros [Hd|(sha'&files'&Hin&Hd)]; [left; by right|].
      apply elem_of_cons in Hin as [[= -> ->]|Hin]; [left; by left|].
      right. eauto.
Qed.

(** The files of the tree after any schedule, when no two tasks disagree
    on what a path holds: every completed task's data is at its path, and
    a path differs from before only if a completed task wrote it. *)
Lemma run_stageB_files env backup_dir cmap sched w :
  (forall t t' p c c',
     task_write env backup_dir cmap t = Some (p, c) ->
     task_write env backup_dir cmap t' = Some (p, c') -> c = c') ->
  let s := run_stageB env backup_dir cmap sched w in
  (forall t p c, t ∈ sb_done s ->
     task_write env backup_dir cmap t = Some (p, c) ->
     w_files (sb_world s) !! p = Some c)
  /\ (forall p, w_files (sb_world s) !! p = w_files w !! p
                \/ exists t c, t ∈ sb_done s
                     /\ task_write env backup_dir cmap t = Some (p, c)).
Proof.
  intros Hfun. cbv zeta. apply run_stageB_ind; cbv beta.
  - destruct (start_commits_keeps env backup_dir cmap (stageB_init w) 0)
      as (->&_&->). simpl. split; [|by left].
    intros t p c Hin. by apply elem_of_nil in Hin.
  - intros s t [IH1 IH2]. destruct (fires cmap s t) eqn:Hf;
      [|by rewrite unit_done_skip].
    destruct (proj1 (fires_true _ _ _) Hf) as ([[sha file] Hu]&_).
    destruct (unit_done_fires env backup_dir cmap s t sha file Hf Hu)
      as (->&_&_&_&Htree&_).
    injection Htree as _ ->. rewrite process_file_files.
    assert (Hw : task_write env backup_dir cmap t
                 = unit_write env (path_join backup_dir sha) sha file).
    { unfold task_write. by rewrite Hu. }
    destruct (unit_write env (path_join backup_dir sha) sha file)
      as [[p0 c0]|] eqn:Huw.
    + split.
      * intros t' p c Hin Hw'. destruct (decide (p0 = p)) as [->|Hne].
        -- rewrite lookup_insert_eq. f_equal. by apply (Hfun t t' p).
        -- rewrite lookup_insert_ne by done.
           apply elem_of_app in Hin as [Hin|Hin]; [by apply (IH1 t')|].
           apply list_elem_of_singleton in Hin as ->. congruence.
      * intros p. destruct (decide (p0 = p)) as [->|Hne].
        -- right. exists t, c0. split; [|done].
           apply elem_of_app. right. apply list_elem_of_here.
        -- rewrite lookup_insert_ne by done.
           destruct (IH2 p) as [?|(t'&c&Hin&Hw')]; [by left|].
           right. exists t', c. split; [|done]. apply elem_of_app. by left.
    + split.
      * intros t' p c Hin Hw'.
        apply elem_of_app in Hin as [Hin|Hin]; [by apply (IH1 t')|].
        apply list_elem_of_singleton in Hin as ->. congruence.
      * intros p. destruct (IH2 p) as [?|(t'&c&Hin&Hw')]; [by left|].
        right. exists t', c. split; [|done]. apply elem_of_app. by left.
Qed.

(** The directories of the tree after any schedule: those found, those of
    the commits, and those created by the completed tasks. *)
Lemma run_stageB_dirs env backup_dir cmap sched w :
  (forall sha files, (sha, files) ∈ cmap ->
     setup_succeeds env backup_dir sha = true) ->
  let s := run_stageB env backup_dir cmap sched w in
  forall d,
    d ∈ w_dirs (sb_world s)
    <-> d ∈ w_dirs w
        \/ (exists sha files,
              (sha, files) ∈ cmap /\ d ∈ dir_chain (path_join backup_dir sha))
        \/ (exists t q, t ∈ sb_done s
              /\ task_mkdir env backup_dir cmap t = Some q
              /\ d ∈ dir_chain q).
Proof.
  intros Hok. cbv zeta. apply run_stageB_ind; cbv beta.
  - intros d. rewrite start_commits_dirs by done.
    destruct (start_commits_keeps env backup_dir cmap (stageB_init w) 0)
      as (->&_). simpl. split.
    + intros [?|?]; [by left|right; by left].
    + intros [?|[?|(t&q&Hin&_)]]; [by left|by right|].
      by apply elem_of_nil in Hin.
  - intros s t IH d. destruct (fires cmap s t) eqn:Hf;
      [|by rewrite unit_done_skip].
    destruct (proj1 (fires_true _ _ _) Hf) as ([[sha file] Hu]&_).
    destruct (unit_done_fires env backup_dir cmap s t sha file Hf Hu)
      as (->&_&_&_&Htree&_).
    injection Htree as -> _. rewrite process_file_dirs.
    assert (Hm : task_mkdir env backup_dir cmap t
                 = unit_mkdir env (path_join backup_dir sha) sha file).
    { unfold task_mkdir. by rewrite Hu. }
    destruct (unit_mkdir env (path_join backup_dir sha) sha file)
      as [q0|] eqn:Hum.
    + rewrite elem_of_union, elem_of_list_to_set, IH. split.
      * intros [Hd|[Hd|[Hd|(t'&q&Hin&Hq&Hd)]]].
        -- right. right. exists t, q0. split; [|done].
           apply elem_of_app. right. apply list_elem_of_here.
        -- by left.
        -- right. by left.
        -- right. right. exists t', q. split; [|done].
           apply elem_of_app. by left.
      * intros [Hd|[Hd|(t'&q&Hin&Hq&Hd)]].
        -- right. by left.
        -- right. right. by left.
        -- apply elem_of_app in Hin as [Hin|Hin].
           ++ right. right. right. eauto.
           ++ apply list_elem_of_singleton in Hin as ->.
              left. congruence.
    + rewrite IH. split.
      * intros [Hd|[Hd|(t'&q&Hin&Hq&Hd)]]; [by left|right; by left|].
        right. right. exists t', q. split; [|done].
        apply elem_of_app. by left.
      * intros [Hd|[Hd|(t'&q&Hin&Hq&Hd)]]; [by left|right; by left|].
        apply elem_of_app in Hin as [Hin|Hin]; [right; right; eauto|].
        apply list_elem_of_singleton in Hin as ->. congruence.
Qed.

(** C6, as stated, fails: with one commit of three files of which only
    [c.txt] can be read, a first run in which the failed fetch of [a.txt]
    completes first ends without [c.txt]; a second run over the same
    commit, on the tree the first one left, in which [c.txt] completes
    first, writes it.  The two trees differ, as do the trees of the two
    runs started on the same tree; and the unreadable [a.txt], a
    BackupUnit of the commit, is in neither. *)
Lemma rerun_differs_after_failure :
  let run1 :=
    backup_files flaky_env "data" "main" None None [0%nat] [(0, 0)%nat]
      empty_world in
  let run2 :=
    backup_files flaky_env "data" "main" None None [0%nat]
      [(0, 2); (0, 0)]%nat run1.1 in
  let other :=
    backup_files flaky_env "data" "main" None None [0%nat]
      [(0, 2); (0, 0)]%nat empty_world in
  run_admissible flaky_env "data" "main" None None [0%nat] [(0, 0)%nat]
    empty_world
  /\ run_admissible flaky_env "data" "main" None None [0%nat]
       [(0, 2); (0, 0)]%nat run1.1
  /\ run_admissible flaky_env "data" "main" None None [0%nat]
       [(0, 2); (0, 0)]%nat empty_world
  /\ w_files run1.1 !! "data/c1/c.txt" = None
  /\ w_files run2.1 !! "data/c1/c.txt" = Some "data"
  /\ w_files other.1 !! "data/c1/c.txt" = Some "data"
  /\ repo_unit flaky_env [mkCommit "c1" 1672531200] "c1" "a.txt"
  /\ w_files run2.1 !! "data/c1/a.txt" = None
  /\ ~ spec_rerun_identical flaky_env "data" "main" None None
         [0%nat] [(0, 0)%nat] [0%nat] [(0, 2); (0, 0)]%nat empty_world.
Proof.
  intros run1 run2 other.
  assert (Hadm : forall w,
            admissible flaky_env "data" [("c1", ["a.txt"; "b.txt"; "c.txt"])]
              [(0, 2); (0, 0)]%nat w).
  { intros w. split; [by apply (bool_decide_unpack _)|].
    split; [|reflexivity]. intros t Ht.
    apply elem_of_cons in Ht as [->|Ht]; [split; [by eexists|]|].
    { by apply (bool_decide_unpack _). }
    apply list_elem_of_singleton in Ht as ->. split; [by eexists|].
    by apply (bool_decide_unpack _). }
  assert (H1 : w_files run1.1 !! "data/c1/c.txt" = None) by reflexivity.
  assert (H2 : w_files run2.1 !! "data/c1/c.txt" = Some "data")
    by reflexivity.
  split; [|split; [|split]].
  - split; [reflexivity|]. split; [by apply (bool_decide_unpack _)|].
    split; [|reflexivity]. intros t Ht.
    apply list_elem_of_singleton in Ht as ->. split; [by eexists|].
    by apply (bool_decide_unpack _).
  - split; [reflexivity|]. apply Hadm.
  - split; [reflexivity|]. apply Hadm.
  - split; [exact H1|]. split; [exact H2|]. split; [reflexivity|].
    split.
    { exists (mkCommit "c1" 1672531200), ["a.txt"; "b.txt"; "c.txt"].
      split; [apply list_elem_of_here|]. split; [reflexivity|].
      split; [reflexivity|]. apply list_elem_of_here. }
    split; [reflexivity|].
    unfold spec_rerun_identical. fold run1. fold run2. unfold tree.
    intros Heq.
    assert (Hfiles : w_files run2.1 = w_files run1.1)
      by exact (f_equal snd Heq).
    rewrite Hfiles, H1 in H2. discriminate H2.
Qed.

Section CleanRuns.
Context (env : Env) (backup_dir branch : string).
Context (start_date end_date : option string) (commits : list Commit).

Hypothesis selected :
  get_commits env branch start_date end_date = Returns commits.
Hypothesis commits_ok : forall c, c ∈ commits ->
  sha_ok (hexsha c) = true
  /\ setup_succeeds env backup_dir (hexsha c) = true.
Hypothesis units_ok : forall c files file,
  c ∈ commits -> show_names env (hexsha c) = Returns files ->
  file ∈ files ->
  relative file = true
  /\ unit_clean env (path_join backup_dir (hexsha c)) (hexsha c) file
     = true.

Lemma repo_unit_ok sha file :
  repo_unit env commits sha file ->
  sha_ok sha = true /\ relative file = true
  /\ unit_clean env (path_join backup_dir sha) sha file = true.
Proof.
  intros (c&files&Hc&<-&Hs&Hf).
  destruct (commits_ok c Hc) as [? _].
  destruct (units_ok c files file Hc Hs Hf). done.
Qed.

(** The tree a run leaves, whatever the two orders. *)
Lemma backup_files_clean perm sched w :
  run_admissible env backup_dir branch start_date end_date perm sched w ->
  let run :=
    backup_files env backup_dir branch start_date end_date perm sched w in
  run.2 = Returns tt
  /\ (forall sha file content,
        repo_unit env commits sha file ->
        show_file env sha file = Returns content ->
        w_files run.1 !! dest_path backup_dir sha file = Some content)
  /\ (forall p,
        w_files run.1 !! p = w_files w !! p
        \/ exists sha file content,
             repo_unit env commits sha file
             /\ show_file env sha file = Returns content
             /\ p = dest_path backup_dir sha file)
  /\ (forall d,
        d ∈ w_dirs run.1
        <-> d ∈ w_dirs w
            \/ (exists sha, repo_entry env commits sha
                            /\ d ∈ dir_chain (path_join backup_dir sha))
            \/ (exists sha file q,
                  repo_unit env commits sha file
                  /\ unit_mkdir env (path_join backup_dir sha) sha file
                     = Some q
                  /\ d ∈ dir_chain q)).
Proof.
  unfold run_admissible, backup_files. rewrite selected.
  intros [Hperm Hadm].
  set (completed := completion_order commits perm) in *.
  pose proof (extract_tree env completed w) as Htree.
  assert (Hcm : forall sha files,
            (sha, files) ∈ (extract_changed_files env completed w).1
            <-> (exists c, c ∈ commits /\ hexsha c = sha)
                /\ show_names env sha = Returns files).
  { intros sha files. rewrite extract_elem.
    unfold completed. by rewrite completion_order_perm. }
  destruct (extract_changed_files env completed w) as [cmap w1].
  simpl in *. injection Htree as Hd1 Hf1.
  set (s := run_stageB env backup_dir cmap sched w1).
  assert (Hok : forall sha files, (sha, files) ∈ cmap ->
                  setup_succeeds env backup_dir sha = true).
  { intros sha files Hin. apply Hcm in Hin as [(c&Hc&<-) _].
    by destruct (commits_ok c Hc). }
  assert (Hunit : forall t sha file, task_unit cmap t = Some (sha, file) ->
                    repo_unit env commits sha file).
  { intros t sha file Hu. apply task_unit_entry in Hu as (files&Hk&Hi).
    apply list_elem_of_lookup_2 in Hk. apply list_elem_of_lookup_2 in Hi.
    apply Hcm in Hk as [(c&Hc&<-) Hs]. by exists c, files. }
  assert (Hdone : forall sha file, repo_unit env commits sha file ->
            exists t, t ∈ sb_done s /\ task_unit cmap t = Some (sha, file)).
  { intros sha file (c&files&Hc&<-&Hs&Hf).
    assert (Hin : (hexsha c, files) ∈ cmap) by (apply Hcm; eauto).
    destruct (task_of_unit cmap _ _ _ Hin Hf) as (k&i&Hk&Hi&Hu).
    exists (k, i). split; [|done].
    apply (run_stageB_all_done env backup_dir cmap sched w1 k (hexsha c)
             files i Hok Hadm Hk); [|done].
    intros file' Hf'. apply unit_clean_not_hard.
    by destruct (units_ok c files file' Hc Hs Hf'). }
  assert (Hwrite : forall t sha file p c,
            task_unit cmap t = Some (sha, file) ->
            task_write env backup_dir cmap t = Some (p, c) ->
            show_file env sha file = Returns c
            /\ p = dest_path backup_dir sha file).
  { intros t sha file p c Hu. unfold task_write. rewrite Hu.
    destruct (repo_unit_ok sha file (Hunit _ _ _ Hu)) as (_&_&Hclean).
    rewrite (unit_clean_write _ _ _ _ Hclean).
    destruct (show_file env sha file); [|done]. by intros [= <- <-]. }
  assert (Hfun : forall t t' p c c',
            task_write env backup_dir cmap t = Some (p, c) ->
            task_write env backup_dir cmap t' = Some (p, c') -> c = c').
  { intros t t' p c c' H1 H2.
    destruct (task_unit cmap t) as [[sha file]|] eqn:Hu;
      [|unfold task_write in H1; by rewrite Hu in H1].
    destruct (task_unit cmap t') as [[sha' file']|] eqn:Hu';
      [|unfold task_write in H2; by rewrite Hu' in H2].
    destruct (Hwrite _ _ _ _ _ Hu H1) as [Hc ->].
    destruct (Hwrite _ _ _ _ _ Hu' H2) as [Hc' Heq].
    destruct (repo_unit_ok _ _ (Hunit _ _ _ Hu)) as (?&?&_).
    destruct (repo_unit_ok _ _ (Hunit _ _ _ Hu')) as (?&?&_).
    apply dest_path_inj in Heq as [-> ->]; [|done..]. congruence. }
  destruct (run_stageB_files env backup_dir cmap sched w1 Hfun)
    as [HF1 HF2].
  pose proof (run_stageB_dirs env backup_dir cmap sched w1 Hok) as HD.
  fold s in HF1, HF2, HD.
  assert (Hesc : sb_escaped s = None).
  { destruct (start_commits_ok env backup_dir cmap (stageB_init w1) 0%nat
                Hok) as (_&Hesc0&_).
    destruct (run_stageB_static env backup_dir cmap sched w1) as [_ Hesc].
    fold s in Hesc. by rewrite Hesc, Hesc0. }
  rewrite Hesc. simpl. split; [done|]. split; [|split].
  - intros sha file content Hru Hshow.
    destruct (Hdone sha file Hru) as (t&Ht&Hu).
    apply (HF1 t); [done|]. unfold task_write. rewrite Hu.
    destruct (repo_unit_ok sha file Hru) as (_&_&Hclean).
    rewrite (unit_clean_write _ _ _ _ Hclean), Hshow. done.
  - intros p. rewrite <- Hf1.
    destruct (HF2 p) as [?|(t&c&Ht&Hw)]; [by left|]. right.
    destruct (task_unit cmap t) as [[sha file]|] eqn:Hu;
      [|unfold task_write in Hw; by rewrite Hu in Hw].
    destruct (Hwrite _ _ _ _ _ Hu Hw) as [Hc ->].
    exists sha, file, c. eauto.
  - intros d. rewrite HD, Hd1. split.
    + intros [?|[(sha&files&Hin&Hd)|(t&q&Ht&Hq&Hd)]]; [by left| |].
      * right. left. exists sha. split; [|done].
        apply Hcm in Hin as [(c&Hc&<-) Hs]. by exists c, files.
      * right. right.
        destruct (task_unit cmap t) as [[sha file]|] eqn:Hu;
          [|unfold task_mkdir in Hq; by rewrite Hu in Hq].
        exists sha, file, q. split; [by apply (Hunit t)|].
        unfold task_mkdir in Hq. by rewrite Hu in Hq.
    + intros [?|[(sha&(c&files&Hc&<-&Hs)&Hd)|(sha&file&q&Hru&Hq&Hd)]];
        [by left| |].
      * right. left. exists (hexsha c), files. split; [|done].
        apply Hcm. eauto.
      * right. right. destruct (Hdone sha file Hru) as (t&Ht&Hu).
        exists t, q. split; [done|]. split; [|done].
        unfold task_mkdir. by rewrite Hu.
Qed.

(** C6, amended: in a run where every unit goes through (its content is fetched
    and written in full, or its file is reported deleted), with
    well-formed names, writing a unit again on the tree it left changes
    nothing, and a second run of the pipeline over the same commits
    leaves the backup tree exactly as the first run left it, under any
    two orders of completion: every unit whose content was fetched has
    that content at its destination (none is missing), and the tree
    holds one file per destination. *)
Theorem rerun_leaves_tree_unchanged perm1 sched1 perm2 sched2 w :
  let run1 :=
    backup_files env backup_dir branch start_date end_date perm1 sched1 w in
  run_admissible env backup_dir branch start_date end_date perm1 sched1 w ->
  let run2 :=
    backup_files env backup_dir branch start_date end_date perm2 sched2
      run1.1 in
  run_admissible env backup_dir branch start_date end_date perm2 sched2
    run1.1 ->
  (forall sha file cbd w0,
     tree (process_file env sha file cbd
             (process_file env sha file cbd w0).1).1
     = tree (process_file env sha file cbd w0).1)
  /\ run1.2 = Returns tt
  /\ run2.2 = Returns tt
  /\ tree run2.1 = tree run1.1
  /\ (forall sha file content,
        repo_unit env commits sha file ->
        show_file env sha file = Returns content ->
        w_files run1.1 !! dest_path backup_dir sha file = Some content
        /\ w_files run2.1 !! dest_path backup_dir sha file = Some content).
Proof.
  intros run1 Hadm1 run2 Hadm2.
  destruct (backup_files_clean perm1 sched1 w Hadm1) as (Hr1&HA1&HB1&HD1).
  destruct (backup_files_clean perm2 sched2 run1.1 Hadm2)
    as (Hr2&HA2&HB2&HD2).
  fold run1 in Hr1, HA1, HB1, HD1. fold run2 in Hr2, HA2, HB2, HD2.
  split; [intros; apply process_file_idempotent|].
  split; [done|]. split; [done|]. split; [|by eauto].
  unfold tree. f_equal.
  - apply set_eq. intros d. rewrite HD2, HD1. tauto.
  - apply map_eq. intros p.
    destruct (HB2 p) as [?|(sha&file&content&Hru&Hshow&->)]; [done|].
    by rewrite (HA1 _ _ _ Hru Hshow), (HA2 _ _ _ Hru Hshow).
Qed.
End CleanRuns.

Lemma healthy_commits_ok : forall c, c ∈ two_commits ->
  sha_ok (hexsha c) = true
  /\ setup_succeeds healthy_env "data" (hexsha c) = true.
Proof.
  intros c Hc. apply elem_of_cons in Hc as [->|Hc]; [by split|].
  apply list_elem_of_singleton in Hc as ->. by split.
Defined.

Lemma healthy_units_ok : forall c files file,
  c ∈ two_commits -> show_names healthy_env (hexsha c) = Returns files ->
  file ∈ files ->
  relative file = true
  /\ unit_clean healthy_env (path_join "data" (hexsha c)) (hexsha c) file
     = true.
Proof.
  intros c files file Hc.
  apply elem_of_cons in Hc as [->|Hc];
    [|apply list_elem_of_singleton in Hc as ->];
    intros [= <-] Hf.
  - apply elem_of_cons in Hf as [->|Hf]; [by split|].
    apply list_elem_of_singleton in Hf as ->. by split.
  - apply list_elem_of_singleton in Hf as ->. by split.
Defined.

Lemma rerun_leaves_tree_unchanged_witness :
  let run1 :=
    backup_files healthy_env "data" "main" None None [0; 1]%nat
      [(0, 0); (0, 1); (1, 0)]%nat empty_world in
  let run2 :=
    backup_files healthy_env "data" "main" None None [1; 0]%nat
      [(1, 1); (0, 0); (1, 0)]%nat run1.1 in
  get_commits healthy_env "main" None None = Returns two_commits
  /\ run_admissible healthy_env "data" "main" None None [0; 1]%nat
       [(0, 0); (0, 1); (1, 0)]%nat empty_world
  /\ run_admissible healthy_env "data" "main" None None [1; 0]%nat
       [(1, 1); (0, 0); (1, 0)]%nat run1.1
  /\ tree run2.1 = tree run1.1
  /\ w_files run1.1 !! "data/c1/b.txt" = Some "data".
Proof.
  intros run1 run2.
  assert (Hsel : get_commits healthy_env "main" None None
                 = Returns two_commits) by reflexivity.
  assert (Hadm1 : run_admissible healthy_env "data" "main" None None
                    [0; 1]%nat [(0, 0); (0, 1); (1, 0)]%nat empty_world).
  { split; [reflexivity|].
    split; [by apply (bool_decide_unpack _)|]. split; [|reflexivity].
    intros t Ht.
    apply elem_of_cons in Ht as [->|Ht]; [split; [by eexists|]|].
    { by apply (bool_decide_unpack _). }
    apply elem_of_cons in Ht as [->|Ht]; [split; [by eexists|]|].
    { by apply (bool_decide_unpack _). }
    apply list_elem_of_singleton in Ht as ->. split; [by eexists|].
    by apply (bool_decide_unpack _). }
  assert (Hadm2 : run_admissible healthy_env "data" "main" None None
                    [1; 0]%nat [(1, 1); (0, 0); (1, 0)]%nat run1.1).
  { split; [apply perm_swap|].
    split; [by apply (bool_decide_unpack _)|]. split; [|reflexivity].
    intros t Ht.
    apply elem_of_cons in Ht as [->|Ht]; [split; [by eexists|]|].
    { by apply (bool_decide_unpack _). }
    apply elem_of_cons in Ht as [->|Ht]; [split; [by eexists|]|].
    { by apply (bool_decide_unpack _). }
    apply list_elem_of_singleton in Ht as ->. split; [by eexists|].
    by apply (bool_decide_unpack _). }
  destruct (rerun_leaves_tree_unchanged healthy_env "data" "main" None None
              two_commits Hsel healthy_commits_ok healthy_units_ok
              [0; 1]%nat [(0, 0); (0, 1); (1, 0)]%nat
              [1; 0]%nat [(1, 1); (0, 0); (1, 0)]%nat empty_world
              Hadm1 Hadm2) as (_&_&_&Htree&Hall).
  split; [exact Hsel|]. split; [exact Hadm1|]. split; [exact Hadm2|].
  split; [exact Htree|].
  apply (Hall "c1" "b.txt" "data"); [|reflexivity].
  exists (mkCommit "c1" 1672531200), ["a.txt"; "b.txt"].
  split; [apply list_elem_of_here|]. split; [reflexivity|].
  split; [reflexivity|]. by apply (bool_decide_unpack _).
Defined.

(** * Further properties of the code *)

(** ** [get_commits] *)

Lemma in_window_spec env start_obj end_obj c :
  in_window env start_obj end_obj c = true
  <-> match start_obj with
      | Some s => s <= fromtimestamp env (committed_date c)
      | None => True
      end
      /\ match end_obj with
         | Some e => fromtimestamp env (committed_date c) <= e
         | None => True
         end.
Proof.
  unfold in_window, before_start, after_end.
  rewrite andb_true_iff, !negb_true_iff.
  destruct start_obj as [s|], end_obj as [e|];
    rewrite ?Z.ltb_ge, ?Z.gtb_ltb, ?Z.ltb_ge; tauto.
Qed.

Lemma list_filter_sublist {A} (f : A -> bool) (l : list A) :
  List.filter f l `sublist_of` l.
Proof.
  induction l as [|x l IH]; simpl; [constructor|].
  destruct (f x); by constructor.
Qed.

Lemma list_filter_sublist_mono {A} (f g : A -> bool) (l : list A) :
  (forall x, f x = true -> g x = true) ->
  List.filter f l `sublist_of` List.filter g l.
Proof.
  intros Hfg. induction l as [|x l IH]; simpl; [constructor|].
  destruct (f x) eqn:Hf.
  - rewrite (Hfg x Hf). by constructor.
  - destruct (g x); [by constructor|done].
Qed.

Lemma list_filter_elem {A} (f : A -> bool) (l : list A) x :
  x ∈ List.filter f l <-> x ∈ l /\ f x = true.
Proof. rewrite !list_elem_of_In. apply filter_In. Qed.

Lemma conversion_fault_some env history e :
  conversion_fault env history = Some e ->
  exists before c after,
    history = before ++ c :: after
    /\ (forall c', c' ∈ before ->
          fromtimestamp_fault env (committed_date c') = None)
    /\ fromtimestamp_fault env (committed_date c) = Some e.
Proof.
  induction history as [|c rest IH]; simpl; [done|].
  destruct (fromtimestamp_fault env (committed_date c)) as [e'|] eqn:Hf.
  - intros [= ->]. exists [], c, rest. split; [done|]. split; [|done].
    intros c' Hc'. by apply elem_of_nil in Hc'.
  - intros H. destruct (IH H) as (before&c0&after&->&Hb&Hc0).
    exists (c :: before), c0, after. split; [done|]. split; [|done].
    intros c' Hc'. apply elem_of_cons in Hc' as [->|Hc']; auto.
Qed.

(** Whenever the bounds parse, git does not fail during the iteration and,
    unless the call is the early return, every commit time of the history
    can be converted, [get_commits] returns a subsequence of the history,
    in history order, holding exactly the commits whose local commit time
    is not before the start instant and not after the end instant. *)
Theorem get_commits_sound_complete env branch start_date end_date
    start_obj end_obj :
  parse_bound env start_date = Returns start_obj ->
  parse_bound env end_date = Returns end_obj ->
  iter_commits_fault env branch = None ->
  (unbounded start_date end_date = true
   \/ forall c, c ∈ iter_commits env branch ->
                fromtimestamp_fault env (committed_date c) = None) ->
  exists commits,
    get_commits env branch start_date end_date = Returns commits
    /\ commits `sublist_of` iter_commits env branch
    /\ forall c,
         c ∈ commits
         <-> c ∈ iter_commits env branch
             /\ match start_obj with
                | Some s => s <= fromtimestamp env (committed_date c)
                | None => True
                end
             /\ match end_obj with
                | Some e => fromtimestamp env (committed_date c) <= e
                | None => True
                end.
Proof.
  intros Hs He Hi Hc. eexists. split.
  - apply get_commits_filter; [done..|].
    destruct Hc as [?|Hc]; [by left|right]. by apply conversion_fault_none.
  - split; [apply list_filter_sublist|].
    intros c. by rewrite list_filter_elem, in_window_spec.
Qed.

Lemma get_commits_sound_complete_witness :
  parse_bound monthly_env (Some "01-02-2023") = Returns (Some 1675209600)
  /\ parse_bound monthly_env (Some "01-04-2023") = Returns (Some 1680307200)
  /\ exists commits,
       get_commits monthly_env "main" (Some "01-02-2023") (Some "01-04-2023")
       = Returns commits
       /\ commits `sublist_of` monthly_history.
Proof.
  split; [reflexivity|]. split; [reflexivity|].
  destruct (get_commits_sound_complete monthly_env "main"
              (Some "01-02-2023") (Some "01-04-2023") _ _ eq_refl eq_refl
              eq_refl (or_intror (fun c _ => eq_refl)))
    as (commits&Hget&Hsub&_).
  exists commits. split; [exact Hget|exact Hsub].
Defined.

(** A window whose start lies after its end selects nothing: the loop
    raises no error of its own.  [get_commits] never returns a commit
    then, and it returns the empty list whenever git does not fail during
    the iteration and every commit time can be converted. *)
Theorem get_commits_inverted_window_empty env branch start_date end_date
    s e :
  parse_bound env start_date = Returns (Some s) ->
  parse_bound env end_date = Returns (Some e) ->
  e < s ->
  (forall commits,
     get_commits env branch start_date end_date = Returns commits ->
     commits = [])
  /\ (iter_commits_fault env branch = None ->
      (forall c, c ∈ iter_commits env branch ->
                 fromtimestamp_fault env (committed_date c) = None) ->
      get_commits env branch start_date end_date = Returns []).
Proof.
  intros Hs He Hlt.
  assert (Hnil : List.filter (in_window env (Some s) (Some e))
                   (iter_commits env branch) = []).
  { induction (iter_commits env branch) as [|c l IH]; simpl; [done|].
    destruct (in_window env (Some s) (Some e) c) eqn:Hw; [|done].
    apply in_window_spec in Hw as [? ?]. lia. }
  rewrite (get_commits_outcome _ _ _ _ _ _ Hs He), Hnil.
  unfold end_of_iteration. split.
  - intros commits.
    destruct (if unbounded start_date end_date then None else _); [done|].
    destruct (iter_commits_fault env branch); [done|]. by intros [= <-].
  - intros -> Hc. apply conversion_fault_none in Hc. rewrite Hc.
    by destruct (unbounded start_date end_date).
Qed.

Lemma get_commits_inverted_window_empty_witness :
  parse_bound monthly_env (Some "01-04-2023") = Returns (Some 1680307200)
  /\ parse_bound monthly_env (Some "01-02-2023") = Returns (Some 1675209600)
  /\ 1675209600 < 1680307200
  /\ get_commits monthly_env "main" (Some "01-04-2023") (Some "01-02-2023")
     = Returns [].
Proof.
  split; [reflexivity|]. split; [reflexivity|]. split; [lia|].
  apply (get_commits_inverted_window_empty monthly_env "main"
           (Some "01-04-2023") (Some "01-02-2023") 1680307200 1675209600);
    [reflexivity|reflexivity|lia|reflexivity|].
  intros c _. reflexivity.
Defined.

(** An empty date string selects as an absent date does, but it is not
    the early return.  Beside another date the two are interchangeable.
    With no other date, [get_commits] with an empty string runs the loop
    and converts every commit time, where the call with two absent dates
    returns the history unconverted: the two agree when every commit time
    can be converted, and otherwise the former raises where the latter
    does not look at the commit times. *)
Theorem get_commits_empty_string_vs_none env branch :
  (forall d,
     get_commits env branch (Some "") (Some d)
     = get_commits env branch None (Some d)
     /\ get_commits env branch (Some d) (Some "")
        = get_commits env branch (Some d) None)
  /\ (conversion_fault env (iter_commits env branch) = None ->
      get_commits env branch (Some "") None
      = get_commits env branch None None
      /\ get_commits env branch None (Some "")
         = get_commits env branch None None)
  /\ (forall e,
        conversion_fault env (iter_commits env branch) = Some e ->
        get_commits env branch (Some "") None = Raises e
        /\ get_commits env branch None (Some "") = Raises e
        /\ get_commits env branch None None
           = end_of_iteration env branch (iter_commits env branch)).
Proof.
  split; [|split].
  - intros d. split; [done|].
    unfold get_commits. simpl.
    by destruct (parse_bound env (Some d)).
  - intros Hc. unfold get_commits. simpl.
    rewrite select_loop_filter, Hc. simpl.
    rewrite filter_all_true by (intros c; reflexivity). done.
  - intros e Hc. unfold get_commits. simpl.
    by rewrite select_loop_filter, Hc.
Qed.

(** A history with a commit dated in the year 10000, which
    [datetime.fromtimestamp] rejects. *)
Example get_commits_empty_string_converts :
  get_commits far_future_env "main" (Some "") None
  = Raises (ValueError "year 10000 is out of range")
  /\ get_commits far_future_env "main" None None
     = Returns [mkCommit "c1" 1672531200; mkCommit "c2" 253402300800].
Proof. split; reflexivity. Qed.

(** [get_commits] raises in four cases, tried in this order: the start
    date does not parse; the end date does not parse (each time the
    [ValueError] of [strptime] on a non-empty string); unless the call is
    the early return, a commit time cannot be converted (the exception of
    the first such commit of the history); git fails during the
    iteration. *)
Theorem get_commits_raises_iff env branch start_date end_date e :
  (get_commits env branch start_date end_date = Raises e
   <-> parse_bound env start_date = Raises e
       \/ (exists start_obj,
             parse_bound env start_date = Returns start_obj
             /\ parse_bound env end_date = Raises e)
       \/ (exists start_obj end_obj,
             parse_bound env start_date = Returns start_obj
             /\ parse_bound env end_date = Returns end_obj
             /\ unbounded start_date end_date = false
             /\ conversion_fault env (iter_commits env branch) = Some e)
       \/ (exists start_obj end_obj,
             parse_bound env start_date = Returns start_obj
             /\ parse_bound env end_date = Returns end_obj
             /\ (unbounded start_date end_date = true
                 \/ conversion_fault env (iter_commits env branch) = None)
             /\ iter_commits_fault env branch = Some e))
  /\ (forall d, parse_bound env d = Raises e ->
        exists text,
          d = Some text /\ text <> "" /\ strptime env text = None
          /\ e = ValueError text)
  /\ (forall history, conversion_fault env history = Some e ->
        exists before c after,
          history = before ++ c :: after
          /\ (forall c', c' ∈ before ->
                fromtimestamp_fault env (committed_date c') = None)
          /\ fromtimestamp_fault env (committed_date c) = Some e).
Proof.
  split; [|split].
  - destruct (parse_bound env start_date) as [so|e1] eqn:Hs.
    2:{ assert (Hg : get_commits env branch start_date end_date = Raises e1).
        { unfold get_commits. destruct start_date as [s|]; [|done].
          rewrite Hs. by destruct end_date. }
        rewrite Hg. split; [intros [= ->]; by left|].
        intros [H|[(?&H&_)|[(?&?&H&_)|(?&?&H&_)]]]; congruence. }
    destruct (parse_bound env end_date) as [eo|e2] eqn:He.
    2:{ assert (Hg : get_commits env branch start_date end_date = Raises e2).
        { unfold get_commits. destruct end_date as [d|]; [|done].
          destruct start_date as [s|]; by rewrite ?Hs, He. }
        rewrite Hg. split; [intros [= ->]; right; left; eauto|].
        intros [H|[(?&_&H)|[(?&?&_&H&_)|(?&?&_&H&_)]]]; congruence. }
    rewrite (get_commits_outcome _ _ _ _ _ _ Hs He). unfold end_of_iteration.
    destruct (unbounded start_date end_date) eqn:Hu.
    + destruct (iter_commits_fault env branch) as [e3|] eqn:Hi.
      * split.
        -- intros [= ->]. right. right. right. exists so, eo. eauto.
        -- intros [H|[(?&_&H)|[(?&?&_&_&H&_)|(?&?&_&_&_&H)]]]; congruence.
      * split; [done|].
        intros [H|[(?&_&H)|[(?&?&_&_&H&_)|(?&?&_&_&_&H)]]]; congruence.
    + destruct (conversion_fault env (iter_commits env branch)) as [e3|]
        eqn:Hc.
      * split.
        -- intros [= ->]. right. right. left. exists so, eo. eauto.
        -- intros [H|[(?&_&H)|[(?&?&_&_&_&H)|(?&?&_&_&[H|H]&_)]]];
             congruence.
      * destruct (iter_commits_fault env branch) as [e3|] eqn:Hi.
        -- split.
           ++ intros [= ->]. right. right. right. exists so, eo. eauto.
           ++ intros [H|[(?&_&H)|[(?&?&_&_&_&H)|(?&?&_&_&_&H)]]];
                congruence.
        -- split; [done|].
           intros [H|[(?&_&H)|[(?&?&_&_&_&H)|(?&?&_&_&_&H)]]]; congruence.
  - intros [text|]; simpl; [|done].
    destruct (String.eqb text "") eqn:E; simpl; [done|].
    destruct (strptime env text) eqn:Hp; [done|].
    intros [= <-]. exists text. apply String.eqb_neq in E. done.
  - intros history. apply conversion_fault_some.
Qed.

(** The four cases on the test's history: a date that does not parse, a
    commit time out of range, a branch without commits. *)
Example get_commits_raises_cases :
  get_commits monthly_env "main" (Some "2023-03-01") None
  = Raises (ValueError "2023-03-01")
  /\ get_commits monthly_env "main" (Some "01-03-2023") (Some "soon")
     = Raises (ValueError "soon")
  /\ get_commits far_future_env "main" None (Some "01-03-2023")
     = Raises (ValueError "year 10000 is out of range")
  /\ get_commits unborn_env "main" None None
     = Raises (GitCommandError "fatal: bad revision 'main'")
  /\ get_commits unborn_env "main" (Some "01-03-2023") None
     = Raises (GitCommandError "fatal: bad revision 'main'").
Proof. repeat split; reflexivity. Qed.

(** Tightening both bounds selects a subsequence of what the wider window
    selects. *)
Theorem get_commits_narrower_window env branch sd ed sd' ed' s e s' e'
    wide narrow :
  parse_bound env sd = Returns (Some s) ->
  parse_bound env ed = Returns (Some e) ->
  parse_bound env sd' = Returns (Some s') ->
  parse_bound env ed' = Returns (Some e') ->
  s <= s' -> e' <= e ->
  get_commits env branch sd ed = Returns wide ->
  get_commits env branch sd' ed' = Returns narrow ->
  narrow `sublist_of` wide.
Proof.
  intros Hs He Hs' He' Hle1 Hle2.
  rewrite (get_commits_outcome _ _ _ _ _ _ Hs He).
  rewrite (get_commits_outcome _ _ _ _ _ _ Hs' He').
  unfold end_of_iteration.
  destruct (if unbounded sd ed then None else _); [done|].
  destruct (if unbounded sd' ed' then None else _); [done|].
  destruct (iter_commits_fault env branch); [done|].
  intros [= <-] [= <-]. apply list_filter_sublist_mono.
  intros c. rewrite !in_window_spec. lia.
Qed.

Lemma get_commits_narrower_window_witness :
  get_commits monthly_env "main" (Some "01-01-2023") (Some "01-05-2023")
  = Returns monthly_history
  /\ get_commits monthly_env "main" (Some "01-02-2023") (Some "01-04-2023")
     = Returns (take 3 (drop 1 monthly_history))
  /\ take 3 (drop 1 monthly_history) `sublist_of` monthly_history.
Proof.
  split; [reflexivity|]. split; [reflexivity|].
  apply (get_commits_narrower_window monthly_env "main"
           (Some "01-01-2023") (Some "01-05-2023")
           (Some "01-02-2023") (Some "01-04-2023")
           1672531200 1682899200 1675209600 1680307200);
    [reflexivity|reflexivity|reflexivity|reflexivity|lia|lia
    |reflexivity|reflexivity].
Defined.

(** ** [validate] *)

(** [validate] accepts exactly when both folders exist, the repository
    opens, both dates parse (an empty or absent date being no bound), the
    start is not after now and not after the end. *)
Theorem validate_accepts_exactly env repo_dir backup_dir start_date
    end_date :
  validate env repo_dir backup_dir start_date end_date = Returns tt
  <-> path_exists env backup_dir = true
      /\ path_exists env repo_dir = true
      /\ open_repo env repo_dir = None
      /\ exists start_obj end_obj,
           parse_bound env start_date = Returns start_obj
           /\ parse_bound env end_date = Returns end_obj
           /\ match start_obj with
              | Some s => s <= now env
              | None => True
              end
           /\ match start_obj, end_obj with
              | Some s, Some e => s <= e
              | _, _ => True
              end.
Proof.
  unfold validate.
  destruct (path_exists env backup_dir); simpl;
    [|split; [done|intros (?&_); done]].
  destruct (path_exists env repo_dir); simpl;
    [|split; [done|intros (_&?&_); done]].
  destruct (open_repo env repo_dir) as [e|].
  { split; [by destruct e|]. intros (_&_&?&_). done. }
  destruct (parse_bound env start_date) as [so|e1].
  2:{ split; [done|]. intros (_&_&_&so&eo&?&_). done. }
  destruct (before_start so (now env)) eqn:Hb.
  { split; [done|]. intros (_&_&_&so'&eo&[= <-]&_&Hnow&_).
    unfold before_start in Hb. destruct so as [s|]; [|done].
    apply Z.ltb_lt in Hb. lia. }
  assert (Hnow : match so with Some s => s <= now env | None => True end).
  { unfold before_start in Hb. destruct so as [s|]; [|done].
    by apply Z.ltb_ge in Hb. }
  destruct (parse_bound env end_date) as [eo|e2].
  2:{ split; [done|]. intros (_&_&_&so'&eo&_&?&_). done. }
  destruct so as [s|], eo as [e|]; try (split; [|done]; intros _;
    repeat split; try done; eexists _, _; repeat split; done).
  destruct (s >? e) eqn:Hgt.
  - split; [done|]. intros (_&_&_&so'&eo'&[= <-]&[= <-]&_&Hle).
    apply Z.gtb_lt in Hgt. lia.
  - split; [|done]. intros _. repeat split; try done.
    exists (Some s), (Some e). repeat split; try done.
    rewrite Z.gtb_ltb in Hgt. by apply Z.ltb_ge in Hgt.
Qed.

Lemma validate_returns_parses env repo_dir backup_dir start_date end_date :
  validate env repo_dir backup_dir start_date end_date = Returns tt ->
  exists start_obj end_obj,
    parse_bound env start_date = Returns start_obj
    /\ parse_bound env end_date = Returns end_obj.
Proof.
  unfold validate.
  destruct (path_exists env backup_dir); simpl; [|done].
  destruct (path_exists env repo_dir); simpl; [|done].
  destruct (open_repo env repo_dir) as [e|]; [by destruct e|].
  destruct (parse_bound env start_date) as [so|e1]; [|done].
  destruct (before_start so (now env)); [done|].
  destruct (parse_bound env end_date) as [eo|e2]; [|done]. eauto.
Qed.

(** After [validate] has accepted the dates, [get_commits] on the same
    dates raises no error of a date: it returns whenever git does not
    fail during the iteration and every commit time can be converted, and
    an exception it raises is the failure of git or that of the
    conversion of a commit time. *)
Theorem validated_dates_select env repo_dir backup_dir branch start_date
    end_date :
  validate env repo_dir backup_dir start_date end_date = Returns tt ->
  (iter_commits_fault env branch = None ->
   (forall c, c ∈ iter_commits env branch ->
              fromtimestamp_fault env (committed_date c) = None) ->
   exists commits,
     get_commits env branch start_date end_date = Returns commits)
  /\ (forall e,
        get_commits env branch start_date end_date = Raises e ->
        iter_commits_fault env branch = Some e
        \/ exists c, c ∈ iter_commits env branch
                     /\ fromtimestamp_fault env (committed_date c) = Some e).
Proof.
  intros Hv. apply validate_returns_parses in Hv as (so&eo&Hs&He).
  rewrite (get_commits_outcome _ _ _ _ _ _ Hs He). unfold end_of_iteration.
  split.
  - intros -> Hc. apply conversion_fault_none in Hc. rewrite Hc.
    destruct (unbounded start_date end_date); by eexists.
  - intros e.
    destruct (if unbounded start_date end_date then None else _) as [e1|]
      eqn:Hc.
    + intros [= ->]. right.
      destruct (unbounded start_date end_date); [done|].
      apply conversion_fault_some in Hc as (before&c&after&->&_&Hf).
      exists c. split; [|done]. apply elem_of_app. right.
      apply list_elem_of_here.
    + destruct (iter_commits_fault env branch); [|done].
      intros [= ->]. by left.
Qed.

Lemma validated_dates_select_witness :
  validate monthly_env "." "data" (Some "01-02-2023") (Some "01-04-2023")
  = Returns tt
  /\ exists commits,
       get_commits monthly_env "main" (Some "01-02-2023") (Some "01-04-2023")
       = Returns commits.
Proof.
  split; [reflexivity|].
  destruct (validated_dates_select monthly_env "." "data" "main"
              (Some "01-02-2023") (Some "01-04-2023") eq_refl) as [H _].
  apply H; [reflexivity|]. intros c _. reflexivity.
Defined.

(** The end date is never compared with today's date: when the
    parameters are accepted without an end date, any end date that parses
    and does not precede the start is accepted as well, also one in the
    future. *)
Theorem validate_ignores_future_end env repo_dir backup_dir start_date
    end_date end_obj :
  validate env repo_dir backup_dir start_date None = Returns tt ->
  parse_bound env end_date = Returns end_obj ->
  (forall s e, parse_bound env start_date = Returns (Some s) ->
               end_obj = Some e -> s <= e) ->
  validate env repo_dir backup_dir start_date end_date = Returns tt.
Proof.
  unfold validate.
  destruct (path_exists env backup_dir); simpl; [|done].
  destruct (path_exists env repo_dir); simpl; [|done].
  destruct (open_repo env repo_dir) as [e|]; [by destruct e|].
  destruct (parse_bound env start_date) as [so|e1]; [|done].
  destruct (before_start so (now env)); [done|].
  intros _ -> Hle. destruct so as [s|], end_obj as [e|]; try done.
  specialize (Hle s e eq_refl eq_refl).
  destruct (s >? e) eqn:Hgt; [|done]. apply Z.gtb_lt in Hgt. lia.
Qed.

Lemma validate_ignores_future_end_witness :
  now monthly_env < 32472144000
  /\ parse_bound monthly_env (Some "01-01-2999") = Returns (Some 32472144000)
  /\ validate monthly_env "." "data" (Some "01-02-2023") (Some "01-01-2999")
     = Returns tt.
Proof.
  split; [reflexivity|]. split; [reflexivity|].
  apply (validate_ignores_future_end monthly_env "." "data"
           (Some "01-02-2023") (Some "01-01-2999") (Some 32472144000));
    [reflexivity|reflexivity|].
  intros s e Hs [= <-]. vm_compute in Hs. injection Hs as <-. lia.
Defined.

(** ** [get_changed_files] *)

Lemma append_nil_r_str (a : string) : a +:+ "" = a.
Proof. induction a as [|x a IH]; push_append; [done|]. by rewrite IH. Qed.

Lemma splitlines_from_break_free (name : string) : forall line rest,
  break_free name = true ->
  splitlines_from line (name +:+ rest)
  = splitlines_from (line +:+ name) rest.
Proof.
  induction name as [|c name IH]; intros line rest Hbf; push_append.
  - by rewrite append_nil_r_str.
  - simpl in Hbf. apply andb_true_iff in Hbf as [Hc Hbf].
    apply negb_true_iff in Hc. simpl. rewrite Hc.
    rewrite IH by done. by rewrite append_assoc_str.
Qed.

Lemma splitlines_from_newline line rest :
  splitlines_from line (newline +:+ rest) = line :: splitlines_from "" rest.
Proof. reflexivity. Qed.

Lemma splitlines_join (names : list string) :
  Forall (fun name => name <> "" /\ break_free name = true) names ->
  splitlines (join_lines names) = names.
Proof.
  unfold splitlines, join_lines.
  induction names as [|name rest IH]; intros Hnames; [done|].
  apply Forall_cons in Hnames as [[Hne Hbf] Hrest].
  destruct rest as [|name' rest].
  - simpl. rewrite <- (append_nil_r_str name) at 1.
    rewrite splitlines_from_break_free by done. push_append. simpl.
    destruct (String.eqb name "") eqn:E; [|done].
    by apply String.eqb_eq in E.
  - change (String.concat newline (name :: name' :: rest))
      with (name +:+ newline +:+ String.concat newline (name' :: rest)).
    rewrite splitlines_from_break_free by done. push_append.
    rewrite splitlines_from_newline. f_equal. by apply IH.
Qed.

(** Round trip of the diff extractor: when git prints the names of the
    changed files one per line, none of them empty or holding a line
    boundary, [get_changed_files] returns the commit's identifier with
    exactly these names, in order; no changed file gives the empty
    list. *)
Theorem get_changed_files_round_trip env show commit_sha names :
  show commit_sha = Returns (join_lines names) ->
  Forall (fun name => name <> "" /\ break_free name = true) names ->
  get_changed_files (with_raw_names env show) commit_sha
  = Returns (commit_sha, names).
Proof.
  intros Hshow Hnames. unfold get_changed_files, with_raw_names. simpl.
  rewrite Hshow. simpl. by rewrite splitlines_join.
Qed.

(** test_get_changed_files *)
Lemma get_changed_files_round_trip_witness :
  Forall (fun name => name <> "" /\ break_free name = true)
    ["file1.txt"; "file2.txt"]
  /\ get_changed_files
       (with_raw_names quiet_env (fun _ => Returns two_line_output)) "abc123"
     = Returns ("abc123", ["file1.txt"; "file2.txt"]).
Proof.
  assert (H : Forall (fun name => name <> "" /\ break_free name = true)
                ["file1.txt"; "file2.txt"]).
  { repeat constructor; done. }
  split; [exact H|].
  exact (get_changed_files_round_trip quiet_env
           (fun _ => Returns two_line_output) "abc123"
           ["file1.txt"; "file2.txt"] eq_refl H).
Defined.

Lemma break_free_snoc line c :
  break_free line = true -> is_line_break c = false ->
  break_free (line +:+ String c "") = true.
Proof.
  intros Hl Hc. induction line as [|x line IH]; push_append; simpl.
  - by rewrite Hc.
  - simpl in Hl. apply andb_true_iff in Hl as [Hx Hl].
    rewrite Hx. simpl. by apply IH.
Qed.

Lemma splitlines_from_lines_clean (n : nat) : forall s line l,
  (String.length s <= n)%nat ->
  break_free line = true ->
  l ∈ splitlines_from line s ->
  break_free l = true.
Proof.
  induction n as [|n IH]; intros s line l Hlen Hline.
  - destruct s; [|simpl in Hlen; lia]. simpl.
    destruct (String.eqb line ""); [intros H; by apply elem_of_nil in H|].
    intros H. by apply list_elem_of_singleton in H as ->.
  - destruct s as [|c s].
    + simpl. destruct (String.eqb line "");
        [intros H; by apply elem_of_nil in H|].
      intros H. by apply list_elem_of_singleton in H as ->.
    + simpl in Hlen. simpl. destruct (is_line_break c) eqn:Hc.
      * intros H. apply elem_of_cons in H as [->|H]; [done|].
        destruct (Ascii.eqb c CR).
        -- destruct s as [|c2 s2].
           ++ apply (IH "" "" l); [simpl; lia|done|done].
           ++ destruct (Ascii.eqb c2 LF).
              ** apply (IH s2 "" l); [simpl in Hlen; lia|done|done].
              ** apply (IH (String c2 s2) "" l); [lia|done|done].
        -- apply (IH s "" l); [lia|done|done].
      * apply IH; [lia|]. by apply break_free_snoc.
Qed.

(** No name the diff extractor returns holds a line boundary, whatever
    text git printed. *)
Theorem get_changed_files_names_clean env show commit_sha result name :
  get_changed_files (with_raw_names env show) commit_sha = Returns result ->
  name ∈ result.2 ->
  result.1 = commit_sha /\ break_free name = true.
Proof.
  unfold get_changed_files, with_raw_names. simpl.
  destruct (show commit_sha) as [out|e]; simpl; [|done].
  intros [= <-]. simpl. intros Hin. split; [done|].
  by apply (splitlines_from_lines_clean (String.length out) out "" name).
Qed.

Lemma get_changed_files_names_clean_witness :
  get_changed_files
    (with_raw_names quiet_env (fun _ => Returns two_line_output)) "abc123"
  = Returns ("abc123", ["file1.txt"; "file2.txt"])
  /\ break_free "file2.txt" = true.
Proof.
  split; [reflexivity|].
  apply (get_changed_files_names_clean quiet_env
           (fun _ => Returns two_line_output) "abc123"
           ("abc123", ["file1.txt"; "file2.txt"]) "file2.txt");
    [reflexivity|].
  by apply (bool_decide_unpack _).
Defined.

(** ** [write_file_content] *)

(** Writing reads back and overwrites: after a write without fault the
    destination holds exactly the content; a second write to the same
    path replaces the first (mode ['w'] truncates, nothing is appended);
    no other file, no directory and no FailureRecord is touched. *)
Theorem write_file_content_overwrites env file_path first second w :
  write_fault env file_path first = None ->
  write_fault env file_path second = None ->
  let w1 := (write_file_content env file_path first w).1 in
  let w2 := (write_file_content env file_path second w1).1 in
  w_files w1 !! file_path = Some first
  /\ w_files w2 !! file_path = Some second
  /\ w_files w2 = w_files (write_file_content env file_path second w).1
  /\ (forall p, p <> file_path -> w_files w2 !! p = w_files w !! p)
  /\ w_dirs w2 = w_dirs w
  /\ failed_files w2 = failed_files w.
Proof.
  intros H1 H2. run_M. rewrite H1. simpl. rewrite !H2. simpl.
  split; [apply lookup_insert_eq|]. split; [apply lookup_insert_eq|].
  split; [apply insert_insert_eq|]. split; [|done].
  intros p Hp. by rewrite !lookup_insert_ne.
Qed.

Lemma write_file_content_overwrites_witness :
  let w1 := (write_file_content quiet_env "data/f" "old" empty_world).1 in
  let w2 := (write_file_content quiet_env "data/f" "new" w1).1 in
  write_fault quiet_env "data/f" "old" = None
  /\ write_fault quiet_env "data/f" "new" = None
  /\ w_files w1 !! "data/f" = Some "old"
  /\ w_files w2 !! "data/f" = Some "new".
Proof.
  intros w1 w2. split; [reflexivity|]. split; [reflexivity|].
  destruct (write_file_content_overwrites quiet_env "data/f" "old" "new"
              empty_world eq_refl eq_refl) as (Ha&Hb&_).
  split; [exact Ha|exact Hb].
Defined.

(** ** [process_file] *)

Lemma unit_write_at env cbd sha file p data :
  unit_write env cbd sha file = Some (p, data) -> p = path_join cbd file.
Proof.
  unfold unit_write.
  destruct (show_file env sha file) as [content|]; [|done].
  destruct (String.eqb _ ""); [done|].
  destruct (makedirs_fault env _); [done|].
  destruct (write_fault env _ content) as [[|]|]; [done| |];
    by intros [= <- _].
Qed.

Lemma unit_mkdir_at env cbd sha file d :
  unit_mkdir env cbd sha file = Some d -> d = dirname (path_join cbd file).
Proof.
  unfold unit_mkdir.
  destruct (show_file env sha file) as [content|]; [|done].
  destruct (String.eqb _ ""); [done|].
  destruct (makedirs_fault env _); [done|]. by intros [= <-].
Qed.

(** What [process_file] leaves alone, whatever happens: every file other
    than its own destination keeps its content, no directory disappears
    and the only new ones are the destination's directory and those above
    it, the failure list keeps its records and gains at most the unit's
    own, and nothing already in the trace changes. *)
Theorem process_file_frame env sha file commit_backup_dir w :
  let w' := (process_file env sha file commit_backup_dir w).1 in
  let file_path := path_join commit_backup_dir file in
  (forall p, p <> file_path -> w_files w' !! p = w_files w !! p)
  /\ (forall d, d ∈ w_dirs w -> d ∈ w_dirs w')
  /\ (forall d, d ∈ w_dirs w' ->
        d ∈ w_dirs w \/ d ∈ dir_chain (dirname file_path))
  /\ (failed_files w' = failed_files w
      \/ failed_files w' = failed_files w ++ [(sha, file)])
  /\ exists new, w_trace w' = w_trace w ++ new.
Proof.
  cbv zeta.
  rewrite process_file_files, process_file_dirs, process_file_failed.
  split; [|split; [|split; [|split]]].
  - intros p Hp.
    destruct (unit_write env commit_backup_dir sha file) as [[p0 c0]|] eqn:E;
      [|done].
    apply unit_write_at in E as ->. by rewrite lookup_insert_ne.
  - intros d Hd. destruct (unit_mkdir env commit_backup_dir sha file);
      [|done]. apply elem_of_union. by right.
  - intros d Hd.
    destruct (unit_mkdir env commit_backup_dir sha file) as [d0|] eqn:E;
      [|by left].
    apply unit_mkdir_at in E as ->.
    apply elem_of_union in Hd as [Hd|Hd]; [|by left].
    right. by apply elem_of_list_to_set in Hd.
  - destruct (hard_failure env commit_backup_dir sha file);
      [by right|left; by rewrite app_nil_r].
  - apply process_file_trace.
Qed.

(** The only exception that leaves [process_file] is [BackupError]; its
    text names the file and carries the text of the cause, which is the
    exception met in the [try] block and is not a deletion report.
    Otherwise the unit returns. *)
Theorem process_file_only_backup_error env sha file commit_backup_dir w :
  (process_file env sha file commit_backup_dir w).2 = Returns tt
  \/ exists cause,
       unit_exception env commit_backup_dir sha file = Some cause
       /\ is_deletion cause = false
       /\ (process_file env sha file commit_backup_dir w).2
          = Raises (BackupError
                      ("Error processing file " +:+ file +:+ ": "
                       +:+ str cause)).
Proof.
  rewrite process_file_result.
  destruct (unit_exception env commit_backup_dir sha file) as [cause|];
    [|by left].
  destruct (is_deletion cause) eqn:E; [by left|].
  right. exists cause. done.
Qed.

(** An absolute file name escapes the backup root: [os.path.join] drops
    the commit directory, and a unit that goes through writes the content
    at the absolute path itself. *)
Theorem absolute_name_escapes_backup_root env backup_dir sha file content w :
  starts_with_slash file = true ->
  show_file env sha file = Returns content ->
  unit_exception env (path_join backup_dir sha) sha file = None ->
  dest_path backup_dir sha file = file
  /\ w_files (process_file env sha file (path_join backup_dir sha) w).1
     !! file = Some content.
Proof.
  intros Habs Hshow Hexc.
  assert (Hp : forall cbd, path_join cbd file = file).
  { intros cbd. unfold path_join. by rewrite Habs. }
  split; [apply Hp|].
  rewrite process_file_files. revert Hexc. unfold unit_exception, unit_write.
  rewrite Hshow, Hp.
  destruct (String.eqb (dirname file) ""); [done|].
  destruct (makedirs_fault env _); [done|].
  destruct (write_fault env file content) as [[|]|]; [done|done|].
  intros _. apply lookup_insert_eq.
Qed.

Lemma absolute_name_escapes_backup_root_witness :
  starts_with_slash "/etc/passwd" = true
  /\ show_file healthy_env "c1" "/etc/passwd" = Returns "data"
  /\ unit_exception healthy_env (path_join "data" "c1") "c1" "/etc/passwd"
     = None
  /\ dest_path "data" "c1" "/etc/passwd" = "/etc/passwd"
  /\ w_files (process_file healthy_env "c1" "/etc/passwd"
                (path_join "data" "c1") empty_world).1
     !! "/etc/passwd" = Some "data".
Proof.
  split; [reflexivity|]. split; [reflexivity|]. split; [reflexivity|].
  exact (absolute_name_escapes_backup_root healthy_env "data" "c1"
           "/etc/passwd" "data" empty_world eq_refl eq_refl eq_refl).
Defined.

Lemma prefix_spec (needle hay : string) :
  String.prefix needle hay = true <-> exists post, hay = needle +:+ post.
Proof.
  revert needle. induction hay as [|b hay IH]; intros [|a needle]; simpl.
  - split; [intros _; by exists ""|done].
  - split; [done|]. intros [post H]. push_append. done.
  - split; [intros _; by exists (String b hay)|done].
  - destruct (ascii_dec a b) as [->|Hne].
    + rewrite IH. split; intros [post H]; exists post; push_append;
        congruence.
    + split; [done|]. intros [post H]. push_append. congruence.
Qed.

Lemma contains_nil needle :
  contains needle "" = String.prefix needle "".
Proof. unfold contains. apply orb_false_r. Qed.

Lemma contains_cons needle c hay :
  contains needle (String c hay)
  = String.prefix needle (String c hay) || contains needle hay.
Proof. reflexivity. Qed.

Lemma contains_spec (needle hay : string) :
  contains needle hay = true
  <-> exists pre post, hay = pre +:+ needle +:+ post.
Proof.
  induction hay as [|c hay IH].
  - rewrite contains_nil, prefix_spec. split.
    + intros [post H]. by exists "", post.
    + intros (pre&post&H). destruct pre; push_append; [by exists post|done].
  - rewrite contains_cons, orb_true_iff, prefix_spec, IH. split.
    + intros [[post H]|(pre&post&H)].
      * by exists "", post.
      * exists (String c pre), post. push_append. by rewrite H.
    + intros (pre&post&H). destruct pre as [|x pre]; push_append.
      * left. by exists post.
      * right. injection H as _ H. by exists pre, post.
Qed.

(** The deletion skip is decided by the text alone: when the fetch raises
    a [GitCommandError], the unit is skipped without a record exactly when
    the words "does not exist in" occur somewhere in the error text, be
    it in git's message or in the path the command line quotes. *)
Theorem deletion_decided_by_text env sha file commit_backup_dir w text :
  show_file env sha file = Raises (GitCommandError text) ->
  let '(w', r) := process_file env sha file commit_backup_dir w in
  ((exists pre post, text = pre +:+ deletion_marker +:+ post)
   <-> r = Returns tt)
  /\ ((exists pre post, text = pre +:+ deletion_marker +:+ post)
      <-> failed_files w' = failed_files w).
Proof.
  intros Hshow.
  pose proof (process_file_result env sha file commit_backup_dir w) as Hr.
  pose proof (process_file_failed env sha file commit_backup_dir w) as Hf.
  destruct (process_file env sha file commit_backup_dir w) as [w' r].
  simpl in Hr, Hf. unfold hard_failure in Hf.
  unfold unit_exception in Hr, Hf. rewrite Hshow in Hr, Hf.
  simpl in Hr, Hf. rewrite <- contains_spec.
  destruct (contains deletion_marker text); simpl in Hr, Hf; subst r.
  - rewrite app_nil_r in Hf. done.
  - split; [done|]. split; [done|]. rewrite Hf. intros H.
    apply (f_equal length) in H. rewrite length_app in H. simpl in H. lia.
Qed.

Lemma deletion_decided_by_text_witness :
  let text := "cmdline: git show abc:notes/does not exist in.md stderr: 'fatal: unable to read tree'" in
  show_file (with_show_file quiet_env
               (fun _ _ => Raises (GitCommandError text)))
    "abc" "notes/does not exist in.md"
  = Raises (GitCommandError text)
  /\ (process_file (with_show_file quiet_env
                      (fun _ _ => Raises (GitCommandError text)))
        "abc" "notes/does not exist in.md" "data/abc" empty_world).2
     = Returns tt.
Proof.
  intros text. split; [reflexivity|].
  pose proof (deletion_decided_by_text
                (with_show_file quiet_env
                   (fun _ _ => Raises (GitCommandError text)))
                "abc" "notes/does not exist in.md" "data/abc" empty_world
                text eq_refl) as H.
  destruct (process_file _ _ _ _ _) as [w' r]. destruct H as [H _].
  apply H.
  exists "cmdline: git show abc:notes/",
         ".md stderr: 'fatal: unable to read tree'".
  reflexivity.
Defined.

(** ** Stage A *)

Lemma dict_set_fresh (d : ChangedFileMap) k v :
  k ∉ d.*1 -> dict_set d k v = d ++ [(k, v)].
Proof.
  induction d as [|[k0 v0] d IH]; simpl; intros Hk; [done|].
  apply not_elem_of_cons in Hk as [Hne Hk].
  destruct (String.eqb k0 k) eqn:E.
  - apply String.eqb_eq in E. congruence.
  - by rewrite IH.
Qed.

Lemma extracted_entries_keys env completed sha :
  sha ∈ (extracted_entries env completed).*1 -> sha ∈ completed.
Proof.
  intros H. apply list_elem_of_fmap in H as ([k files]&->&H).
  apply list_elem_of_omap in H as (x&Hx&Hs).
  destruct (show_names env x); [|done]. by injection Hs as <- _.
Qed.

(** Stage A in full, when every commit is submitted once: the
    ChangedFileMap holds, in completion order, exactly the commits whose
    extraction returned, each with the list it returned; the failure list
    gains, in completion order, exactly one marker record per commit
    whose extraction raised; the backup tree is not touched. *)
Theorem extract_changed_files_exact env completed w :
  NoDup completed ->
  let '(cmap, w') := extract_changed_files env completed w in
  cmap = extracted_entries env completed
  /\ failed_files w' = failed_files w ++ extraction_records env completed
  /\ tree w' = tree w.
Proof.
  intros Hnd.
  pose proof (extract_changed_files_spec env completed w) as Hspec.
  destruct (extract_changed_files env completed w) as [cmap w'] eqn:Hex.
  destruct Hspec as (_&_&_&Htree&Hfail).
  split; [|done]. clear Htree Hfail.
  revert cmap w' Hex. unfold extract_changed_files, extracted_entries.
  induction completed as [|sha completed IH] using rev_ind;
    intros cmap w' Hex.
  - by injection Hex as <- _.
  - apply NoDup_app in Hnd as (Hnd&Hfresh&_).
    rewrite foldl_snoc in Hex. rewrite omap_app. simpl.
    destruct (foldl (collect_result env) ([], w) completed) as [cmap0 w0].
    specialize (IH Hnd cmap0 w0 eq_refl). subst cmap0.
    unfold collect_result, get_changed_files in Hex. simpl in Hex.
    destruct (show_names env sha) as [files|e]; simpl in Hex.
    + injection Hex as <- _. apply dict_set_fresh. intros Hin.
      apply extracted_entries_keys in Hin.
      apply (Hfresh sha Hin). apply list_elem_of_here.
    + injection Hex as <- _. by rewrite app_nil_r.
Qed.

Lemma extract_changed_files_exact_witness :
  NoDup ["c1"; "c2"]
  /\ let '(cmap, w') :=
       extract_changed_files half_env ["c1"; "c2"] empty_world in
     cmap = [("c1", ["a.txt"; "b.txt"])]
     /\ failed_files w' = [("c2", retrieval_marker)].
Proof.
  assert (H : NoDup ["c1"; "c2"]) by (by apply (bool_decide_unpack _)).
  split; [exact H|].
  pose proof (extract_changed_files_exact half_env ["c1"; "c2"] empty_world
                H) as Hx.
  destruct (extract_changed_files half_env ["c1"; "c2"] empty_world)
    as [cmap w'].
  destruct Hx as (Hc&Hf&_). split; [exact Hc|exact Hf].
Defined.

(** ** Stage B *)

(** Under an admissible schedule every completion is an event: the file
    tasks completed are those of the schedule, in its order. *)
Lemma admissible_done env backup_dir cmap sched w :
  NoDup sched ->
  (forall t, t ∈ sched ->
     is_Some (task_unit cmap t)
     /\ t.1 ∈ sb_dispatched
               (start_commits env backup_dir (stageB_init w) 0 cmap)) ->
  sb_done (run_stageB env backup_dir cmap sched w) = sched.
Proof.
  induction sched as [|t sched IH] using rev_ind; intros Hnd Hin.
  - unfold run_stageB. simpl.
    by destruct (start_commits_keeps env backup_dir cmap (stageB_init w) 0)
      as (->&_).
  - apply NoDup_app in Hnd as (Hnd&Hfresh&_).
    assert (IH' : sb_done (run_stageB env backup_dir cmap sched w) = sched).
    { apply IH; [done|]. intros t' Ht'. apply Hin. apply elem_of_app.
      by left. }
    destruct (Hin t) as [[[sha file] Hu] Hd].
    { apply elem_of_app. right. apply list_elem_of_here. }
    destruct (run_stageB_static env backup_dir cmap sched w) as [Hdisp _].
    assert (Hf : fires cmap (run_stageB env backup_dir cmap sched w) t
                 = true).
    { apply fires_true. split; [by eexists|]. split; [by rewrite Hdisp|].
      rewrite IH'. intros Ht. apply (Hfresh t Ht). apply list_elem_of_here. }
    unfold run_stageB in *. rewrite foldl_snoc.
    destruct (unit_done_fires env backup_dir cmap _ t sha file Hf Hu)
      as (->&_). by rewrite IH'.
Qed.

Lemma backup_files_records env backup_dir branch start_date end_date
    perm sched w commits :
  get_commits env branch start_date end_date = Returns commits ->
  let completed := completion_order commits perm in
  let cmap := (extract_changed_files env completed w).1 in
  let w1 := (extract_changed_files env completed w).2 in
  admissible env backup_dir cmap sched w1 ->
  failed_files
    (backup_files env backup_dir branch start_date end_date perm sched w).1
  = failed_files w
    ++ extraction_records env completed
    ++ unit_records env backup_dir cmap sched.
Proof.
  intros Hget completed cmap w1 (Hnd&Hin&_).
  pose proof (extract_changed_files_spec env completed w) as Hspec.
  assert (Hpair : extract_changed_files env completed w = (cmap, w1)).
  { subst cmap w1. by destruct (extract_changed_files env completed w). }
  rewrite Hpair in Hspec. destruct Hspec as (_&_&_&_&Hfail).
  unfold backup_files. rewrite Hget. fold completed. rewrite Hpair.
  pose proof (run_stageB_failed_exact env backup_dir cmap sched w1) as Hx.
  cbv zeta in Hx.
  rewrite (admissible_done env backup_dir cmap sched w1 Hnd Hin) in Hx.
  destruct (sb_escaped (run_stageB env backup_dir cmap sched w1)); simpl;
    rewrite Hx, Hfail, <- app_assoc; done.
Qed.

(** The failure list [backup_files] leaves under an admissible run: the
    records found, then one marker record per commit whose extraction
    raised, then one record per file unit of the schedule that failed
    hard, in the order of completion; nothing else, and nothing twice. *)
Theorem backup_files_failure_list env backup_dir branch start_date end_date
    perm sched w commits :
  get_commits env branch start_date end_date = Returns commits ->
  let completed := completion_order commits perm in
  let cmap := (extract_changed_files env completed w).1 in
  let w1 := (extract_changed_files env completed w).2 in
  admissible env backup_dir cmap sched w1 ->
  failed_files
    (backup_files env backup_dir branch start_date end_date perm sched w).1
  = failed_files w
    ++ extraction_records env completed
    ++ unit_records env backup_dir cmap sched.
Proof. apply backup_files_records. Qed.

Lemma backup_files_failure_list_witness :
  let cmap := [("c1", ["a.txt"; "b.txt"; "c.txt"])] in
  let sched := [(0, 2); (0, 1); (0, 0)]%nat in
  get_commits flaky_env "main" None None = Returns [mkCommit "c1" 1672531200]
  /\ admissible flaky_env "data" cmap sched empty_world
  /\ failed_files
       (backup_files flaky_env "data" "main" None None [0%nat] sched
          empty_world).1
     = [("c1", "b.txt"); ("c1", "a.txt")].
Proof.
  intros cmap sched.
  assert (Hadm : admissible flaky_env "data" cmap sched empty_world).
  { split; [by apply (bool_decide_unpack _)|]. split; [|reflexivity].
    intros t Ht.
    apply elem_of_cons in Ht as [->|Ht]; [split; [by eexists|]|].
    { by apply (bool_decide_unpack _). }
    apply elem_of_cons in Ht as [->|Ht]; [split; [by eexists|]|].
    { by apply (bool_decide_unpack _). }
    apply list_elem_of_singleton in Ht as ->. split; [by eexists|].
    by apply (bool_decide_unpack _). }
  split; [reflexivity|]. split; [exact Hadm|].
  pose proof (backup_files_failure_list flaky_env "data" "main" None None
                [0%nat] sched empty_world [mkCommit "c1" 1672531200]
                eq_refl Hadm) as H.
  rewrite H. reflexivity.
Defined.

(** When the run ends with an empty failure list, every file unit of
    every commit of the map has completed and none failed hard: an empty
    list means that nothing was left out. *)
Theorem empty_failure_list_means_complete env backup_dir cmap sched w :
  (forall sha files, (sha, files) ∈ cmap ->
     setup_succeeds env backup_dir sha = true) ->
  admissible env backup_dir cmap sched w ->
  let s := run_stageB env backup_dir cmap sched w in
  failed_files (sb_world s) = [] ->
  forall k sha files i file,
    cmap !! k = Some (sha, files) -> files !! i = Some file ->
    (k, i) ∈ sb_done s
    /\ hard_failure env (path_join backup_dir sha) sha file = false.
Proof.
  intros Hok Hadm s Hempty k sha files i file Hk Hi.
  destruct (run_stageB_failed env backup_dir cmap sched w) as [_ Hrec].
  fold s in Hrec.
  assert (Hnone : forall t sha' file', t ∈ sb_done s ->
            task_unit cmap t = Some (sha', file') ->
            hard_failure env (path_join backup_dir sha') sha' file' = false).
  { intros t sha' file' Ht Hu.
    destruct (hard_failure env (path_join backup_dir sha') sha' file')
      eqn:Hh; [|done].
    pose proof (Hrec t sha' file' Ht Hu Hh) as Hin.
    rewrite Hempty in Hin. by apply elem_of_nil in Hin. }
  assert (Hu : task_unit cmap (k, i) = Some (sha, file)).
  { unfold task_unit. simpl. by rewrite Hk, Hi. }
  assert (Hdone : (k, i) ∈ sb_done s).
  { destruct Hadm as (_&_&Hover). fold s in Hover.
    destruct (start_commits_ok env backup_dir cmap (stageB_init w) 0%nat Hok)
      as (_&Hesc0&_).
    destruct (run_stageB_static env backup_dir cmap sched w) as [_ Hesc].
    fold s in Hesc. rewrite Hesc0 in Hesc. simpl in Hesc.
    assert (Hfin : k ∈ sb_finished s).
    { apply (stageB_over_finished cmap); [done|done|].
      by apply lookup_lt_Some in Hk. }
    destruct (run_stageB_finished env backup_dir cmap sched w Hok k Hfin)
      as [Hc|(j&sha'&file'&Hj&Hu'&Hh)].
    - apply (commit_complete_done cmap _ k sha files); [done|done|].
      by apply lookup_lt_Some in Hi.
    - fold s in Hj. rewrite (Hnone _ _ _ Hj Hu') in Hh. done. }
  split; [done|]. by apply (Hnone (k, i)).
Qed.

Lemma empty_failure_list_means_complete_witness :
  let cmap := [("c1", ["a.txt"; "b.txt"]); ("c2", ["a.txt"])] in
  let sched := [(1, 0); (0, 1); (0, 0)]%nat in
  let s := run_stageB healthy_env "data" cmap sched empty_world in
  admissible healthy_env "data" cmap sched empty_world
  /\ failed_files (sb_world s) = []
  /\ (0, 1)%nat ∈ sb_done s.
Proof.
  intros cmap sched s.
  assert (Hok : forall sha files, (sha, files) ∈ cmap ->
            setup_succeeds healthy_env "data" sha = true).
  { intros sha files Hin.
    apply elem_of_cons in Hin as [[= -> ->]|Hin]; [reflexivity|].
    apply list_elem_of_singleton in Hin as [= -> ->]. reflexivity. }
  assert (Hadm : admissible healthy_env "data" cmap sched empty_world).
  { split; [by apply (bool_decide_unpack _)|]. split; [|reflexivity].
    intros t Ht.
    apply elem_of_cons in Ht as [->|Ht]; [split; [by eexists|]|].
    { by apply (bool_decide_unpack _). }
    apply elem_of_cons in Ht as [->|Ht]; [split; [by eexists|]|].
    { by apply (bool_decide_unpack _). }
    apply list_elem_of_singleton in Ht as ->. split; [by eexists|].
    by apply (bool_decide_unpack _). }
  split; [exact Hadm|]. split; [reflexivity|].
  apply (empty_failure_list_means_complete healthy_env "data" cmap sched
           empty_world Hok Hadm eq_refl 0%nat "c1" ["a.txt"; "b.txt"]
           1%nat "b.txt"); reflexivity.
Defined.

Lemma commit_setup_dirs_mono env backup_dir sha w d :
  d ∈ w_dirs w -> d ∈ w_dirs (commit_setup env backup_dir sha w).1.
Proof.
  intros Hd. run_M. destruct (repo_commit env sha); [done|]. simpl.
  destruct (String.eqb (path_join backup_dir sha) ""); [done|]. simpl.
  destruct (makedirs_fault env _); [done|]. simpl.
  apply elem_of_union. by right.
Qed.

Lemma start_commits_dirs_mono env backup_dir entries : forall s k d,
  d ∈ w_dirs (sb_world s) ->
  d ∈ w_dirs (sb_world (start_commits env backup_dir s k entries)).
Proof.
  induction entries as [|[sha files] rest IH]; intros s k d Hd; simpl;
    [done|].
  apply IH. unfold start_commit.
  pose proof (commit_setup_dirs_mono env backup_dir sha (sb_world s) d Hd)
    as Hm.
  destruct (commit_setup env backup_dir sha (sb_world s)) as [w' [dir|e]];
    simpl in *; [done|].
  destruct e; simpl; done.
Qed.

(** ** Stage B, resumption by resumption *)

Lemma unit_done_completes env backup_dir cmap s t sha file :
  fires cmap s t = true ->
  task_unit cmap t = Some (sha, file) ->
  unit_done env backup_dir cmap s t
  = task_completes cmap s t sha
      (process_file env sha file (path_join backup_dir sha) (sb_world s)).
Proof.
  intros Hf Hu. unfold fires in Hf. rewrite Hu in Hf.
  apply andb_true_iff in Hf as [Hd Hnd]. apply negb_true_iff in Hnd.
  unfold unit_done, task_completes. rewrite Hu, Hd, Hnd. simpl.
  by destruct (process_file env sha file (path_join backup_dir sha)
                 (sb_world s)) as [w' [[]|e]].
Qed.

Lemma unit_step_skip env backup_dir cmap l t :
  fires cmap (lp_stage l) t = false -> unit_step env backup_dir cmap l t = l.
Proof.
  unfold fires, unit_step. destruct (task_unit cmap t) as [[sha file]|];
    [|done].
  intros H. apply andb_false_iff in H as [H|H].
  - rewrite H. done.
  - apply negb_false_iff in H. rewrite H. by rewrite orb_true_r.
Qed.

Lemma unit_step_fires env backup_dir cmap l t sha file :
  fires cmap (lp_stage l) t = true ->
  task_unit cmap t = Some (sha, file) ->
  let s := lp_stage l in
  let res := resume env sha file (path_join backup_dir sha)
               (default Fetching (lp_phase l !! t)) (sb_world s) in
  unit_step env backup_dir cmap l t
  = match res.2 with
    | Returns (Some p') =>
        mkLoop
          (mkStageB res.1 (sb_dispatched s) (sb_finished s) (sb_done s)
             (sb_escaped s))
          (<[t := p']> (lp_phase l))
    | Returns None =>
        mkLoop (task_completes cmap s t sha (res.1, Returns tt)) (lp_phase l)
    | Raises e =>
        mkLoop (task_completes cmap s t sha (res.1, Raises e)) (lp_phase l)
    end.
Proof.
  intros Hf Hu. cbv zeta. unfold fires in Hf. rewrite Hu in Hf.
  apply andb_true_iff in Hf as [Hd Hnd]. apply negb_true_iff in Hnd.
  unfold unit_step. rewrite Hu, Hd, Hnd. simpl.
  by destruct (resume env sha file (path_join backup_dir sha) _ _)
    as [w' [[p'|]|e]].
Qed.

Lemma task_completes_fields cmap s t sha w' r :
  let s' := task_completes cmap s t sha (w', r) in
  sb_done s' = sb_done s ++ [t]
  /\ sb_dispatched s' = sb_dispatched s
  /\ failed_files (sb_world s') = failed_files w'
  /\ tree (sb_world s') = tree w'.
Proof.
  unfold task_completes. destruct r as [[]|e]; simpl; [done|].
  destruct (member t.1 (sb_finished s)); simpl; [done|].
  by destruct e.
Qed.

Lemma run_steps_ind env backup_dir cmap w (P : Loop -> Prop) :
  P (loop_init env backup_dir cmap w) ->
  (forall l t, P l -> P (unit_step env backup_dir cmap l t)) ->
  forall steps, P (run_steps env backup_dir cmap steps w).
Proof.
  intros H0 Hstep steps. unfold run_steps.
  induction steps as [|t steps IH] using rev_ind; simpl; [done|].
  rewrite foldl_snoc. by apply Hstep.
Qed.

Lemma phase_ok_default env backup_dir cmap l t sha file :
  phases_ok env backup_dir cmap l ->
  task_unit cmap t = Some (sha, file) ->
  phase_ok env (path_join backup_dir sha) sha file
    (default Fetching (lp_phase l !! t)).
Proof.
  intros Hok Hu. destruct (lp_phase l !! t) as [p|] eqn:Hp; simpl; [|done].
  destruct (Hok t p Hp) as (sha'&file'&Hu'&Hp'). congruence.
Qed.

Lemma unit_step_phases_ok env backup_dir cmap l t :
  phases_ok env backup_dir cmap l ->
  phases_ok env backup_dir cmap (unit_step env backup_dir cmap l t).
Proof.
  intros Hok. destruct (fires cmap (lp_stage l) t) eqn:Hf;
    [|by rewrite unit_step_skip].
  destruct (proj1 (fires_true _ _ _) Hf) as ([[sha file] Hu]&_).
  rewrite (unit_step_fires env backup_dir cmap l t sha file Hf Hu).
  pose proof (phase_ok_default env backup_dir cmap l t sha file Hok Hu) as Hp.
  destruct (resume env sha file (path_join backup_dir sha) _ _)
    as [w' [[p'|]|e]] eqn:Hr; simpl; [|done..].
  intros t' q Hq. simpl in Hq.
  destruct (decide (t = t')) as [<-|Hne].
  - rewrite lookup_insert_eq in Hq. injection Hq as <-.
    exists sha, file. split; [done|].
    by destruct (resume_suspends _ _ _ _ _ _ _ _ Hp Hr).
  - rewrite lookup_insert_ne in Hq by done. by apply Hok.
Qed.

Lemma run_steps_phases_ok env backup_dir cmap steps w :
  phases_ok env backup_dir cmap (run_steps env backup_dir cmap steps w).
Proof.
  apply run_steps_ind.
  - intros t p Hp. simpl in Hp. by rewrite lookup_empty in Hp.
  - intros l t. apply unit_step_phases_ok.
Qed.






Lemma skip_steps env backup_dir cmap l t n :
  fires cmap (lp_stage l) t = false ->
  foldl (unit_step env backup_dir cmap) l (replicate n t) = l.
Proof.
  intros Hf. induction n as [|n IH]; simpl; [done|].
  by rewrite unit_step_skip.
Qed.

Lemma task_completes_world_irrelevant cmap w0 d f dn e t sha res s :
  sb_dispatched s = d -> sb_finished s = f -> sb_done s = dn ->
  sb_escaped s = e ->
  task_completes cmap (mkStageB w0 d f dn e) t sha res
  = task_completes cmap s t sha res.
Proof. intros <- <- <- <-. done. Qed.

Lemma fires_done cmap s t :
  t ∈ sb_done s -> fires cmap s t = false.
Proof.
  intros Hd. unfold fires. destruct (task_unit cmap t); [|done].
  apply andb_false_iff. right. apply negb_false_iff. by apply member_true.
Qed.

(** The resumptions of one task in a row. *)
Lemma steps_in_a_row env backup_dir cmap t sha file n : forall l,
  fires cmap (lp_stage l) t = true ->
  task_unit cmap t = Some (sha, file) ->
  let s := lp_stage l in
  let l' := foldl (unit_step env backup_dir cmap) l (replicate n t) in
  lp_stage l'
  = match slices env sha file (path_join backup_dir sha) n
            (default Fetching (lp_phase l !! t)) (sb_world s) with
    | (w', Suspended _) =>
        mkStageB w' (sb_dispatched s) (sb_finished s) (sb_done s)
          (sb_escaped s)
    | (w', Completed r) => task_completes cmap s t sha (w', r)
    end
  /\ (forall t', t' <> t -> lp_phase l' !! t' = lp_phase l !! t').
Proof.
  induction n as [|n IH]; intros l Hf Hu; cbv zeta.
  - simpl. split; [|done]. by destruct (lp_stage l).
  - cbn [replicate foldl slices].
    pose proof (unit_step_fires env backup_dir cmap l t sha file Hf Hu)
      as Hstep. cbv zeta in Hstep.
    destruct (resume env sha file (path_join backup_dir sha)
                (default Fetching (lp_phase l !! t)) (sb_world (lp_stage l)))
      as [w' [[p'|]|e]] eqn:Hr; cbn [fst snd] in Hstep; rewrite Hstep.
    + specialize (IH (mkLoop
                        (mkStageB w' (sb_dispatched (lp_stage l))
                           (sb_finished (lp_stage l)) (sb_done (lp_stage l))
                           (sb_escaped (lp_stage l)))
                        (<[t := p']> (lp_phase l)))).
      cbv zeta in IH. cbn [lp_stage lp_phase sb_world sb_dispatched
                             sb_finished sb_done sb_escaped] in IH.
      rewrite lookup_insert_eq in IH. cbn [default from_option id] in IH.
      destruct IH as [IH1 IH2]; [|done|].
      { unfold fires in *. by rewrite Hu in *. }
      split.
      * rewrite IH1.
        destruct (slices env sha file (path_join backup_dir sha) n p' w')
          as [w'' [q|r]]; [done|].
        by apply task_completes_world_irrelevant.
      * intros t' Hne. rewrite IH2 by done. by rewrite lookup_insert_ne.
    + rewrite skip_steps; [done|]. cbn [lp_stage]. apply fires_done.
      destruct (task_completes_fields cmap (lp_stage l) t sha w'
                  (Returns tt)) as (->&_).
      apply elem_of_app. right. apply list_elem_of_here.
    + rewrite skip_steps; [done|]. cbn [lp_stage]. apply fires_done.
      destruct (task_completes_fields cmap (lp_stage l) t sha w'
                  (Raises e)) as (->&_).
      apply elem_of_app. right. apply list_elem_of_here.
Qed.

(** A run in which every task completes in one piece is a run of
    [run_stageB]. *)
Lemma run_steps_in_one_piece env backup_dir cmap sched w :
  lp_stage (run_steps env backup_dir cmap (in_one_piece sched) w)
  = run_stageB env backup_dir cmap sched w.
Proof.
  assert (H : lp_stage (run_steps env backup_dir cmap (in_one_piece sched) w)
              = run_stageB env backup_dir cmap sched w
              /\ forall t, is_Some (lp_phase
                                      (run_steps env backup_dir cmap
                                         (in_one_piece sched) w) !! t) ->
                           t ∈ sb_done (run_stageB env backup_dir cmap
                                          sched w)); [|by destruct H].
  induction sched as [|t sched [IH1 IH2]] using rev_ind.
  - split; [done|]. intros t [p Hp]. simpl in Hp.
    by rewrite lookup_empty in Hp.
  - unfold in_one_piece, run_steps, run_stageB in *.
    rewrite bind_app, !foldl_app.
    replace ([t] ≫= λ t0 : task_id, replicate 4 t0) with (replicate 4 t)
      by reflexivity.
    change (foldl (unit_done env backup_dir cmap) ?a [t])
      with (unit_done env backup_dir cmap a t).
    set (l := foldl (unit_step env backup_dir cmap)
                (loop_init env backup_dir cmap w) (sched ≫= replicate 4))
      in *.
    set (c := foldl (unit_done env backup_dir cmap)
                (start_commits env backup_dir (stageB_init w) 0 cmap) sched)
      in *.
    destruct (fires cmap c t) eqn:Hf.
    + destruct (proj1 (fires_true _ _ _) Hf) as ([[sha file] Hu]&_&Hnd).
      assert (Hfl : fires cmap (lp_stage l) t = true) by by rewrite IH1.
      destruct (steps_in_a_row env backup_dir cmap t sha file 4 l Hfl Hu)
        as [Hst Hph].
      assert (Hnone : lp_phase l !! t = None).
      { destruct (lp_phase l !! t) as [p|] eqn:Hp; [|done].
        destruct Hnd. apply IH2. by eexists. }
      rewrite Hnone in Hst. cbn [default from_option] in Hst.
      rewrite slices_run_to_end, IH1 in Hst.
      rewrite (unit_done_completes _ _ _ _ _ sha file Hf Hu).
      rewrite <- surjective_pairing in Hst. split; [done|].
      intros t' Ht'. destruct (decide (t' = t)) as [->|Hne].
      * destruct (task_completes_fields cmap c t sha
                    (process_file env sha file (path_join backup_dir sha)
                       (sb_world c)).1
                    (process_file env sha file (path_join backup_dir sha)
                       (sb_world c)).2) as (Hd&_).
        rewrite <- surjective_pairing in Hd. rewrite Hd.
        apply elem_of_app. right. apply list_elem_of_here.
      * rewrite Hph in Ht' by done. apply IH2 in Ht'.
        destruct (task_completes_fields cmap c t sha
                    (process_file env sha file (path_join backup_dir sha)
                       (sb_world c)).1
                    (process_file env sha file (path_join backup_dir sha)
                       (sb_world c)).2) as (Hd&_).
        rewrite <- surjective_pairing in Hd. rewrite Hd.
        apply elem_of_app. by left.
    + rewrite skip_steps by by rewrite IH1.
      rewrite unit_done_skip by done. done.
Qed.

Lemma unit_step_tree env backup_dir cmap l t sha file :
  fires cmap (lp_stage l) t = true ->
  task_unit cmap t = Some (sha, file) ->
  let l' := unit_step env backup_dir cmap l t in
  tree (sb_world (lp_stage l'))
  = tree (resume env sha file (path_join backup_dir sha)
            (default Fetching (lp_phase l !! t)) (sb_world (lp_stage l))).1
  /\ sb_dispatched (lp_stage l') = sb_dispatched (lp_stage l).
Proof.
  intros Hf Hu. cbv zeta.
  rewrite (unit_step_fires env backup_dir cmap l t sha file Hf Hu).
  destruct (resume env sha file (path_join backup_dir sha) _ _)
    as [w' [[p'|]|e]]; cbn [fst snd lp_stage]; [done| |].
  - by destruct (task_completes_fields cmap (lp_stage l) t sha w'
                   (Returns tt)) as (_&->&_&->).
  - by destruct (task_completes_fields cmap (lp_stage l) t sha w'
                   (Raises e)) as (_&->&_&->).
Qed.

(** The backup never deletes: after any sequence of resumptions, whatever
    fails and wherever the run ends, every file found in the tree is
    still there and every directory found is still there.  When no two
    file units share a destination (two writers of one file would mix
    their writes), a file's content differs from before only at the
    destination of a file unit of a dispatched commit whose content was
    fetched, and what is found there is a part of that content, from
    nothing (the destination was opened and not yet written) to all of
    it: a unit that never completes can leave its destination empty,
    also where an earlier run had left the content. *)
Theorem backup_never_deletes env backup_dir cmap steps w :
  let s := lp_stage (run_steps env backup_dir cmap steps w) in
  (forall p, is_Some (w_files w !! p) -> is_Some (w_files (sb_world s) !! p))
  /\ (forall d, d ∈ w_dirs w -> d ∈ w_dirs (sb_world s))
  /\ ((forall t t' sha file sha' file',
         task_unit cmap t = Some (sha, file) ->
         task_unit cmap t' = Some (sha', file') ->
         dest_path backup_dir sha file = dest_path backup_dir sha' file' ->
         t = t') ->
      forall p,
        w_files (sb_world s) !! p = w_files w !! p
        \/ exists t sha file content n,
             task_unit cmap t = Some (sha, file)
             /\ t.1 ∈ sb_dispatched s
             /\ show_file env sha file = Returns content
             /\ p = dest_path backup_dir sha file
             /\ w_files (sb_world s) !! p = Some (take_string n content)).
Proof.
  cbv zeta.
  assert (H : phases_ok env backup_dir cmap
                (run_steps env backup_dir cmap steps w)
              /\ let s := lp_stage (run_steps env backup_dir cmap steps w) in
                 (forall p, is_Some (w_files w !! p) ->
                            is_Some (w_files (sb_world s) !! p))
                 /\ (forall d, d ∈ w_dirs w -> d ∈ w_dirs (sb_world s))
                 /\ (forall p,
                       w_files (sb_world s) !! p = w_files w !! p
                       \/ exists t sha file content n,
                            task_unit cmap t = Some (sha, file)
                            /\ t.1 ∈ sb_dispatched s
                            /\ show_file env sha file = Returns content
                            /\ p = dest_path backup_dir sha file
                            /\ w_files (sb_world s) !! p
                               = Some (take_string n content)));
    [|destruct H as (_&H1&H2&H3); split; [done|]; split; [done|];
      intros _; exact H3].
  apply run_steps_ind.
  - split.
    { intros t p Hp. simpl in Hp. by rewrite lookup_empty in Hp. }
    cbv zeta. simpl.
    destruct (start_commits_keeps env backup_dir cmap (stageB_init w) 0)
      as (_&_&->). simpl. split; [done|]. split; [|by left].
    intros d Hd. by apply start_commits_dirs_mono.
  - intros l t [Hok (IH1&IH2&IH3)]. split; [by apply unit_step_phases_ok|].
    cbv zeta. destruct (fires cmap (lp_stage l) t) eqn:Hf;
      [|by rewrite unit_step_skip].
    destruct (proj1 (fires_true _ _ _) Hf) as ([[sha file] Hu]&Hdisp&_).
    destruct (unit_step_tree env backup_dir cmap l t sha file Hf Hu)
      as [Htree Hd].
    pose proof (phase_ok_default env backup_dir cmap l t sha file Hok Hu)
      as Hp.
    injection Htree as -> ->. rewrite Hd.
    pose proof (resume_files env (path_join backup_dir sha) sha file
                  (default Fetching (lp_phase l !! t))
                  (sb_world (lp_stage l)) Hp) as Hfiles.
    split; [|split].
    + intros p Hin. specialize (IH1 p Hin).
      destruct Hfiles as [->|(c&n&_&_&->)]; [done|].
      destruct (decide (path_join (path_join backup_dir sha) file = p))
        as [->|Hne].
      * rewrite lookup_insert_eq. by eexists.
      * by rewrite lookup_insert_ne.
    + intros d Hin. apply resume_dirs. by apply IH2.
    + intros p. destruct Hfiles as [->|(c&n&Hs&_&->)]; [apply IH3|].
      destruct (decide (path_join (path_join backup_dir sha) file = p))
        as [<-|Hne].
      * right. exists t, sha, file, c, n. rewrite lookup_insert_eq. done.
      * rewrite lookup_insert_ne by done. apply IH3.
Qed.

(** One commit of three files, of which only [c.txt] can be read: the
    fetch of [c.txt] returns and its destination is opened, then the
    fetch of [a.txt] fails.  The commit task takes the exception and is
    finished, the run is over with the single record of [a.txt], and
    [c.txt] is left in the tree, empty, its write outstanding. *)
Example suspended_unit_leaves_empty_file :
  let cmap := [("c1", ["a.txt"; "b.txt"; "c.txt"])] in
  let steps := [(0, 2); (0, 2); (0, 0)]%nat in
  let l := run_steps flaky_env "data" cmap steps empty_world in
  steps_admissible flaky_env "data" cmap steps empty_world
  /\ sb_done (lp_stage l) = [(0, 0)%nat]
  /\ sb_finished (lp_stage l) = [0%nat]
  /\ lp_phase l !! (0, 2)%nat = Some (Writing "data")
  /\ w_files (sb_world (lp_stage l)) !! "data/c1/c.txt" = Some ""
  /\ failed_files (sb_world (lp_stage l)) = [("c1", "a.txt")].
Proof.
  intros cmap steps l. split; [|by repeat split].
  split; [|reflexivity].
  intros before t after Heq. subst steps.
  destruct before as [|t1 [|t2 [|t3 [|t4 before]]]]; simpl in Heq.
  - injection Heq as <- <-. reflexivity.
  - injection Heq as <- <- <-. reflexivity.
  - injection Heq as <- <- <- <-. reflexivity.
  - injection Heq as _ _ _ Heq. by destruct (nil_cons Heq).
  - injection Heq as _ _ _ Heq. by destruct (nil_cons Heq).
Qed.


Lemma dir_chain_self d : d ∈ dir_chain d.
Proof.
  unfold dir_chain. destruct (String.length d); simpl;
    [apply list_elem_of_here|].
  destruct (String.eqb (dirname d) "" || String.eqb (dirname d) d);
    apply list_elem_of_here.
Qed.

Lemma start_commits_own_dir env backup_dir entries : forall s k sha files,
  (sha, files) ∈ entries ->
  setup_succeeds env backup_dir sha = true ->
  path_join backup_dir sha
    ∈ w_dirs (sb_world (start_commits env backup_dir s k entries)).
Proof.
  induction entries as [|[sha0 files0] rest IH]; intros s k sha files Hin Hok.
  - by apply elem_of_nil in Hin.
  - simpl. apply elem_of_cons in Hin as [[= <- <-]|Hin]; [|by eapply IH].
    apply start_commits_dirs_mono. unfold start_commit.
    rewrite (commit_setup_ok _ _ _ _ Hok). simpl.
    apply elem_of_union. left. apply elem_of_list_to_set, dir_chain_self.
Qed.

Lemma run_steps_dirs_mono env backup_dir cmap steps w d :
  d ∈ w_dirs (sb_world (loop_init env backup_dir cmap w).(lp_stage)) ->
  d ∈ w_dirs (sb_world (lp_stage (run_steps env backup_dir cmap steps w))).
Proof.
  intros Hd. apply run_steps_ind; [done|].
  intros l t IH. destruct (fires cmap (lp_stage l) t) eqn:Hf;
    [|by rewrite unit_step_skip].
  destruct (proj1 (fires_true _ _ _) Hf) as ([[sha file] Hu]&_).
  destruct (unit_step_tree env backup_dir cmap l t sha file Hf Hu)
    as [Htree _].
  injection Htree as -> _. by apply resume_dirs.
Qed.

(** Every commit of the map whose own setup gets through has its
    directory in the tree, whatever happens to the other commits (also
    when the setup of another one fails and ends the run), to its own
    files (none, or every unit skipped or failing), and wherever the run
    ends: after any schedule of completions and after any sequence of
    resumptions. *)
Theorem every_commit_gets_directory env backup_dir cmap w sha files :
  (sha, files) ∈ cmap ->
  setup_succeeds env backup_dir sha = true ->
  (forall sched,
     path_join backup_dir sha
       ∈ w_dirs (sb_world (run_stageB env backup_dir cmap sched w)))
  /\ (forall steps,
        path_join backup_dir sha
          ∈ w_dirs (sb_world
                      (lp_stage (run_steps env backup_dir cmap steps w)))).
Proof.
  intros Hin Hok.
  assert (Hsteps : forall steps,
            path_join backup_dir sha
              ∈ w_dirs (sb_world
                          (lp_stage
                             (run_steps env backup_dir cmap steps w)))).
  { intros steps. apply run_steps_dirs_mono. simpl.
    by apply (start_commits_own_dir _ _ _ _ _ sha files). }
  split; [|done]. intros sched. rewrite <- run_steps_in_one_piece.
  apply Hsteps.
Qed.

Lemma every_commit_gets_directory_witness :
  let cmap := [("c1", ["a.txt"; "b.txt"]); ("c2", ["a.txt"])] in
  setup_succeeds blocked_env "data" "c1" = false
  /\ sb_escaped (run_stageB blocked_env "data" cmap [] empty_world)
     = Some (OSError "[Errno 17] File exists: 'data/c1'")
  /\ "data/c2"
       ∈ w_dirs (sb_world (run_stageB blocked_env "data" cmap []
                             empty_world)).
Proof.
  intros cmap. split; [reflexivity|]. split; [reflexivity|].
  destruct (every_commit_gets_directory blocked_env "data" cmap empty_world
              "c2" ["a.txt"]) as [H _].
  - by apply (bool_decide_unpack _).
  - reflexivity.
  - apply (H []).
Defined.

Lemma commit_setup_returns env backup_dir sha w :
  (exists d, (commit_setup env backup_dir sha w).2 = Returns d)
  <-> setup_succeeds env backup_dir sha = true.
Proof.
  split.
  - unfold setup_succeeds. run_M.
    destruct (repo_commit env sha); simpl; [by intros [? ?]|].
    destruct (String.eqb (path_join backup_dir sha) ""); simpl;
      [by intros [? ?]|].
    destruct (makedirs_fault env _); simpl; [by intros [? ?]|done].
  - intros H. rewrite (commit_setup_ok _ _ _ _ H). by eexists.
Qed.

Lemma start_commits_dispatched env backup_dir entries : forall s k j,
  j ∈ sb_dispatched (start_commits env backup_dir s k entries) ->
  j ∈ sb_dispatched s
  \/ exists sha files,
       entries !! (j - k)%nat = Some (sha, files) /\ (k <= j)%nat
       /\ setup_succeeds env backup_dir sha = true.
Proof.
  induction entries as [|[sha files] rest IH]; intros s k j Hj; simpl in *;
    [by left|].
  destruct (IH _ _ _ Hj) as [Hd|(sha'&files'&Hl&Hle&Hs)].
  - unfold start_commit in Hd.
    pose proof (commit_setup_returns env backup_dir sha (sb_world s)) as Hr.
    destruct (commit_setup env backup_dir sha (sb_world s)) as [w' [d|e]];
      simpl in *.
    + apply elem_of_app in Hd as [?|Hd]; [by left|].
      apply list_elem_of_singleton in Hd as ->. right.
      exists sha, files. rewrite Nat.sub_diag. simpl.
      split; [done|]. split; [lia|]. apply Hr. by eexists.
    + destruct e; simpl in Hd; by left.
  - right. exists sha', files'. split; [|split; [lia|done]].
    replace (j - k)%nat with (S (j - S k)) by lia. done.
Qed.

(** A commit whose setup fails gets no file unit: after any schedule none
    of its file tasks has completed, so none of its files is fetched or
    written. *)
Theorem failed_setup_dispatches_nothing env backup_dir cmap sched w
    k sha files i :
  cmap !! k = Some (sha, files) ->
  setup_succeeds env backup_dir sha = false ->
  (k, i) ∉ sb_done (run_stageB env backup_dir cmap sched w).
Proof.
  intros Hk Hfail.
  assert (Hinv : forall t,
            t ∈ sb_done (run_stageB env backup_dir cmap sched w) ->
            t.1 ∈ sb_dispatched
                    (start_commits env backup_dir (stageB_init w) 0 cmap)).
  { destruct (run_stageB_static env backup_dir cmap sched w) as [<- _].
    apply run_stageB_ind.
    - destruct (start_commits_keeps env backup_dir cmap (stageB_init w) 0)
        as (->&_). simpl. intros t Ht. by apply elem_of_nil in Ht.
    - intros s t IH t' Ht'. destruct (fires cmap s t) eqn:Hf;
        [|rewrite unit_done_skip in Ht' |- * by done; by apply IH].
      destruct (proj1 (fires_true _ _ _) Hf) as ([[sha' file] Hu]&Hd&_).
      destruct (unit_done_fires env backup_dir cmap s t sha' file Hf Hu)
        as (Hdone&Hdisp&_).
      rewrite Hdone in Ht'. rewrite Hdisp.
      apply elem_of_app in Ht' as [Ht'|Ht']; [by apply IH|].
      by apply list_elem_of_singleton in Ht' as ->. }
  intros Hin. apply Hinv in Hin. simpl in Hin.
  apply start_commits_dispatched in Hin as [Hin|(sha'&files'&Hl&_&Hs)].
  - by apply elem_of_nil in Hin.
  - rewrite Nat.sub_0_r, Hk in Hl. injection Hl as <- <-. congruence.
Qed.

Lemma failed_setup_dispatches_nothing_witness :
  let cmap := [("c1", ["a.txt"; "b.txt"]); ("c2", ["a.txt"])] in
  setup_succeeds blocked_env "data" "c1" = false
  /\ (0, 0)%nat
       ∉ sb_done (run_stageB blocked_env "data" cmap [(0, 0); (1, 0)]%nat
                    empty_world).
Proof.
  intros cmap. split; [reflexivity|].
  apply (failed_setup_dispatches_nothing blocked_env "data" cmap
           [(0, 0); (1, 0)]%nat empty_world 0%nat "c1" ["a.txt"; "b.txt"]
           0%nat); reflexivity.
Defined.

(** ** [backup_files] *)

(** In a run where every unit goes through, the tree that [backup_files]
    leaves does not depend on the order in which the pool hands back the
    commits nor on the order in which the file units complete. *)
Theorem clean_run_tree_independent_of_order env backup_dir branch
    start_date end_date commits perm1 sched1 perm2 sched2 w :
  get_commits env branch start_date end_date = Returns commits ->
  (forall c, c ∈ commits ->
     sha_ok (hexsha c) = true
     /\ setup_succeeds env backup_dir (hexsha c) = true) ->
  (forall c files file,
     c ∈ commits -> show_names env (hexsha c) = Returns files ->
     file ∈ files ->
     relative file = true
     /\ unit_clean env (path_join backup_dir (hexsha c)) (hexsha c) file
        = true) ->
  run_admissible env backup_dir branch start_date end_date perm1 sched1 w ->
  run_admissible env backup_dir branch start_date end_date perm2 sched2 w ->
  tree (backup_files env backup_dir branch start_date end_date
          perm1 sched1 w).1
  = tree (backup_files env backup_dir branch start_date end_date
            perm2 sched2 w).1.
Proof.
  intros Hsel Hc Hu Hadm1 Hadm2.
  destruct (backup_files_clean env backup_dir branch start_date end_date
              commits Hsel Hc Hu perm1 sched1 w Hadm1) as (_&HA1&HB1&HD1).
  destruct (backup_files_clean env backup_dir branch start_date end_date
              commits Hsel Hc Hu perm2 sched2 w Hadm2) as (_&HA2&HB2&HD2).
  unfold tree. f_equal.
  - apply set_eq. intros d. rewrite HD1, HD2. done.
  - apply map_eq. intros p.
    destruct (HB1 p) as [H1|(sha&file&content&Hru&Hshow&->)].
    + destruct (HB2 p) as [H2|(sha&file&content&Hru&Hshow&->)];
        [congruence|].
      by rewrite (HA1 _ _ _ Hru Hshow), (HA2 _ _ _ Hru Hshow).
    + by rewrite (HA1 _ _ _ Hru Hshow), (HA2 _ _ _ Hru Hshow).
Qed.

Lemma clean_run_tree_independent_of_order_witness :
  run_admissible healthy_env "data" "main" None None [0; 1]%nat
    [(0, 0); (0, 1); (1, 0)]%nat empty_world
  /\ run_admissible healthy_env "data" "main" None None [1; 0]%nat
       [(1, 1); (0, 0); (1, 0)]%nat empty_world
  /\ tree (backup_files healthy_env "data" "main" None None [0; 1]%nat
             [(0, 0); (0, 1); (1, 0)]%nat empty_world).1
     = tree (backup_files healthy_env "data" "main" None None [1; 0]%nat
               [(1, 1); (0, 0); (1, 0)]%nat empty_world).1.
Proof.
  assert (Hadm1 : run_admissible healthy_env "data" "main" None None
                    [0; 1]%nat [(0, 0); (0, 1); (1, 0)]%nat empty_world).
  { split; [reflexivity|].
    split; [by apply (bool_decide_unpack _)|]. split; [|reflexivity].
    intros t Ht.
    apply elem_of_cons in Ht as [->|Ht]; [split; [by eexists|]|].
    { by apply (bool_decide_unpack _). }
    apply elem_of_cons in Ht as [->|Ht]; [split; [by eexists|]|].
    { by apply (bool_decide_unpack _). }
    apply list_elem_of_singleton in Ht as ->. split; [by eexists|].
    by apply (bool_decide_unpack _). }
  assert (Hadm2 : run_admissible healthy_env "data" "main" None None
                    [1; 0]%nat [(1, 1); (0, 0); (1, 0)]%nat empty_world).
  { split; [apply perm_swap|].
    split; [by apply (bool_decide_unpack _)|]. split; [|reflexivity].
    intros t Ht.
    apply elem_of_cons in Ht as [->|Ht]; [split; [by eexists|]|].
    { by apply (bool_decide_unpack _). }
    apply elem_of_cons in Ht as [->|Ht]; [split; [by eexists|]|].
    { by apply (bool_decide_unpack _). }
    apply list_elem_of_singleton in Ht as ->. split; [by eexists|].
    by apply (bool_decide_unpack _). }
  split; [exact Hadm1|]. split; [exact Hadm2|].
  exact (clean_run_tree_independent_of_order healthy_env "data" "main"
           None None two_commits [0; 1]%nat [(0, 0); (0, 1); (1, 0)]%nat
           [1; 0]%nat [(1, 1); (0, 0); (1, 0)]%nat empty_world eq_refl
           healthy_commits_ok healthy_units_ok Hadm1 Hadm2).
Defined.

(** ** [main] *)

Lemma omap_none {A B} (f : A -> option B) (l : list A) :
  (forall x, x ∈ l -> f x = None) -> omap f l = [].
Proof.
  induction l as [|x l IH]; intros H; [done|]. simpl.
  rewrite (H x) by apply list_elem_of_here.
  apply IH. intros y Hy. apply H. by apply list_elem_of_further.
Qed.

(** When the parameters are accepted, every extraction returns and every
    unit goes through, [main] ends in success with an empty failure list,
    under every admissible run. *)
Theorem main_succeeds_on_clean_run env repo_dir backup_dir start_date
    end_date branch commits perm sched tree0 :
  validate env repo_dir backup_dir start_date end_date = Returns tt ->
  open_repo env repo_dir = None ->
  active_branch env = Returns branch ->
  get_commits env branch start_date end_date = Returns commits ->
  (forall c, c ∈ commits ->
     (exists files, show_names env (hexsha c) = Returns files)
     /\ sha_ok (hexsha c) = true
     /\ setup_succeeds env backup_dir (hexsha c) = true) ->
  (forall c files file,
     c ∈ commits -> show_names env (hexsha c) = Returns files ->
     file ∈ files ->
     relative file = true
     /\ unit_clean env (path_join backup_dir (hexsha c)) (hexsha c) file
        = true) ->
  run_admissible env backup_dir branch start_date end_date perm sched
    (fresh_run tree0) ->
  exists w',
    main env repo_dir backup_dir start_date end_date perm sched tree0
    = (w', ExitSuccess)
    /\ failed_files w' = [].
Proof.
  intros Hval Hopen Hbranch Hsel Hcommits Hunits Hadm.
  assert (Hc : forall c, c ∈ commits ->
            sha_ok (hexsha c) = true
            /\ setup_succeeds env backup_dir (hexsha c) = true).
  { intros c Hin. by destruct (Hcommits c Hin) as (_&?&?). }
  destruct (backup_files_clean env backup_dir branch start_date end_date
              commits Hsel Hc Hunits perm sched (fresh_run tree0) Hadm)
    as (Hret&_).
  pose proof Hadm as Hadm'. unfold run_admissible in Hadm'.
  rewrite Hsel in Hadm'. destruct Hadm' as [Hperm Hadmissible].
  pose proof (backup_files_records env backup_dir branch start_date end_date
                perm sched (fresh_run tree0) commits Hsel Hadmissible)
    as Hrec.
  cbv zeta in Hrec. unfold extraction_records in Hrec.
  rewrite (omap_none _ (completion_order commits perm)) in Hrec.
  2:{ intros sha Hin. apply completion_order_elem in Hin as (c&Hin&<-).
      destruct (Hcommits c Hin) as ((files&->)&_). done. }
  unfold unit_records in Hrec. rewrite omap_none in Hrec.
  2:{ intros t Ht.
      destruct (task_unit _ t) as [[sha file]|] eqn:Hu; [|done].
      apply task_unit_entry in Hu as (files&Hk&Hi).
      apply list_elem_of_lookup_2 in Hk. apply list_elem_of_lookup_2 in Hi.
      apply extract_elem in Hk as [Hin Hs].
      apply completion_order_elem in Hin as (c&Hin&<-).
      destruct (Hunits c files file Hin Hs Hi) as [_ Hclean].
      by rewrite (unit_clean_not_hard _ _ _ _ Hclean). }
  simpl in Hrec. unfold main. rewrite Hval, Hopen, Hbranch.
  destruct (backup_files env backup_dir branch start_date end_date perm
              sched (fresh_run tree0)) as [w' r].
  simpl in Hret, Hrec. subst r. rewrite Hrec. by exists w'.
Qed.

Lemma main_succeeds_on_clean_run_witness :
  validate healthy_env "." "data" None None = Returns tt
  /\ run_admissible healthy_env "data" "main" None None [0; 1]%nat
       [(0, 0); (0, 1); (1, 0)]%nat (fresh_run empty_world)
  /\ exists w',
       main healthy_env "." "data" None None [0; 1]%nat
         [(0, 0); (0, 1); (1, 0)]%nat empty_world
       = (w', ExitSuccess)
       /\ failed_files w' = [].
Proof.
  assert (Hadm : run_admissible healthy_env "data" "main" None None
                   [0; 1]%nat [(0, 0); (0, 1); (1, 0)]%nat
                   (fresh_run empty_world)).
  { split; [reflexivity|].
    split; [by apply (bool_decide_unpack _)|]. split; [|reflexivity].
    intros t Ht.
    apply elem_of_cons in Ht as [->|Ht]; [split; [by eexists|]|].
    { by apply (bool_decide_unpack _). }
    apply elem_of_cons in Ht as [->|Ht]; [split; [by eexists|]|].
    { by apply (bool_decide_unpack _). }
    apply list_elem_of_singleton in Ht as ->. split; [by eexists|].
    by apply (bool_decide_unpack _). }
  split; [reflexivity|]. split; [exact Hadm|].
  apply (main_succeeds_on_clean_run healthy_env "." "data" None None "main"
           two_commits [0; 1]%nat [(0, 0); (0, 1); (1, 0)]%nat empty_world);
    [reflexivity|reflexivity|reflexivity|reflexivity| |
     exact healthy_units_ok|exact Hadm].
  intros c Hc. destruct (healthy_commits_ok c Hc) as [Hs Hok].
  split; [|by split].
  apply elem_of_cons in Hc as [->|Hc]; [by eexists|].
  apply list_elem_of_singleton in Hc as ->. by eexists.
Defined.
